(** * plaud-tm: transcript adjustment and segment merging

    A shallow embedding of [src/transcript.ts] (timestamp arithmetic and
    the line-oriented adjuster), [src/merge.ts] (sort keys, output
    path inference, merge orchestration), [src/update.ts] (output path
    and orchestration of the update) and the argument parsers of
    [src/cli.ts], with the properties stated by the specification proved
    or refuted against the embedded code, followed by further properties
    of the code.

    Numbers are modelled by [Z]: every number the program manipulates is
    an integer obtained from [parseInt] on a few digits or from integer
    arithmetic on such values, far inside the range where IEEE doubles
    are exact.  Strings are modelled by [string]; the program inspects
    only ASCII digits, [:], [_], [-], [.], [/] and the line feed, every
    other code unit is opaque to it. *)

From Stdlib Require Import ZArith Ascii String List Lia Bool DecimalString.
From Stdlib Require Import Sorted Permutation.
From stdpp Require Import gmap strings list.

Local Open Scope Z_scope.

(** ** Results of fallible operations (thrown errors) *)

Inductive Result (E A : Type) : Type :=
| Ok (a : A)
| Err (e : E).
Arguments Ok {E A} a.
Arguments Err {E A} e.

(** ** JavaScript string and number primitives used by the sources *)

Module Js.

Definition LF : ascii := "010"%char.
Definition NL : string := String LF "".

(** [\d] of a JavaScript regular expression: ASCII 0-9 only. *)
Definition isDigit (c : ascii) : bool :=
  ((48 <=? N_of_ascii c) && (N_of_ascii c <=? 57))%N.

Definition digitValue (c : ascii) : Z := Z.of_N (N_of_ascii c) - 48.

Definition digitChar (d : Z) : ascii := ascii_of_N (Z.to_N (d + 48)).

Fixpoint allDigits (s : string) : bool :=
  match s with
  | EmptyString => true
  | String c s' => isDigit c && allDigits s'
  end.

(** [/^\d{n}$/.test(s)] *)
Definition digitsExactly (n : nat) (s : string) : bool :=
  (String.length s =? n)%nat && allDigits s.

Fixpoint parseIntFrom (acc : Z) (s : string) : Z :=
  match s with
  | EmptyString => acc
  | String c s' =>
      if isDigit c then parseIntFrom (10 * acc + digitValue c) s' else acc
  end.

(** [parseInt(s, 10)].  Every call site passes a regex-validated,
    non-empty run of digits, so the [NaN] result of an empty prefix is
    never produced and is not represented. *)
Definition parseInt (s : string) : Z := parseIntFrom 0 s.

(** [String(n)] for an integer [n]. *)
Definition toString (n : Z) : string := NilZero.string_of_int (Z.to_int n).

Fixpoint repeatChar (n : nat) (c : ascii) : string :=
  match n with
  | O => EmptyString
  | S k => String c (repeatChar k c)
  end.

(** [s.padStart(n, c)] for a one-character filler. *)
Definition padStart (n : nat) (c : ascii) (s : string) : string :=
  repeatChar (n - String.length s) c +:+ s.

(** [s.split(sep)] for a one-character separator: never the empty list. *)
Fixpoint split (sep : ascii) (s : string) : list string :=
  match s with
  | EmptyString => [EmptyString]
  | String c s' =>
      if Ascii.eqb c sep then EmptyString :: split sep s'
      else match split sep s' with
           | h :: t => String c h :: t
           | [] => [String c EmptyString]
           end
  end.

(** [l.join(sep)] *)
Fixpoint join (sep : string) (l : list string) : string :=
  match l with
  | [] => EmptyString
  | [x] => x
  | x :: t => x +:+ sep +:+ join sep t
  end.

(** [s.endsWith(suffix)]: some tail of [s] is [suffix]. *)
Fixpoint endsWith (s suffix : string) : bool :=
  if String.eqb s suffix then true
  else match s with
       | EmptyString => false
       | String _ s' => endsWith s' suffix
       end.

(** [s.slice(0, n)] and [s.slice(n)] for [0 <= n]. *)
Fixpoint sliceTo (n : nat) (s : string) : string :=
  match n, s with
  | S k, String c s' => String c (sliceTo k s')
  | _, _ => EmptyString
  end.

Fixpoint sliceFrom (n : nat) (s : string) : string :=
  match n, s with
  | S k, String _ s' => sliceFrom k s'
  | _, _ => s
  end.

(** Truthiness of an optional string ([if (request.output)]): absent and
    the empty string are both falsy. *)
Definition truthy (o : option string) : bool :=
  match o with
  | Some (String _ _) => true
  | _ => false
  end.

(** Length of the run of line feeds that ends [s] (scanning forward,
    [run] is the length of the run ending just before the cursor). *)
Fixpoint newlineRun (run : nat) (s : string) : nat :=
  match s with
  | EmptyString => run
  | String c s' => newlineRun (if Ascii.eqb c LF then S run else O) s'
  end.

Definition trailingNewlines (s : string) : nat := newlineRun O s.

(** Number of positions of [s] at which [needle] occurs. *)
Fixpoint occurrences (needle s : string) : nat :=
  ((if String.prefix needle s then 1 else 0) +
   match s with
   | EmptyString => 0
   | String _ s' => occurrences needle s'
   end)%nat.

End Js.

(** ** The [Date] built-in, as far as [addDays] uses it

    A [Date] built from local calendar fields and read back through
    local getters is modelled by its local day number (days since
    1970-01-01), following the ECMAScript [MakeDay] / [YearFromTime] /
    [MonthFromTime] / [DateFromTime] definitions over the proleptic
    Gregorian calendar.  The local time zone is assumed not to skip a
    calendar day, and the value to stay inside the representable range
    of [Date]. *)

Module JsDate.

(** Day number of the civil date [y]-[m]-[d], [m] in 1..12, any [d]. *)
Definition daysFromCivil (y m d : Z) : Z :=
  let y' := if m <=? 2 then y - 1 else y in
  let era := y' / 400 in
  let yoe := y' - era * 400 in
  let doy := (153 * (if m >? 2 then m - 3 else m + 9) + 2) / 5 + d - 1 in
  let doe := yoe * 365 + yoe / 4 - yoe / 100 + doy in
  era * 146097 + doe - 719468.

(** Civil date [(year, month 1..12, day)] of a day number. *)
Definition civilFromDays (z : Z) : Z * Z * Z :=
  let z' := z + 719468 in
  let era := z' / 146097 in
  let doe := z' - era * 146097 in
  let yoe := (doe - doe / 1460 + doe / 36524 - doe / 146096) / 365 in
  let doy := doe - (365 * yoe + yoe / 4 - yoe / 100) in
  let mp := (5 * doy + 2) / 153 in
  let d := doy - (153 * mp + 2) / 5 + 1 in
  let m := if mp <? 10 then mp + 3 else mp - 9 in
  (yoe + era * 400 + (if m <=? 2 then 1 else 0), m, d).

(** [MakeDay(year, month, date)] with a zero-based, unnormalised month. *)
Definition MakeDay (year month0 date : Z) : Z :=
  daysFromCivil (year + month0 / 12) (month0 mod 12 + 1) 1 + date - 1.

(** [new Date(year, monthIndex, day)]: years 0..99 denote 1900..1999. *)
Definition make (year month0 date : Z) : Z :=
  let yr := if (0 <=? year) && (year <=? 99) then 1900 + year else year in
  MakeDay yr month0 date.

Definition getFullYear (t : Z) : Z := fst (fst (civilFromDays t)).
Definition getMonth (t : Z) : Z := snd (fst (civilFromDays t)) - 1.
Definition getDate (t : Z) : Z := snd (civilFromDays t).

(** [d.setDate(n)] *)
Definition setDate (t : Z) (n : Z) : Z :=
  MakeDay (getFullYear t) (getMonth t) n.

End JsDate.

(** ** [src/transcript.ts] *)

Module DateTime.
Record t : Type := mk
  { year : Z; month : Z; day : Z; hours : Z; minutes : Z; seconds : Z }.
End DateTime.

Record Time : Type := mkTime { hours : Z; minutes : Z; seconds : Z }.

Record DateOnly : Type := mkDate { year : Z; month : Z; day : Z }.

#[global] Instance DateOnly_eq_dec : EqDecision DateOnly.
Proof. solve_decision. Defined.

Record TranscriptUpdate : Type := mkUpdate
  { body : string;
    firstTimestamp : DateTime.t;
    lastTimestamp : DateTime.t;
    hasOutOfOrderTimestamps : bool }.

Inductive TranscriptError : Type :=
| NoTimestampsError.

(** [TIME_REGEX = /^(\d{2}):(\d{2}):(\d{2})$/]: the three captures. *)
Definition TIME_REGEX_exec (value : string) : option (string * string * string) :=
  match value with
  | String a (String b (String p (String c (String d (String q
      (String e (String f EmptyString))))))) =>
      if Js.isDigit a && Js.isDigit b && Ascii.eqb p ":" &&
         Js.isDigit c && Js.isDigit d && Ascii.eqb q ":" &&
         Js.isDigit e && Js.isDigit f
      then Some (String a (String b EmptyString),
                 String c (String d EmptyString),
                 String e (String f EmptyString))
      else None
  | _ => None
  end.

Definition parseTime (value : string) : option Time :=
  match TIME_REGEX_exec value with
  | None => None
  | Some (m1, m2, m3) =>
      let hours := Js.parseInt m1 in
      let minutes := Js.parseInt m2 in
      let seconds := Js.parseInt m3 in
      if (hours >? 23) || (minutes >? 59) || (seconds >? 59) then None
      else Some (mkTime hours minutes seconds)
  end.

Definition formatTime (time : Time) : string :=
  Js.padStart 2 "0" (Js.toString (hours time)) +:+ ":" +:+
  Js.padStart 2 "0" (Js.toString (minutes time)) +:+ ":" +:+
  Js.padStart 2 "0" (Js.toString (seconds time)).

Definition formatDateDashed (date : DateOnly) : string :=
  Js.toString (year date) +:+ "-" +:+
  Js.padStart 2 "0" (Js.toString (month date)) +:+ "-" +:+
  Js.padStart 2 "0" (Js.toString (day date)).

Definition timeToSeconds (time : Time) : Z :=
  hours time * 3600 + minutes time * 60 + seconds time.

(** [Math.floor(x / k)] is [Z.div]; [%] is the truncating [Z.rem]. *)
Definition secondsToTimeWithOverflow (totalSeconds : Z) : Time * Z :=
  let daysOverflow := totalSeconds / 86400 in
  let remainingSeconds := Z.rem totalSeconds 86400 in
  let hours := remainingSeconds / 3600 in
  let minutes := Z.rem remainingSeconds 3600 / 60 in
  let seconds := Z.rem remainingSeconds 60 in
  (mkTime hours minutes seconds, daysOverflow).

Definition addDays (date : DateOnly) (days : Z) : DateOnly :=
  let d := JsDate.make (year date) (month date - 1) (day date) in
  let d := JsDate.setDate d (JsDate.getDate d + days) in
  mkDate (JsDate.getFullYear d) (JsDate.getMonth d + 1) (JsDate.getDate d).

Definition createDateTime (date : DateOnly) (time : Time) : DateTime.t :=
  DateTime.mk (year date) (month date) (day date)
              (hours time) (minutes time) (seconds time).

(** A [DateTime] passed where a [Time] is expected (structural typing). *)
Definition timeOf (dt : DateTime.t) : Time :=
  mkTime (DateTime.hours dt) (DateTime.minutes dt) (DateTime.seconds dt).

Definition compareDateTime (a b : DateTime.t) : Z :=
  if negb (DateTime.year a =? DateTime.year b)
  then DateTime.year a - DateTime.year b
  else if negb (DateTime.month a =? DateTime.month b)
  then DateTime.month a - DateTime.month b
  else if negb (DateTime.day a =? DateTime.day b)
  then DateTime.day a - DateTime.day b
  else if negb (DateTime.hours a =? DateTime.hours b)
  then DateTime.hours a - DateTime.hours b
  else if negb (DateTime.minutes a =? DateTime.minutes b)
  then DateTime.minutes a - DateTime.minutes b
  else DateTime.seconds a - DateTime.seconds b.

Definition parseTimestampLine (line : string) : option (Time * string) :=
  if (String.length line <? 8)%nat then None
  else
    let timestampPart := Js.sliceTo 8 line in
    match parseTime timestampPart with
    | None => None
    | Some time => Some (time, Js.sliceFrom 8 line)
    end.

Definition applyOffset (start : Time) (effectiveDate : DateOnly)
    (relative : Time) : DateTime.t :=
  let baseSeconds := timeToSeconds start in
  let relativeSeconds := timeToSeconds relative in
  let totalSeconds := baseSeconds + relativeSeconds in
  let '(adjustedTime, daysOverflow) := secondsToTimeWithOverflow totalSeconds in
  let adjustedDate :=
    if daysOverflow >? 0 then addDays effectiveDate daysOverflow
    else effectiveDate in
  createDateTime adjustedDate adjustedTime.

(** The mutable locals of [adjustTranscript]. *)
Module Adjust.
Record state : Type := mk
  { adjustedLines : list string;
    firstTimestamp : option DateTime.t;
    lastTimestamp : option DateTime.t;
    previousTimestamp : option DateTime.t;
    hasOutOfOrder : bool }.

Definition init : state := mk [] None None None false.
End Adjust.

(** One iteration of the [for (const line of lines)] loop. *)
Definition adjustLine (baseTime : Time) (effectiveDate : DateOnly)
    (st : Adjust.state) (line : string) : Adjust.state :=
  match parseTimestampLine line with
  | Some (time, rest) =>
      let adjusted := applyOffset baseTime effectiveDate time in
      let first :=
        match Adjust.firstTimestamp st with
        | None => Some adjusted
        | Some f => Some f
        end in
      let ooo :=
        match Adjust.previousTimestamp st with
        | Some previous =>
            if compareDateTime adjusted previous <? 0 then true
            else Adjust.hasOutOfOrder st
        | None => Adjust.hasOutOfOrder st
        end in
      Adjust.mk (Adjust.adjustedLines st ++ [formatTime (timeOf adjusted) +:+ rest])
                first (Some adjusted) (Some adjusted) ooo
  | None =>
      Adjust.mk (Adjust.adjustedLines st ++ [line])
                (Adjust.firstTimestamp st) (Adjust.lastTimestamp st)
                (Adjust.previousTimestamp st) (Adjust.hasOutOfOrder st)
  end.

(** The lines the loop runs over: the split text, without the empty
    final element a trailing line feed produces. *)
Definition transcriptLines (contents : string) : list string :=
  let lines := Js.split Js.LF contents in
  let hasTrailingNewline := Js.endsWith contents Js.NL in
  if hasTrailingNewline && bool_decide (last lines = Some EmptyString)
  then removelast lines else lines.

Definition adjustTranscript (contents : string) (baseTime : Time)
    (effectiveDate : DateOnly) : Result TranscriptError TranscriptUpdate :=
  let lines := transcriptLines contents in
  let hasTrailingNewline := Js.endsWith contents Js.NL in
  let st := fold_left (adjustLine baseTime effectiveDate) lines Adjust.init in
  match Adjust.firstTimestamp st with
  | None => Err NoTimestampsError
  | Some firstTimestamp =>
      let body := Js.join Js.NL (Adjust.adjustedLines st) in
      let body := if hasTrailingNewline then body +:+ Js.NL else body in
      Ok (mkUpdate body firstTimestamp
            (match Adjust.lastTimestamp st with
             | Some l => l
             | None => firstTimestamp
             end)
            (Adjust.hasOutOfOrder st))
  end.

(** ** POSIX [node:path], as far as the merge uses it *)

Module Path.

Definition sep : ascii := "/"%char.

Definition isSep (c : ascii) : bool := Ascii.eqb c sep.

Fixpoint dropWhile {A} (f : A -> bool) (l : list A) : list A :=
  match l with
  | x :: t => if f x then dropWhile f t else l
  | [] => []
  end.

Fixpoint takeWhile {A} (f : A -> bool) (l : list A) : list A :=
  match l with
  | x :: t => if f x then x :: takeWhile f t else []
  | [] => []
  end.

(** [path.basename(p)]: the last non-empty segment. *)
Definition basename (p : string) : string :=
  let r := dropWhile isSep (rev (list_ascii_of_string p)) in
  string_of_list_ascii (rev (takeWhile (fun c => negb (isSep c)) r)).

(** [path.dirname(p)]: everything before the separator that precedes the
    last segment; the first character is never scanned. *)
Definition dirname (p : string) : string :=
  match p with
  | EmptyString => "."
  | String c0 rest =>
      let hasRoot := isSep c0 in
      let r := dropWhile isSep (rev (list_ascii_of_string rest)) in
      match dropWhile (fun c => negb (isSep c)) r with
      | [] => if hasRoot then "/" else "."
      | _ :: before =>
          match before with
          | [] => if hasRoot then "//" else String c0 EmptyString
          | _ => String c0 (string_of_list_ascii (rev before))
          end
      end
  end.

(** The segment stack of [normalizeString]. *)
Definition normalizeStep (allowAboveRoot : bool) (res : list string)
    (segment : string) : list string :=
  if String.eqb segment "" || String.eqb segment "." then res
  else if String.eqb segment ".." then
    match last res with
    | Some top =>
        if String.eqb top ".." then
          (if allowAboveRoot then res ++ [".."] else res)
        else removelast res
    | None => if allowAboveRoot then [".."] else []
    end
  else res ++ [segment].

Definition normalizeString (allowAboveRoot : bool) (p : string) : string :=
  Js.join "/" (fold_left (normalizeStep allowAboveRoot) (Js.split sep p) []).

Definition isAbsolute (p : string) : bool :=
  match p with
  | String c _ => isSep c
  | EmptyString => false
  end.

Definition normalize (p : string) : string :=
  match p with
  | EmptyString => "."
  | _ =>
      let trailingSeparator := Js.endsWith p "/" in
      let q := normalizeString (negb (isAbsolute p)) p in
      match q with
      | EmptyString =>
          if isAbsolute p then "/" else if trailingSeparator then "./" else "."
      | _ =>
          let q := if trailingSeparator then q +:+ "/" else q in
          if isAbsolute p then "/" +:+ q else q
      end
  end.

(** [path.join(a, b)] *)
Definition join (a b : string) : string :=
  match a, b with
  | EmptyString, EmptyString => "."
  | EmptyString, _ => normalize b
  | _, EmptyString => normalize a
  | _, _ => normalize (a +:+ "/" +:+ b)
  end.

(** [path.resolve(p)] in working directory [cwd] (an absolute path). *)
Definition resolve (cwd p : string) : string :=
  let full := if isAbsolute p then p else cwd +:+ "/" +:+ p in
  "/" +:+ normalizeString false full.

End Path.

(** ** [src/merge.ts]: sort keys *)

Record MergeRequest : Type := mkRequest
  { patterns : list string;
    output : option string;
    noDelete : bool }.

Record MergeOutcome : Type := mkOutcome
  { files : list string;
    outputPath : string }.

Inductive MergeError : Type :=
| InvalidGlobPatternError (pattern : string)
| NoMatchesError (pattern : string)
| UnrecognizedFilenameError (filepath : string)
| MixedDatesError
| UndeterminedDateError
| FileTooLargeError (filepath : string) (size max : Z)
| IOError (message : string).

#[global] Instance Result_ret {E} : MRet (Result E) := fun _ a => Ok a.
#[global] Instance Result_bind {E} : MBind (Result E) := fun _ _ f m =>
  match m with
  | Ok a => f a
  | Err e => Err e
  end.

Definition MAX_FILE_SIZE : Z := 10 * 1024 * 1024.

Record FileSortKey : Type := mkKey
  { date : option DateOnly;
    startHours : Z;
    startMinutes : Z;
    startSeconds : Z }.

Definition compareSortKeys (a b : FileSortKey) : Z :=
  let byStart :=
    if negb (startHours a =? startHours b) then startHours a - startHours b
    else if negb (startMinutes a =? startMinutes b)
    then startMinutes a - startMinutes b
    else startSeconds a - startSeconds b in
  match date a, date b with
  | Some da, Some db =>
      if negb (year da =? year db) then year da - year db
      else if negb (month da =? month db) then month da - month db
      else if negb (day da =? day db) then day da - day db
      else byStart
  | Some _, None => 1
  | None, Some _ => -1
  | None, None => byStart
  end.

Definition looksLikeFlatFormat (filename : string) : bool :=
  match Js.split "_" filename with
  | [p0; p1; p2] =>
      if negb (String.length p0 =? 8)%nat || negb (Js.digitsExactly 8 p0) then false
      else if negb (String.length p1 =? 6)%nat || negb (Js.digitsExactly 6 p1) then false
      else if negb (String.length p2 =? 6)%nat || negb (Js.digitsExactly 6 p2) then false
      else true
  | _ => false
  end.

Definition looksLikeNestedFormat (filename : string) : bool :=
  match Js.split "-" filename with
  | [p0; p1] =>
      if negb (String.length p0 =? 6)%nat || negb (Js.digitsExactly 6 p0) then false
      else if negb (String.length p1 =? 6)%nat || negb (Js.digitsExactly 6 p1) then false
      else true
  | _ => false
  end.

Definition parseTimeDigits (value : string) : option Time :=
  if negb (String.length value =? 6)%nat || negb (Js.digitsExactly 6 value) then None
  else
    let hours := Js.parseInt (Js.sliceTo 2 value) in
    let minutes := Js.parseInt (Js.sliceTo 2 (Js.sliceFrom 2 value)) in
    let seconds := Js.parseInt (Js.sliceTo 2 (Js.sliceFrom 4 value)) in
    if (hours >? 23) || (minutes >? 59) || (seconds >? 59) then None
    else Some (mkTime hours minutes seconds).

(** [/^(\d{4})-(\d{2})-(\d{2})$/.exec(s)] *)
Definition DATE_DASHED_exec (s : string) : option (string * string * string) :=
  match Js.split "-" s with
  | [y; m; d] =>
      if Js.digitsExactly 4 y && Js.digitsExactly 2 m && Js.digitsExactly 2 d
      then Some (y, m, d) else None
  | _ => None
  end.

(** [DATE_COMPACT_REGEX = /^(\d{4})(\d{2})(\d{2})$/] *)
Definition DATE_COMPACT_REGEX_exec (s : string) : option (string * string * string) :=
  if Js.digitsExactly 8 s
  then Some (Js.sliceTo 4 s, Js.sliceTo 2 (Js.sliceFrom 4 s), Js.sliceFrom 6 s)
  else None.

Definition extractDateFromPath (filepath : string) : option DateOnly :=
  let dir := Path.dirname filepath in
  let dayDir := Path.basename dir in
  match DATE_DASHED_exec dayDir with
  | Some (y, m, d) => Some (mkDate (Js.parseInt y) (Js.parseInt m) (Js.parseInt d))
  | None =>
      let parts := Js.split Path.sep dir in
      match rev parts with
      | dayPart :: monthPart :: yearPart :: _ =>
          if Js.digitsExactly 4 yearPart && Js.digitsExactly 2 monthPart &&
             Js.digitsExactly 2 dayPart
          then
            let year := Js.parseInt yearPart in
            let month := Js.parseInt monthPart in
            let day := Js.parseInt dayPart in
            if (month >=? 1) && (month <=? 12) && (day >=? 1) && (day <=? 31)
            then Some (mkDate year month day) else None
          else None
      | _ => None
      end
  end.

Definition parseNested (filepath filename : string) : Result MergeError FileSortKey :=
  let parts := Js.split "-" filename in
  match parseTimeDigits (hd EmptyString parts) with
  | None => Err (UnrecognizedFilenameError filepath)
  | Some startTime =>
      let date := extractDateFromPath filepath in
      Ok (mkKey date (hours startTime) (minutes startTime) (seconds startTime))
  end.

Definition parseFlat (filepath filename : string) : Result MergeError FileSortKey :=
  let parts := Js.split "_" filename in
  let datePart := nth 0 parts EmptyString in
  let startPart := nth 1 parts EmptyString in
  match DATE_COMPACT_REGEX_exec datePart with
  | None => Err (UnrecognizedFilenameError filepath)
  | Some (y, m, d) =>
      let date := mkDate (Js.parseInt y) (Js.parseInt m) (Js.parseInt d) in
      match parseTimeDigits startPart with
      | None => Err (UnrecognizedFilenameError filepath)
      | Some startTime =>
          Ok (mkKey (Some date) (hours startTime) (minutes startTime)
                (seconds startTime))
      end
  end.

(** [basename.replace(/\.[^.]+$/, '')]: cut at the first dot that is
    followed, up to the end, by one or more characters none of which is
    a dot. *)
Fixpoint hasDot (s : string) : bool :=
  match s with
  | EmptyString => false
  | String c s' => Ascii.eqb c "." || hasDot s'
  end.

Fixpoint removeExtension (s : string) : string :=
  match s with
  | EmptyString => EmptyString
  | String c s' =>
      if Ascii.eqb c "." && negb (String.eqb s' "") && negb (hasDot s')
      then EmptyString
      else String c (removeExtension s')
  end.

Definition getSortKey (filepath : string) : Result MergeError FileSortKey :=
  let basename := Path.basename filepath in
  let filename := removeExtension basename in
  if looksLikeFlatFormat filename then parseFlat filepath filename
  else if looksLikeNestedFormat filename then parseNested filepath filename
  else Err (UnrecognizedFilenameError filepath).

(** ** [src/merge.ts]: ordering, deduplication and output path *)

Record Descriptor : Type := mkDescriptor
  { path : string;
    key : FileSortKey }.

(** [Array.prototype.sort(cmp)]: a stable sort; an element moves behind
    exactly those earlier-placed elements it compares greater than. *)
Fixpoint insertSorted {A} (cmp : A -> A -> Z) (x : A) (l : list A) : list A :=
  match l with
  | [] => [x]
  | y :: t => if cmp x y >? 0 then y :: insertSorted cmp x t else x :: y :: t
  end.

Fixpoint sortStable {A} (cmp : A -> A -> Z) (l : list A) : list A :=
  match l with
  | [] => []
  | x :: t => insertSorted cmp x (sortStable cmp t)
  end.

(** One iteration of the deduplication loop over the sorted descriptors. *)
Definition dedupeStep (ordered : list string) (d : Descriptor) : list string :=
  match last ordered with
  | None => ordered ++ [path d]
  | Some prev =>
      if negb (String.eqb prev (path d)) then ordered ++ [path d] else ordered
  end.

Definition deduplicate (descriptors : list Descriptor) : list string :=
  fold_left dedupeStep descriptors [].

Definition extractNestedDayDirectory (filepath : string)
    : option (string * DateOnly) :=
  match extractDateFromPath filepath with
  | None => None
  | Some date => Some (Path.dirname filepath, date)
  end.

(** The loop of [detectCommonNestedDirectory], from a given candidate. *)
Fixpoint detectCommonFrom (candidate : option (string * DateOnly))
    (paths : list string) : option (string * DateOnly) :=
  match paths with
  | [] => candidate
  | filepath :: rest =>
      match extractNestedDayDirectory filepath with
      | None => None
      | Some info =>
          match candidate with
          | None => detectCommonFrom (Some info) rest
          | Some c =>
              if negb (String.eqb (fst c) (fst info)) ||
                 negb (year (snd c) =? year (snd info)) ||
                 negb (month (snd c) =? month (snd info)) ||
                 negb (day (snd c) =? day (snd info))
              then None
              else detectCommonFrom candidate rest
          end
      end
  end.

Definition detectCommonNestedDirectory (paths : list string)
    : option (string * DateOnly) :=
  detectCommonFrom None paths.

(** The [selectedDate] loop of [determineOutputPath]. *)
Fixpoint selectDateFrom (selectedDate : option DateOnly)
    (descriptors : list Descriptor) : Result MergeError (option DateOnly) :=
  match descriptors with
  | [] => Ok selectedDate
  | d :: rest =>
      match date (key d) with
      | Some kd =>
          match selectedDate with
          | None => selectDateFrom (Some kd) rest
          | Some sd =>
              if negb (year sd =? year kd) || negb (month sd =? month kd) ||
                 negb (day sd =? day kd)
              then Err MixedDatesError
              else selectDateFrom selectedDate rest
          end
      | None => selectDateFrom selectedDate rest
      end
  end.

Definition determineOutputPath (ordered : list string)
    (descriptors : list Descriptor) (request : MergeRequest)
    : Result MergeError string :=
  if Js.truthy (output request) then Ok (default EmptyString (output request))
  else
    match detectCommonNestedDirectory ordered with
    | Some common =>
        Ok (Path.join (fst common) (formatDateDashed (snd common) +:+ ".txt"))
    | None =>
        selectedDate ← selectDateFrom None descriptors;
        match selectedDate with
        | Some sd =>
            let baseDir :=
              match ordered with
              | first :: _ => Path.dirname first
              | [] => "."
              end in
            Ok (Path.join baseDir (formatDateDashed sd +:+ ".txt"))
        | None => Err UndeterminedDateError
        end
    end.

(** ** The file system and the effects of the merge

    The store holds regular files and symbolic links, each at its
    _location_: the absolute form of a path in which the directories are
    resolved and the last component is taken as it is.  A path denotes
    the regular file reached from its location through at most
    [linkLimit] links; the location of that file is the path's canonical
    form ([fs.realpathSync]).  Directories are not represented; whatever
    else makes the operating system refuse an operation (permissions, a
    destination that is a directory, a full disk) is left to the
    collaborator [denied].  The trace records every read, replacement
    and removal in order.  The temporary file of [atomicWrite] is
    elided: a successful write is one replacement of whatever is at the
    destination's location, and a failed one, whose handler removes the
    temporary file again, leaves the store as it was. *)

Inductive Node : Type :=
| File (content : string)
| Link (target : string).

Inductive Operation : Type :=
| Stat (p : string)
| ReadFile (p : string)
| MakeDir (p : string)
| Replace (p content : string)
| Remove (p : string).

Inductive Event : Type :=
| Read (canonical : string)
| Write (location content : string)
| Unlink (location : string).

Record World : Type := mkWorld
  { store : gmap string Node;
    trace : list Event }.

(** The number of links the operating system follows before it gives up
    ([ELOOP]). *)
Definition linkLimit : nat := 40.

(** The regular file reached from a location, with its own location. *)
Fixpoint follow (fuel : nat) (m : gmap string Node) (location : string)
    : option (string * string) :=
  match m !! location with
  | Some (File content) => Some (location, content)
  | Some (Link target) =>
      match fuel with
      | S fuel => follow fuel m target
      | O => None
      end
  | None => None
  end.

(** Effects that throw a plain [Error] with a message. *)
Definition Sys (A : Type) : Type := World -> Result string A * World.

#[global] Instance Sys_ret : MRet Sys := fun _ a w => (Ok a, w).
#[global] Instance Sys_bind : MBind Sys := fun _ _ f m w =>
  match m w with
  | (Ok a, w') => f a w'
  | (Err e, w') => (Err e, w')
  end.

(** Effects that throw a [MergeError]. *)
Definition Fs (A : Type) : Type := World -> Result MergeError A * World.

#[global] Instance Fs_ret : MRet Fs := fun _ a w => (Ok a, w).
#[global] Instance Fs_bind : MBind Fs := fun _ _ f m w =>
  match m w with
  | (Ok a, w') => f a w'
  | (Err e, w') => (Err e, w')
  end.

Definition throw {A} (e : MergeError) : Fs A := fun w => (Err e, w).

Definition liftResult {A} (r : Result MergeError A) : Fs A :=
  fun w => (r, w).

(** [try { ... } catch (error) { throw new IOError(error.message) }] *)
Definition io {A} (body : Sys A) : Fs A :=
  fun w =>
    match body w with
    | (Ok a, w') => (Ok a, w')
    | (Err message, w') => (Err (IOError message), w')
    end.

Section Merge.

(** Collaborators: the location of a path, the absolute form of a path
    ([path.resolve]), pattern expansion ([glob], [None] when the pattern
    is rejected) and the refusals of the operating system ([Some] with
    the message of the error thrown). *)
Variable locate : string -> string.
Variable resolve : string -> string.
Variable glob : gmap string Node -> string -> option (list string).
Variable denied : gmap string Node -> Operation -> option string.

(** The regular file a path denotes: its canonical location and its
    content. *)
Definition lookupFile (m : gmap string Node) (p : string)
    : option (string * string) :=
  follow linkLimit m (locate p).

(** [fs.existsSync(p)] *)
Definition existsIn (m : gmap string Node) (p : string) : bool :=
  bool_decide (is_Some (lookupFile m p)).

(** [fs.existsSync(p) ? fs.realpathSync(p) : path.resolve(p)] *)
Definition canonicalIn (m : gmap string Node) (p : string) : string :=
  match lookupFile m p with
  | Some (location, _) => location
  | None => resolve p
  end.

Definition canonical (p : string) : Sys string :=
  fun w => (Ok (canonicalIn (store w) p), w).

Definition enoent (p : string) : string := "ENOENT " +:+ p.

(** An operation the operating system may refuse. *)
Definition attempt {A} (operation : Operation) (body : Sys A) : Sys A :=
  fun w =>
    match denied (store w) operation with
    | Some message => (Err message, w)
    | None => body w
    end.

(** [fs.statSync(p).size] *)
Definition statSize (p : string) : Sys Z :=
  attempt (Stat p) (fun w =>
    match lookupFile (store w) p with
    | Some (_, content) => (Ok (Z.of_nat (String.length content)), w)
    | None => (Err (enoent p), w)
    end).

Definition readFileSync (p : string) : Sys string :=
  attempt (ReadFile p) (fun w =>
    match lookupFile (store w) p with
    | Some (location, content) =>
        (Ok content, mkWorld (store w) (trace w ++ [Read location]))
    | None => (Err (enoent p), w)
    end).

(** [fs.mkdirSync(p, { recursive: true })] *)
Definition mkdirSync (p : string) : Sys unit :=
  attempt (MakeDir p) (mret tt).

(** [atomicWrite] of [src/update.ts]: [fs.renameSync] puts the new file
    in the place of whatever is at the destination, a symbolic link
    included. *)
Definition atomicWrite (filePath content : string) : Sys unit :=
  attempt (Replace filePath content) (fun w =>
    (Ok tt, mkWorld (<[locate filePath := File content]> (store w))
                    (trace w ++ [Write (locate filePath) content]))).

(** [fs.unlinkSync(p)] removes what is at the location of [p], a
    symbolic link and not its target. *)
Definition unlinkSync (p : string) : Sys unit :=
  attempt (Remove p) (fun w =>
    match store w !! locate p with
    | Some _ =>
        (Ok tt, mkWorld (delete (locate p) (store w))
                        (trace w ++ [Unlink (locate p)]))
    | None => (Err (enoent p), w)
    end).

(** Pattern expansion loop. *)
Fixpoint expandPatterns (patterns : list string) (collected : list string)
    : Fs (list string) :=
  match patterns with
  | [] => mret collected
  | pattern :: rest =>
      fun w =>
        match glob (store w) pattern with
        | None => (Err (InvalidGlobPatternError pattern), w)
        | Some [] => (Err (NoMatchesError pattern), w)
        | Some matches => expandPatterns rest (collected ++ matches) w
        end
  end.

(** Size guard loop. *)
Fixpoint checkSizes (collected : list string) : Fs unit :=
  match collected with
  | [] => mret tt
  | filepath :: rest =>
      size ← io (statSize filepath);
      if size >? MAX_FILE_SIZE
      then throw (FileTooLargeError filepath size MAX_FILE_SIZE)
      else checkSizes rest
  end.

(** The read loop of [writeMergedFile]. *)
Fixpoint readSegments (files : list string) (merged : string) : Sys string :=
  match files with
  | [] => mret merged
  | file :: rest =>
      content ← readFileSync file;
      let merged := merged +:+ content in
      let merged :=
        match rest with
        | _ :: _ => if negb (Js.endsWith merged Js.NL) then merged +:+ Js.NL else merged
        | [] => merged
        end in
      readSegments rest merged
  end.

Definition writeMergedFile (files : list string) (outputPath : string) : Sys unit :=
  merged ← readSegments files EmptyString;
  let parentDir := Path.dirname outputPath in
  _ ← (if negb (String.eqb parentDir "") && negb (String.eqb parentDir ".")
       then mkdirSync parentDir else mret tt);
  atomicWrite outputPath merged.

(** The loop of [deleteSources]. *)
Fixpoint deleteLoop (files : list string) (outputCanonical : string) : Sys unit :=
  match files with
  | [] => mret tt
  | filepath :: rest =>
      fileCanonical ← canonical filepath;
      if String.eqb fileCanonical outputCanonical
      then deleteLoop rest outputCanonical
      else (_ ← unlinkSync filepath; deleteLoop rest outputCanonical)
  end.

Definition deleteSources (files : list string) (outputPath : string) : Sys unit :=
  outputCanonical ← canonical outputPath;
  deleteLoop files outputCanonical.

Definition describe (filepath : string) : Result MergeError Descriptor :=
  k ← getSortKey filepath; mret (mkDescriptor filepath k).

(** [ordered.filter(...)]: the sources whose canonical path differs from
    the output's. *)
Definition sourcesOf (m : gmap string Node) (ordered : list string)
    (outputCanonical : string) : list string :=
  List.filter
    (fun filepath => negb (String.eqb (canonicalIn m filepath) outputCanonical))
    ordered.

Definition executeMerge (request : MergeRequest) : Fs MergeOutcome :=
  collected ← expandPatterns (patterns request) [];
  _ ← checkSizes collected;
  descriptors ← liftResult (mapM describe collected);
  let descriptors := sortStable (fun a b => compareSortKeys (key a) (key b)) descriptors in
  let ordered := deduplicate descriptors in
  outputPath ← liftResult (determineOutputPath ordered descriptors request);
  outputCanonical ← (fun w => (Ok (canonicalIn (store w) outputPath), w));
  sourcesToMerge ← (fun w => (Ok (sourcesOf (store w) ordered outputCanonical), w));
  _ ← io (writeMergedFile sourcesToMerge outputPath);
  _ ← (if negb (noDelete request) then io (deleteSources sourcesToMerge outputPath)
       else mret tt);
  mret (mkOutcome sourcesToMerge outputPath).

End Merge.

(** A file system without symbolic links among its directories, rooted
    at working directory [cwd], in which the operating system refuses
    nothing: the location of a path is its resolved absolute form, and a
    pattern without wildcard characters expands to itself when something
    is at its location. *)
Definition plainGlob (cwd : string) (m : gmap string Node) (pattern : string)
    : option (list string) :=
  Some (if bool_decide (is_Some (m !! Path.resolve cwd pattern))
        then [pattern] else []).

Definition permissive (m : gmap string Node) (operation : Operation)
    : option string := None.

Definition runMerge (cwd : string) (request : MergeRequest) (m : gmap string Node)
    : Result MergeError MergeOutcome * World :=
  executeMerge (Path.resolve cwd) (Path.resolve cwd) (plainGlob cwd) permissive
    request (mkWorld m []).

(** ** Sample file systems and requests, rooted at [/w] *)

Module Sample.

Definition early : string := "2025/01/27/061901-111901.txt".
Definition late : string := "2025/01/27/112256-162256.txt".

Definition dayFiles : gmap string Node :=
  {[ "/w/2025/01/27/112256-162256.txt" := File ("late segment" +:+ Js.NL);
     "/w/2025/01/27/061901-111901.txt" := File ("early segment" +:+ Js.NL) ]}.

(** Merge both segments into the path of the later one. *)
Definition intoLate : MergeRequest := mkRequest [early; late] (Some late) false.

(** The same two segments, and [latest.txt], a symbolic link to the
    later one. *)
Definition latest : string := "latest.txt".

Definition dayFilesLinked : gmap string Node :=
  {[ "/w/2025/01/27/112256-162256.txt" := File ("late segment" +:+ Js.NL);
     "/w/2025/01/27/061901-111901.txt" := File ("early segment" +:+ Js.NL);
     "/w/latest.txt" := Link "/w/2025/01/27/112256-162256.txt" ]}.

(** Merge both segments into the link. *)
Definition intoLatest : MergeRequest := mkRequest [early; late] (Some latest) false.

Definition notes : string := "2025/01/27/notes.txt".

Definition withNotes : gmap string Node :=
  {[ "/w/2025/01/27/112256-162256.txt" := File ("valid" +:+ Js.NL);
     "/w/2025/01/27/notes.txt" := File ("invalid" +:+ Js.NL) ]}.

Definition lateAndNotes : MergeRequest := mkRequest [late; notes] None false.

(** A nested name whose end time reads 99:66:99. *)
Definition badEnd : string := "2025/01/27/112256-996699.txt".

Definition withBadEnd : gmap string Node :=
  {[ "/w/2025/01/27/112256-996699.txt" := File ("segment" +:+ Js.NL) ]}.

Definition onlyBadEnd : MergeRequest := mkRequest [badEnd] None false.

(** Two flat files of the same date and start time, the first listed twice. *)
Definition twinA : string := "d/20250127_112256_162256.txt".
Definition twinB : string := "d/20250127_112256_170000.txt".

Definition twins : gmap string Node :=
  {[ "/w/d/20250127_112256_162256.txt" := File ("a" +:+ Js.NL);
     "/w/d/20250127_112256_170000.txt" := File ("b" +:+ Js.NL) ]}.

Definition twinsKeep : MergeRequest :=
  mkRequest [twinA; twinB; twinA] (Some "out.txt") true.

Definition twinsDelete : MergeRequest :=
  mkRequest [twinA; twinB; twinA] (Some "out.txt") false.

(** An operating system for which [day] is a directory: it refuses to
    put a file in its place. *)
Definition dayIsDirectory (m : gmap string Node) (operation : Operation)
    : option string :=
  match operation with
  | Replace p _ => if String.eqb p "day" then Some "EISDIR day" else None
  | _ => None
  end.

Definition intoDay : MergeRequest := mkRequest [early; late] (Some "day") false.

End Sample.

(** ** [src/transcript.ts] and [node:path]: what the update command adds *)

Definition formatDateCompact (date : DateOnly) : string :=
  Js.toString (year date) +:+
  Js.padStart 2 "0" (Js.toString (month date)) +:+
  Js.padStart 2 "0" (Js.toString (day date)).

(** [path.join(...paths)] for any number of arguments: the non-empty
    ones, joined by separators and normalised. *)
Definition pathJoin (paths : list string) : string :=
  match List.filter (fun p => negb (String.eqb p "")) paths with
  | [] => "."
  | parts => Path.normalize (Js.join "/" parts)
  end.

(** ** [src/update.ts] *)

Module Update.

Record Request : Type := mkRequest
  { inputFile : string;
    outputDir : string;
    flattenOutput : bool;
    startTime : Time;
    date : DateOnly }.

Record Outcome : Type := mkOutcome
  { outputPath : string;
    hasOutOfOrderTimestamps : bool }.

(** What [executeUpdate] throws: its own two errors, and the
    [TranscriptError] of [adjustTranscript], which it does not catch. *)
Inductive Error : Type :=
| FileTooLargeError (size max : Z)
| FileIOError (message : string)
| Transcript (e : TranscriptError).

Definition formatTimeCompact (dt : DateTime.t) : string :=
  Js.padStart 2 "0" (Js.toString (DateTime.hours dt)) +:+
  Js.padStart 2 "0" (Js.toString (DateTime.minutes dt)) +:+
  Js.padStart 2 "0" (Js.toString (DateTime.seconds dt)).

(** [cwd] is [process.cwd()]. *)
Definition resolveOutputPath (cwd : string) (request : Request)
    (first last : DateTime.t) : string :=
  let effectiveDate :=
    mkDate (DateTime.year last) (DateTime.month last) (DateTime.day last) in
  if flattenOutput request then
    let filename :=
      formatDateCompact effectiveDate +:+ "_" +:+ formatTimeCompact first +:+ "_" +:+
      formatTimeCompact last +:+ ".txt" in
    pathJoin [cwd; filename]
  else
    let filename :=
      formatTimeCompact first +:+ "-" +:+ formatTimeCompact last +:+ ".txt" in
    let year := Js.toString (year effectiveDate) in
    let month := Js.padStart 2 "0" (Js.toString (month effectiveDate)) in
    let day := Js.padStart 2 "0" (Js.toString (day effectiveDate)) in
    pathJoin [if String.eqb (outputDir request) "" then "." else outputDir request;
              year; month; day; filename].

Section Execute.

Variable locate : string -> string.
Variable denied : gmap string Node -> Operation -> option string.
Variable cwd : string.

(** [try { ... } catch (error) { throw new FileIOError(error.message) }] *)
Definition io {A} (body : Sys A) (w : World) : Result Error A * World :=
  match body w with
  | (Ok a, w') => (Ok a, w')
  | (Err message, w') => (Err (FileIOError message), w')
  end.

(** The file system is the one of the merge. *)
Definition executeUpdate (request : Request) (w : World)
    : Result Error Outcome * World :=
  match io (statSize locate denied (inputFile request)) w with
  | (Err e, w) => (Err e, w)
  | (Ok size, w) =>
      if size >? MAX_FILE_SIZE then (Err (FileTooLargeError size MAX_FILE_SIZE), w)
      else
        match io (readFileSync locate denied (inputFile request)) w with
        | (Err e, w) => (Err e, w)
        | (Ok contents, w) =>
            match adjustTranscript contents (startTime request) (date request) with
            | Err e => (Err (Transcript e), w)
            | Ok (mkUpdate body firstTimestamp lastTimestamp hasOutOfOrder) =>
                let outputPath :=
                  resolveOutputPath cwd request firstTimestamp lastTimestamp in
                let parentDir := Path.dirname outputPath in
                match io (mkdirSync denied parentDir) w with
                | (Err e, w) => (Err e, w)
                | (Ok _, w) =>
                    match io (atomicWrite locate denied outputPath body) w with
                    | (Err e, w) => (Err e, w)
                    | (Ok _, w) => (Ok (mkOutcome outputPath hasOutOfOrder), w)
                    end
                end
            end
        end
  end.

End Execute.

End Update.

(** ** [src/cli.ts]: the argument parsers *)

Inductive InvalidArgumentError : Type :=
| InvalidTime (value : string)
| InvalidDate (value : string)
| InvalidMonth (value : string)
| InvalidDay (value : string).

(** [DATE_REGEX = /^(\d{4})-(\d{2})-(\d{2})$/] *)
Definition DATE_REGEX_exec (s : string) : option (string * string * string) :=
  DATE_DASHED_exec s.

Definition parseTimeArg (value : string) : Result InvalidArgumentError Time :=
  match parseTime value with
  | None => Err (InvalidTime value)
  | Some time => Ok time
  end.

Definition parseDateArg (value : string) : Result InvalidArgumentError DateOnly :=
  match DATE_REGEX_exec value with
  | None => Err (InvalidDate value)
  | Some (y, m, d) =>
      let year := Js.parseInt y in
      let month := Js.parseInt m in
      let day := Js.parseInt d in
      if (month <? 1) || (month >? 12) then Err (InvalidMonth value)
      else if (day <? 1) || (day >? 31) then Err (InvalidDay value)
      else Ok (mkDate year month day)
  end.

(** ** A sample update, rooted at [/w] *)

Module UpdateSample.

Definition files : gmap string Node :=
  {[ "/w/in.txt" := File ("00:00:01 Start" +:+ Js.NL +:+ "01:00:00 Later" +:+ Js.NL) ]}.

(** Half past eleven in the evening: the second timestamp falls on the
    next day. *)
Definition request : Update.Request :=
  Update.mkRequest "in.txt" "out" false (mkTime 23 30 0) (mkDate 2024 12 25).


Definition run (request : Update.Request) : Result Update.Error Update.Outcome * World :=
  Update.executeUpdate (Path.resolve "/w") permissive "/w" request (mkWorld files []).

End UpdateSample.

(** * Specification-level notions

    The vocabulary of the specification, defined independently of the
    functions above so that the code can be compared against it. *)

Definition validTime (t : Time) : Prop :=
  0 <= hours t <= 23 /\ 0 <= minutes t <= 59 /\ 0 <= seconds t <= 59.

(** The string [s] has the exact shape [hh:mm:ss], eight characters with
    decimal digits around two colons, and its fields read [hh], [mm] and
    [ss]. *)
Definition timeShape (s : string) (hh mm ss : Z) : Prop :=
  exists a b c d e f : ascii,
    s = String a (String b (String ":" (String c (String d (String ":"
          (String e (String f EmptyString))))))) /\
    Js.isDigit a = true /\ Js.isDigit b = true /\ Js.isDigit c = true /\
    Js.isDigit d = true /\ Js.isDigit e = true /\ Js.isDigit f = true /\
    hh = 10 * Js.digitValue a + Js.digitValue b /\
    mm = 10 * Js.digitValue c + Js.digitValue d /\
    ss = 10 * Js.digitValue e + Js.digitValue f.

(** The line as the adjuster rewrites it, and the adjusted datetime it
    carries, if any. *)
Definition adjustedText (baseTime : Time) (effectiveDate : DateOnly)
    (line : string) : string :=
  match parseTimestampLine line with
  | Some (time, rest) =>
      formatTime (timeOf (applyOffset baseTime effectiveDate time)) +:+ rest
  | None => line
  end.

Definition adjustedStamp (baseTime : Time) (effectiveDate : DateOnly)
    (line : string) : option DateTime.t :=
  match parseTimestampLine line with
  | Some (time, _) => Some (applyOffset baseTime effectiveDate time)
  | None => None
  end.

(** The adjusted datetimes of a text, in file order. *)
Definition adjustedTimestamps (baseTime : Time) (effectiveDate : DateOnly)
    (lines : list string) : list DateTime.t :=
  omap (adjustedStamp baseTime effectiveDate) lines.

(** A line carries a recognizable leading timestamp: at least eight
    characters, the first eight of shape [hh:mm:ss] with fields in
    range. *)
Definition carriesTimestamp (line : string) : Prop :=
  (8 <= String.length line)%nat /\
  exists hh mm ss,
    timeShape (Js.sliceTo 8 line) hh mm ss /\ hh <= 23 /\ mm <= 59 /\ ss <= 59.

(** The total order on datetimes: lexicographic on
    (year, month, day, hours, minutes, seconds). *)
Definition lexLt3 (a1 a2 a3 b1 b2 b3 : Z) : Prop :=
  a1 < b1 \/ (a1 = b1 /\ (a2 < b2 \/ (a2 = b2 /\ a3 < b3))).

Definition dateTimeLt (a b : DateTime.t) : Prop :=
  lexLt3 (DateTime.year a) (DateTime.month a) (DateTime.day a)
         (DateTime.year b) (DateTime.month b) (DateTime.day b) \/
  (DateTime.year a = DateTime.year b /\ DateTime.month a = DateTime.month b /\
   DateTime.day a = DateTime.day b /\
   lexLt3 (DateTime.hours a) (DateTime.minutes a) (DateTime.seconds a)
          (DateTime.hours b) (DateTime.minutes b) (DateTime.seconds b)).

(** Some datetime of the list is followed immediately by a smaller one. *)
Fixpoint hasDescent (l : list DateTime.t) : bool :=
  match l with
  | a :: t =>
      match t with
      | b :: _ => (compareDateTime b a <? 0) || hasDescent t
      | [] => false
      end
  | [] => false
  end.

Fixpoint charFree (c : ascii) (s : string) : bool :=
  match s with
  | EmptyString => true
  | String x s' => negb (Ascii.eqb x c) && charFree c s'
  end.

(** Rank of a sort key by presence of its date, as the comparator
    orders it: keys without a date first. *)
Definition dateRank (k : FileSortKey) : nat :=
  match date k with
  | None => 0
  | Some _ => 1
  end.




(** The text [writeMergedFile] builds from the contents of its sources,
    in order, starting from [merged]. *)
Fixpoint mergedContent (contents : list string) (merged : string) : string :=
  match contents with
  | [] => merged
  | content :: rest =>
      let merged := merged +:+ content in
      let merged :=
        match rest with
        | _ :: _ => if negb (Js.endsWith merged Js.NL) then merged +:+ Js.NL else merged
        | [] => merged
        end in
      mergedContent rest merged
  end.

(** The two recognised numeric shapes of a bare file name, with the run
    of six digits that is its start time. *)
Definition flatShape (name startPart : string) : Prop :=
  exists datePart endPart,
    name = datePart +:+ "_" +:+ startPart +:+ "_" +:+ endPart /\
    Js.digitsExactly 8 datePart = true /\
    Js.digitsExactly 6 startPart = true /\
    Js.digitsExactly 6 endPart = true.

Definition nestedShape (name startPart : string) : Prop :=
  exists endPart,
    name = startPart +:+ "-" +:+ endPart /\
    Js.digitsExactly 6 startPart = true /\
    Js.digitsExactly 6 endPart = true.

Definition startInRange (startPart : string) : Prop :=
  Js.parseInt (Js.sliceTo 2 startPart) <= 23 /\
  Js.parseInt (Js.sliceTo 2 (Js.sliceFrom 2 startPart)) <= 59 /\
  Js.parseInt (Js.sliceTo 2 (Js.sliceFrom 4 startPart)) <= 59.

(** The bare name of [filepath] has one of the two shapes and its start
    time is in range. *)
Definition recognizedName (filepath : string) : Prop :=
  let name := removeExtension (Path.basename filepath) in
  exists startPart,
    (flatShape name startPart \/ nestedShape name startPart) /\
    startInRange startPart.

(** The content of the file a path denotes, empty when there is none. *)
Definition contentOf (locate : string -> string) (m : gmap string Node)
    (p : string) : string :=
  match lookupFile locate m p with
  | Some (_, content) => content
  | None => ""
  end.

(** Two lines are alike for the count of trailing line feeds: neither
    holds a line feed and they are empty together. *)
Definition alike (a b : string) : Prop :=
  charFree Js.LF a = true /\ charFree Js.LF b = true /\ (a = "" <-> b = "").

(** The zero-padded rendering [YYYY-MM-DD] of a date. *)
Definition fourDigits (n : Z) : string :=
  String (Js.digitChar (n / 1000)) (String (Js.digitChar (n / 100 mod 10))
    (String (Js.digitChar (n / 10 mod 10)) (String (Js.digitChar (n mod 10)) ""))).

Definition twoDigits (n : Z) : string :=
  String (Js.digitChar (n / 10)) (String (Js.digitChar (n mod 10)) "").

Definition dashedDate (d : DateOnly) : string :=
  fourDigits (year d) +:+ "-" +:+ twoDigits (month d) +:+ "-" +:+ twoDigits (day d).



(** A date that four, two and two decimal digits can spell. *)
Definition spelled (d : DateOnly) : Prop :=
  0 <= year d <= 9999 /\ 0 <= month d <= 99 /\ 0 <= day d <= 99.

(** The nested path rule: a directory is the directory of day [d] when
    its name is [YYYY-MM-DD], or when its path ends in the three
    components [YYYY], [MM] and [DD] with the month in 1..12 and the day
    in 1..31. *)
Definition dayDirectory (dir : string) (d : DateOnly) : Prop :=
  (spelled d /\ Path.basename dir = dashedDate d) \/
  (0 <= year d <= 9999 /\ 1 <= month d <= 12 /\ 1 <= day d <= 31 /\
   exists above,
     Js.split Path.sep dir =
     above ++ [fourDigits (year d); twoDigits (month d); twoDigits (day d)]).


(** The Gregorian calendar, for comparison with [addDays]. *)
Definition isLeapYear (y : Z) : bool :=
  (y mod 4 =? 0) && (negb (y mod 100 =? 0) || (y mod 400 =? 0)).

Definition daysInMonth (y m : Z) : Z :=
  if m =? 2 then (if isLeapYear y then 29 else 28)
  else if (m =? 4) || (m =? 6) || (m =? 9) || (m =? 11) then 30
  else 31.

Definition validDate (d : DateOnly) : Prop :=
  1 <= month d <= 12 /\ 1 <= day d <= daysInMonth (year d) (month d).

(** The calendar day after [y]-[m]-[d]. *)
Definition nextDay (y m d : Z) : DateOnly :=
  if d <? daysInMonth y m then mkDate y m (d + 1)
  else if m <? 12 then mkDate y (m + 1) 1
  else mkDate (y + 1) 1 1.

(** The year a two-digit year denotes to the [Date] constructor. *)
Definition centuryYear (y : Z) : Z :=
  if (0 <=? y) && (y <=? 99) then 1900 + y else y.

(** The relative times the lines of a text carry, in file order. *)
Definition relativeTimes (lines : list string) : list Time :=
  omap (fun line => fst <$> parseTimestampLine line) lines.

(** An error raised by the file system itself. *)
Definition isIOError (e : MergeError) : Prop :=
  exists message, e = IOError message.

(** No path is immediately followed by itself. *)
Fixpoint noRepeat (l : list string) : Prop :=
  match l with
  | a :: t =>
      match t with
      | b :: _ => a <> b /\ noRepeat t
      | [] => True
      end
  | [] => True
  end.

(** Two recognised paths of which the first does not sort after the
    second. *)
Definition keyOrdered (p q : string) : Prop :=
  exists kp kq,
    getSortKey p = Ok kp /\ getSortKey q = Ok kq /\ compareSortKeys kp kq <= 0.

(** The text a segment contributes to the merged file when another
    segment follows it: the segment, closed by a line feed unless it
    ends with one already; an empty segment that is not the first one
    contributes nothing. *)
Definition segmentText (first : bool) (content : string) : string :=
  if Js.endsWith content Js.NL || (negb first && String.eqb content "")
  then content else content +:+ Js.NL.

Fixpoint segmentsText (first : bool) (contents : list string) : string :=
  match contents with
  | [] => ""
  | content :: rest =>
      match rest with
      | [] => content
      | _ :: _ => segmentText first content +:+ segmentsText false rest
      end
  end.

(** Some relative time of the list is followed immediately by a smaller
    one. *)
Fixpoint timeDescent (l : list Time) : bool :=
  match l with
  | a :: t =>
      match t with
      | b :: _ => (timeToSeconds b <? timeToSeconds a) || timeDescent t
      | [] => false
      end
  | [] => false
  end.

(** A path segment that normalisation keeps as it is. *)
Definition plainSegment (s : string) : Prop :=
  s <> "" /\ s <> "." /\ s <> ".." /\ charFree Path.sep s = true.

(** The time of day that is [b] after [a], on a 24-hour clock. *)
Definition clockSum (a b : Time) : Time :=
  let s := (timeToSeconds a + timeToSeconds b) mod 86400 in
  mkTime (s / 3600) (s mod 3600 / 60) (s mod 60).

(** * Properties *)

#[local] Arguments append : simpl nomatch.

(** ** Digits and two-digit fields *)

Lemma isDigit_value (c : ascii) :
  Js.isDigit c = true -> 0 <= Js.digitValue c <= 9 /\ Js.digitChar (Js.digitValue c) = c.
Proof.
  destruct c as [[] [] [] [] [] [] [] []]; cbv; intros H; try discriminate H;
    (split; [split; discriminate | reflexivity]).
Qed.

Ltac enum_digit d :=
  let H := fresh in
  assert (H : d = 0 \/ d = 1 \/ d = 2 \/ d = 3 \/ d = 4 \/ d = 5 \/ d = 6 \/
              d = 7 \/ d = 8 \/ d = 9) by lia;
  destruct H as [-> | [-> | [-> | [-> | [-> | [-> | [-> | [-> | [-> | ->]]]]]]]]].

Lemma padStart_two_digits (d1 d2 : Z) :
  0 <= d1 <= 9 -> 0 <= d2 <= 9 ->
  Js.padStart 2 "0" (Js.toString (10 * d1 + d2)) =
  String (Js.digitChar d1) (String (Js.digitChar d2) EmptyString).
Proof.
  intros H1 H2. enum_digit d1; enum_digit d2; reflexivity.
Qed.

Lemma parseInt_two_digits (a b : ascii) :
  Js.isDigit a = true -> Js.isDigit b = true ->
  Js.parseInt (String a (String b EmptyString)) = 10 * Js.digitValue a + Js.digitValue b.
Proof.
  intros Ha Hb. unfold Js.parseInt. simpl. rewrite Ha, Hb. lia.
Qed.

Lemma format_two_digits (a b : ascii) :
  Js.isDigit a = true -> Js.isDigit b = true ->
  Js.padStart 2 "0" (Js.toString (10 * Js.digitValue a + Js.digitValue b)) =
  String a (String b EmptyString).
Proof.
  intros Ha Hb.
  destruct (isDigit_value a Ha) as [Ra Ea], (isDigit_value b Hb) as [Rb Eb].
  rewrite padStart_two_digits by assumption. now rewrite Ea, Eb.
Qed.

(** ** [parseTime] and [formatTime] *)

Lemma parseTime_of_shape (s : string) (hh mm ss : Z) :
  timeShape s hh mm ss -> hh <= 23 -> mm <= 59 -> ss <= 59 ->
  parseTime s = Some (mkTime hh mm ss).
Proof.
  intros (a & b & c & d & e & f & -> & Ha & Hb & Hc & Hd & He & Hf & -> & -> & ->) Hh Hm Hs.
  unfold parseTime, TIME_REGEX_exec.
  rewrite Ha, Hb, Hc, Hd, He, Hf. simpl.
  rewrite !parseInt_two_digits by assumption.
  destruct (Z.gtb_spec (10 * Js.digitValue a + Js.digitValue b) 23); [lia |].
  destruct (Z.gtb_spec (10 * Js.digitValue c + Js.digitValue d) 59); [lia |].
  destruct (Z.gtb_spec (10 * Js.digitValue e + Js.digitValue f) 59); [lia |].
  reflexivity.
Qed.

Lemma parseTime_shape (s : string) (t : Time) :
  parseTime s = Some t ->
  timeShape s (hours t) (minutes t) (seconds t) /\ validTime t.
Proof.
  unfold parseTime, TIME_REGEX_exec.
  destruct s as [| a [| b [| p [| c [| d [| q [| e [| f [| x s]]]]]]]]];
    try discriminate.
  destruct (Js.isDigit a) eqn:Ha; [| discriminate].
  destruct (Js.isDigit b) eqn:Hb; [| discriminate].
  destruct (Ascii.eqb_spec p ":") as [-> |]; [| discriminate].
  destruct (Js.isDigit c) eqn:Hc; [| discriminate].
  destruct (Js.isDigit d) eqn:Hd; [| discriminate].
  destruct (Ascii.eqb_spec q ":") as [-> |]; [| discriminate].
  destruct (Js.isDigit e) eqn:He; [| discriminate].
  destruct (Js.isDigit f) eqn:Hf; [| discriminate].
  cbn [andb]. cbv beta iota.
  rewrite !parseInt_two_digits by assumption.
  destruct (Z.gtb_spec (10 * Js.digitValue a + Js.digitValue b) 23); [discriminate |].
  destruct (Z.gtb_spec (10 * Js.digitValue c + Js.digitValue d) 59); [discriminate |].
  destruct (Z.gtb_spec (10 * Js.digitValue e + Js.digitValue f) 59); [discriminate |].
  cbn [orb]. intros [= <-]. cbn [hours minutes seconds].
  pose proof (isDigit_value a Ha). pose proof (isDigit_value b Hb).
  pose proof (isDigit_value c Hc). pose proof (isDigit_value d Hd).
  pose proof (isDigit_value e He). pose proof (isDigit_value f Hf).
  split; [| unfold validTime; cbn [hours minutes seconds]; lia].
  exists a, b, c, d, e, f. repeat split; assumption.
Qed.

Lemma formatTime_of_shape (s : string) (hh mm ss : Z) :
  timeShape s hh mm ss -> formatTime (mkTime hh mm ss) = s.
Proof.
  intros (a & b & c & d & e & f & -> & Ha & Hb & Hc & Hd & He & Hf & -> & -> & ->).
  unfold formatTime. cbn [hours minutes seconds].
  rewrite !format_two_digits by assumption. reflexivity.
Qed.

(** C4.  Every string of the exact shape [hh:mm:ss] whose fields satisfy
    hh <= 23, mm <= 59 and ss <= 59 is parsed, and formatting the parsed
    time gives the string back; every other string (wrong length, wrong
    punctuation, a non-digit, or a field out of range) makes [parseTime]
    return null. *)
Theorem parseTime_formatTime_roundtrip :
  (forall s hh mm ss,
      timeShape s hh mm ss -> hh <= 23 -> mm <= 59 -> ss <= 59 ->
      exists t, parseTime s = Some t /\ formatTime t = s) /\
  (forall s,
      ~ (exists hh mm ss,
            timeShape s hh mm ss /\ hh <= 23 /\ mm <= 59 /\ ss <= 59) ->
      parseTime s = None).
Proof.
  split.
  - intros s hh mm ss Hshape Hh Hm Hs.
    exists (mkTime hh mm ss). split.
    + now apply parseTime_of_shape.
    + now apply formatTime_of_shape.
  - intros s Hno. destruct (parseTime s) as [t |] eqn:E; [| reflexivity].
    exfalso. apply Hno. destruct (parseTime_shape s t E) as [Hshape Hv].
    exists (hours t), (minutes t), (seconds t). unfold validTime in Hv.
    repeat split; [assumption | lia ..].
Qed.

Lemma parseTime_formatTime_roundtrip_witness :
  (exists t, parseTime "18:01:12" = Some t /\ formatTime t = "18:01:12") /\
  parseTime "24:00:00" = None.
Proof.
  split.
  - apply (proj1 parseTime_formatTime_roundtrip "18:01:12" 18 1 12); [| lia ..].
    exists "1"%char, "8"%char, "0"%char, "1"%char, "1"%char, "2"%char.
    repeat split; reflexivity.
  - apply (proj2 parseTime_formatTime_roundtrip "24:00:00").
    intros (hh & mm & ss & (a & b & c & d & e & f & Hs & _ & _ & _ & _ & _ & _ & Hh & _) & Hle & _).
    injection Hs as <- <- <- <- <- <-. vm_compute in Hh. lia.
Defined.

(** ** Offset arithmetic *)

Lemma secondsToTimeWithOverflow_spec (total : Z) :
  0 <= total ->
  let r := secondsToTimeWithOverflow total in
  snd r = total / 86400 /\
  validTime (fst r) /\
  timeToSeconds (fst r) = total mod 86400 /\
  total = snd r * 86400 + timeToSeconds (fst r).
Proof.
  intros Hnn. unfold secondsToTimeWithOverflow, validTime, timeToSeconds.
  cbn [fst snd hours minutes seconds].
  repeat split; Z.to_euclidean_division_equations; lia.
Qed.

Lemma timeToSeconds_range (t : Time) :
  validTime t -> 0 <= timeToSeconds t <= 86399.
Proof. unfold validTime, timeToSeconds. lia. Qed.

Example applyOffset_next_day :
  applyOffset (mkTime 23 30 0) (mkDate 2024 12 25) (mkTime 1 0 0) =
  DateTime.mk 2024 12 26 0 30 0.
Proof. reflexivity. Qed.

Example addDays_year_end : addDays (mkDate 2024 12 31) 1 = mkDate 2025 1 1.
Proof. reflexivity. Qed.

(** ** Strings: splitting, joining, trailing line feeds *)

Lemma append_nil_r (s : string) : s +:+ "" = s.
Proof. induction s as [| c s IH]; cbn; [reflexivity | f_equal; exact IH]. Qed.

Lemma append_assoc (a b c : string) : (a +:+ b) +:+ c = a +:+ (b +:+ c).
Proof. induction a as [| x a IH]; cbn; [reflexivity | f_equal; exact IH]. Qed.

Lemma split_not_nil (c : ascii) (s : string) : Js.split c s <> [].
Proof.
  destruct s as [| x s]; simpl; [discriminate |].
  destruct (Ascii.eqb x c); [discriminate |].
  destruct (Js.split c s); discriminate.
Qed.

Lemma join_cons (sep x : string) (l : list string) :
  l <> [] -> Js.join sep (x :: l) = x +:+ sep +:+ Js.join sep l.
Proof. destruct l; [congruence | reflexivity]. Qed.

Lemma join_split (c : ascii) (s : string) :
  Js.join (String c "") (Js.split c s) = s.
Proof.
  induction s as [| x s IH]; [reflexivity |].
  cbn [Js.split]. destruct (Ascii.eqb_spec x c) as [-> | Hne].
  - rewrite join_cons by apply split_not_nil. rewrite IH. reflexivity.
  - pose proof (split_not_nil c s) as Hnn.
    destruct (Js.split c s) as [| h t]; [congruence |].
    destruct t as [| h' t].
    + cbn in IH |- *. now rewrite IH.
    + rewrite join_cons by discriminate.
      rewrite join_cons in IH by discriminate.
      change (String x h +:+ String c "" +:+ Js.join (String c "") (h' :: t))
        with (String x (h +:+ String c "" +:+ Js.join (String c "") (h' :: t))).
      now rewrite IH.
Qed.

Lemma split_charFree (c : ascii) (s : string) :
  Forall (fun part => charFree c part = true) (Js.split c s).
Proof.
  induction s as [| x s IH]; cbn [Js.split].
  - repeat constructor.
  - destruct (Ascii.eqb_spec x c) as [-> | Hne].
    + constructor; [reflexivity | exact IH].
    + destruct (Js.split c s) as [| h t]; [repeat constructor|].
      * cbn. destruct (Ascii.eqb_spec x c); [contradiction | reflexivity].
      * inversion IH; subst. constructor; [| assumption].
        cbn. destruct (Ascii.eqb_spec x c); [contradiction | assumption].
Qed.

Lemma join_snoc (sep x : string) (l : list string) :
  l <> [] -> Js.join sep (l ++ [x]) = Js.join sep l +:+ sep +:+ x.
Proof.
  induction l as [| a l IH]; [congruence |]. intros _.
  destruct l as [| b l].
  - reflexivity.
  - change ((a :: b :: l) ++ [x]) with (a :: (b :: l) ++ [x]).
    rewrite join_cons by (destruct l; discriminate).
    rewrite IH by discriminate.
    rewrite (join_cons sep a (b :: l)) by discriminate.
    now rewrite !append_assoc.
Qed.

Lemma newlineRun_app (run : nat) (a b : string) :
  Js.newlineRun run (a +:+ b) = Js.newlineRun (Js.newlineRun run a) b.
Proof.
  revert run. induction a as [| x a IH]; intros run; cbn; [reflexivity | apply IH].
Qed.

Lemma newlineRun_charFree (run : nat) (a : string) :
  charFree Js.LF a = true -> a <> "" -> Js.newlineRun run a = O.
Proof.
  revert run. induction a as [| x a IH]; intros run Hf Hne; [congruence |].
  cbn in Hf |- *. apply andb_true_iff in Hf as [Hx Hf].
  apply negb_true_iff in Hx. rewrite Hx.
  destruct a as [| y a]; [reflexivity |]. now apply IH.
Qed.

Lemma newlineRun_alike (run : nat) (a b : string) :
  alike a b -> Js.newlineRun run a = Js.newlineRun run b.
Proof.
  intros (Ha & Hb & Hab). destruct a as [| x a].
  - rewrite (proj1 Hab eq_refl). reflexivity.
  - assert (b <> "") by (intros E; apply Hab in E; discriminate).
    rewrite !newlineRun_charFree by (assumption || discriminate). reflexivity.
Qed.

Lemma newlineRun_join (l1 l2 : list string) :
  Forall2 alike l1 l2 ->
  forall run, Js.newlineRun run (Js.join Js.NL l1) = Js.newlineRun run (Js.join Js.NL l2).
Proof.
  induction 1 as [| a b l1 l2 Hab Hl IH]; intros run; [reflexivity |].
  destruct Hl as [| a' b' l1 l2 Hab' Hl].
  - cbn. now apply newlineRun_alike.
  - rewrite (join_cons Js.NL a (a' :: l1)), (join_cons Js.NL b (b' :: l2))
      by discriminate.
    rewrite !newlineRun_app. rewrite (newlineRun_alike run a b Hab).
    apply IH.
Qed.

Lemma endsWith_newlineRun (s : string) (run : nat) :
  (0 < Js.newlineRun run s)%nat <->
  (s = "" /\ (0 < run)%nat) \/ Js.endsWith s Js.NL = true.
Proof.
  revert run. induction s as [| x s IH]; intros run.
  - cbn. split; [intros H; left; now split | intros [[_ H] | H]; [assumption | discriminate]].
  - cbn [Js.newlineRun Js.endsWith]. rewrite IH.
    destruct (String.eqb_spec (String x s) Js.NL) as [E | Hne].
    + injection E as -> ->. cbn. split; [now right | intros _; left; split; [reflexivity | lia]].
    + split.
      * intros [[-> Hrun] | H]; [| now right].
        exfalso. destruct (Ascii.eqb_spec x Js.LF) as [-> |]; [now apply Hne | lia].
      * intros [[E _] | H]; [discriminate | now right].
Qed.

Lemma endsWith_trailingNewlines (s : string) :
  Js.endsWith s Js.NL = negb (Js.trailingNewlines s =? 0)%nat.
Proof.
  unfold Js.trailingNewlines.
  pose proof (endsWith_newlineRun s O) as H.
  destruct (Js.endsWith s Js.NL) eqn:E.
  - assert (0 < Js.newlineRun 0 s)%nat by (apply H; now right).
    destruct (Nat.eqb_spec (Js.newlineRun 0 s) 0); [lia | reflexivity].
  - destruct (Nat.eqb_spec (Js.newlineRun 0 s) 0) as [| Hne]; [reflexivity |].
    assert (Hpos : (0 < Js.newlineRun 0 s)%nat) by lia.
    apply H in Hpos as [[_ Hpos] | Hpos]; [lia | discriminate].
Qed.

Lemma endsWith_split (s : string) :
  Js.endsWith s Js.NL = true ->
  exists l, l <> [] /\ Js.split Js.LF s = l ++ [""].
Proof.
  induction s as [| x s IH]; [discriminate |].
  cbn [Js.endsWith]. destruct (String.eqb_spec (String x s) Js.NL) as [E | Hne].
  - intros _. injection E as -> ->. exists [""]. split; [discriminate | reflexivity].
  - intros H. destruct (IH H) as (l & Hl & El). cbn [Js.split]. rewrite El.
    destruct (Ascii.eqb x Js.LF).
    + exists ("" :: l). split; [discriminate | reflexivity].
    + destruct l as [| h t]; [congruence |].
      exists (String x h :: t). split; [discriminate | reflexivity].
Qed.

(** ** Characters produced by the formatter *)

Lemma charFree_app (c : ascii) (a b : string) :
  charFree c (a +:+ b) = charFree c a && charFree c b.
Proof.
  induction a as [| x a IH]; cbn; [reflexivity |].
  rewrite IH. now rewrite andb_assoc.
Qed.

Lemma charFree_uint (d : Decimal.uint) :
  charFree Js.LF (NilEmpty.string_of_uint d) = true.
Proof. induction d; cbn; auto. Qed.

Lemma charFree_toString (n : Z) : charFree Js.LF (Js.toString n) = true.
Proof.
  unfold Js.toString, NilZero.string_of_int, NilZero.string_of_uint.
  destruct (Z.to_int n) as [d | d]; destruct d; cbn; auto using charFree_uint.
Qed.

Lemma charFree_repeatChar (n : nat) :
  charFree Js.LF (Js.repeatChar n "0") = true.
Proof. induction n; cbn; auto. Qed.

Lemma charFree_padStart (n : nat) (s : string) :
  charFree Js.LF s = true -> charFree Js.LF (Js.padStart n "0" s) = true.
Proof.
  intros H. unfold Js.padStart. now rewrite charFree_app, charFree_repeatChar, H.
Qed.

Lemma charFree_formatTime (t : Time) : charFree Js.LF (formatTime t) = true.
Proof.
  unfold formatTime.
  rewrite !charFree_app, !charFree_padStart by apply charFree_toString.
  reflexivity.
Qed.

Lemma formatTime_not_empty (t : Time) (rest : string) : formatTime t +:+ rest <> "".
Proof.
  unfold formatTime.
  destruct (Js.padStart 2 "0" (Js.toString (hours t))); cbn; discriminate.
Qed.

Lemma charFree_sliceFrom (c : ascii) (n : nat) (s : string) :
  charFree c s = true -> charFree c (Js.sliceFrom n s) = true.
Proof.
  revert s. induction n as [| n IH]; intros s H; destruct s as [| x s]; cbn; auto.
  cbn in H. apply andb_true_iff in H as [_ H]. now apply IH.
Qed.

(** ** Lines with and without a leading timestamp *)

Lemma parseTimestampLine_empty : parseTimestampLine "" = None.
Proof. reflexivity. Qed.

Lemma parseTimestampLine_Some (line : string) (time : Time) (rest : string) :
  parseTimestampLine line = Some (time, rest) ->
  (8 <= String.length line)%nat /\ parseTime (Js.sliceTo 8 line) = Some time /\
  rest = Js.sliceFrom 8 line.
Proof.
  unfold parseTimestampLine.
  destruct (Nat.ltb_spec (String.length line) 8); [discriminate |].
  destruct (parseTime (Js.sliceTo 8 line)) as [t |]; [| discriminate].
  intros [= <- <-]. auto.
Qed.

Lemma carriesTimestamp_parse (line : string) :
  carriesTimestamp line <-> parseTimestampLine line <> None.
Proof.
  unfold carriesTimestamp, parseTimestampLine. split.
  - intros (Hlen & hh & mm & ss & Hshape & Hh & Hm & Hs).
    destruct (Nat.ltb_spec (String.length line) 8); [lia |].
    rewrite (parseTime_of_shape _ _ _ _ Hshape Hh Hm Hs). discriminate.
  - destruct (Nat.ltb_spec (String.length line) 8); [congruence |].
    destruct (parseTime (Js.sliceTo 8 line)) as [t |] eqn:E; [| congruence].
    intros _. split; [assumption |].
    destruct (parseTime_shape _ _ E) as [Hshape Hv]. unfold validTime in Hv.
    exists (hours t), (minutes t), (seconds t). repeat split; [assumption | lia ..].
Qed.

Lemma adjustedStamp_None (baseTime : Time) (effectiveDate : DateOnly) (line : string) :
  adjustedStamp baseTime effectiveDate line = None <-> ~ carriesTimestamp line.
Proof.
  rewrite carriesTimestamp_parse. unfold adjustedStamp.
  destruct (parseTimestampLine line) as [[time rest] |]; split; try congruence.
  intros H. exfalso. apply H. discriminate.
Qed.

Lemma adjustedText_alike (baseTime : Time) (effectiveDate : DateOnly) (line : string) :
  charFree Js.LF line = true ->
  alike line (adjustedText baseTime effectiveDate line).
Proof.
  intros Hfree. unfold alike, adjustedText.
  destruct (parseTimestampLine line) as [[time rest] |] eqn:E.
  - apply parseTimestampLine_Some in E as (Hlen & _ & ->).
    split; [assumption |]. split.
    + rewrite charFree_app, charFree_formatTime. now apply charFree_sliceFrom.
    + split.
      * intros ->. cbn in Hlen. lia.
      * intros H. now apply formatTime_not_empty in H.
  - tauto.
Qed.

(** ** The adjustment loop *)

Section Loop.

Variable baseTime : Time.
Variable effectiveDate : DateOnly.

Abbreviation step := (adjustLine baseTime effectiveDate).
Abbreviation stamps := (adjustedTimestamps baseTime effectiveDate).

Lemma stamps_cons (line : string) (lines : list string) :
  stamps (line :: lines) =
  option_list (adjustedStamp baseTime effectiveDate line) ++ stamps lines.
Proof.
  unfold adjustedTimestamps. cbn.
  destruct (adjustedStamp baseTime effectiveDate line); reflexivity.
Qed.

Lemma stamps_app (l1 l2 : list string) : stamps (l1 ++ l2) = stamps l1 ++ stamps l2.
Proof. apply omap_app. Qed.

Lemma step_parsed (st : Adjust.state) (line : string) (time : Time) (rest : string) :
  parseTimestampLine line = Some (time, rest) ->
  let adjusted := applyOffset baseTime effectiveDate time in
  step st line =
  Adjust.mk (Adjust.adjustedLines st ++ [adjustedText baseTime effectiveDate line])
    (match Adjust.firstTimestamp st with Some f => Some f | None => Some adjusted end)
    (Some adjusted) (Some adjusted)
    (Adjust.hasOutOfOrder st ||
     hasDescent (option_list (Adjust.previousTimestamp st) ++ [adjusted])) /\
  adjustedStamp baseTime effectiveDate line = Some adjusted.
Proof.
  intros E. unfold adjustLine, adjustedText, adjustedStamp. rewrite E. cbn zeta.
  generalize (applyOffset baseTime effectiveDate time). intros adjusted.
  split; [| reflexivity]. f_equal.
  destruct (Adjust.previousTimestamp st) as [previous |]; cbn.
  - destruct (compareDateTime adjusted previous <? 0);
      destruct (Adjust.hasOutOfOrder st); reflexivity.
  - now rewrite orb_false_r.
Qed.

Lemma step_plain (st : Adjust.state) (line : string) :
  parseTimestampLine line = None ->
  step st line =
  Adjust.mk (Adjust.adjustedLines st ++ [adjustedText baseTime effectiveDate line])
    (Adjust.firstTimestamp st) (Adjust.lastTimestamp st)
    (Adjust.previousTimestamp st) (Adjust.hasOutOfOrder st) /\
  adjustedStamp baseTime effectiveDate line = None.
Proof.
  intros E. unfold adjustLine, adjustedText, adjustedStamp. rewrite E. auto.
Qed.

Lemma hasDescent_cons2 (a b : DateTime.t) (l : list DateTime.t) :
  hasDescent (a :: b :: l) = (compareDateTime b a <? 0) || hasDescent (b :: l).
Proof. reflexivity. Qed.

Lemma adjust_loop (lines : list string) :
  forall st,
    let st' := fold_left step lines st in
    Adjust.adjustedLines st' =
      Adjust.adjustedLines st ++ map (adjustedText baseTime effectiveDate) lines /\
    Adjust.firstTimestamp st' =
      match Adjust.firstTimestamp st with
      | Some f => Some f
      | None => head (stamps lines)
      end /\
    Adjust.lastTimestamp st' =
      match last (stamps lines) with
      | Some x => Some x
      | None => Adjust.lastTimestamp st
      end /\
    Adjust.previousTimestamp st' =
      match last (stamps lines) with
      | Some x => Some x
      | None => Adjust.previousTimestamp st
      end /\
    Adjust.hasOutOfOrder st' =
      Adjust.hasOutOfOrder st ||
      hasDescent (option_list (Adjust.previousTimestamp st) ++ stamps lines).
Proof.
  induction lines as [| line lines IH]; intros st.
  - cbn. rewrite app_nil_r.
    repeat split; try (destruct (Adjust.firstTimestamp st); reflexivity).
    destruct (Adjust.previousTimestamp st); cbn; now rewrite orb_false_r.
  - cbn [fold_left]. specialize (IH (step st line)).
    destruct IH as (Hl & Hf & Hla & Hp & Ho).
    rewrite stamps_cons.
    destruct (parseTimestampLine line) as [[time rest] |] eqn:E.
    + destruct (step_parsed st line time rest E) as [Hstep Hstamp].
      rewrite Hstep in Hl, Hf, Hla, Hp, Ho. rewrite Hstep, Hstamp. clear Hstep Hstamp.
      set (adjusted := applyOffset baseTime effectiveDate time) in *.
      cbn [Adjust.adjustedLines Adjust.firstTimestamp Adjust.lastTimestamp
           Adjust.previousTimestamp Adjust.hasOutOfOrder option_list app] in *.
      change (option_list (Some adjusted) ++ stamps lines)
        with (adjusted :: stamps lines) in *.
      split; [rewrite Hl, <- app_assoc; reflexivity |].
      split; [rewrite Hf; destruct (Adjust.firstTimestamp st); reflexivity |].
      rewrite last_cons.
      split; [rewrite Hla; destruct (last (stamps lines)); reflexivity |].
      split; [rewrite Hp; destruct (last (stamps lines)); reflexivity |].
      rewrite Ho. destruct (Adjust.previousTimestamp st) as [previous |].
      * change (option_list (Some previous) ++ [adjusted]) with [previous; adjusted].
        change (option_list (Some previous) ++ adjusted :: stamps lines)
          with (previous :: adjusted :: stamps lines).
        rewrite !hasDescent_cons2. cbn [hasDescent].
        rewrite orb_false_r. now rewrite orb_assoc.
      * change (option_list None ++ [adjusted]) with [adjusted].
        change (option_list None ++ adjusted :: stamps lines)
          with (adjusted :: stamps lines).
        cbn [hasDescent]. now rewrite orb_false_r.
    + destruct (step_plain st line E) as [Hstep Hstamp].
      rewrite Hstep in Hl, Hf, Hla, Hp, Ho. rewrite Hstep, Hstamp. clear Hstep Hstamp.
      cbn [Adjust.adjustedLines Adjust.firstTimestamp Adjust.lastTimestamp
           Adjust.previousTimestamp Adjust.hasOutOfOrder] in *.
      change (option_list None ++ stamps lines) with (stamps lines).
      split; [rewrite Hl, <- app_assoc; reflexivity |]. auto.
Qed.

End Loop.

(** ** [adjustTranscript] in closed form *)

Lemma adjustedText_empty (baseTime : Time) (effectiveDate : DateOnly) :
  adjustedText baseTime effectiveDate "" = "".
Proof. reflexivity. Qed.

Lemma transcriptLines_split (contents : string) :
  (Js.endsWith contents Js.NL = false /\
   transcriptLines contents = Js.split Js.LF contents) \/
  (Js.endsWith contents Js.NL = true /\ transcriptLines contents <> [] /\
   Js.split Js.LF contents = transcriptLines contents ++ [""]).
Proof.
  unfold transcriptLines. destruct (Js.endsWith contents Js.NL) eqn:E.
  - right. destruct (endsWith_split contents E) as (l & Hl & ->).
    rewrite last_snoc. rewrite bool_decide_eq_true_2 by reflexivity.
    cbn [andb]. rewrite removelast_last. auto.
  - left. auto.
Qed.

Lemma transcriptLines_stamps (baseTime : Time) (effectiveDate : DateOnly)
    (contents : string) :
  adjustedTimestamps baseTime effectiveDate (transcriptLines contents) =
  adjustedTimestamps baseTime effectiveDate (Js.split Js.LF contents).
Proof.
  destruct (transcriptLines_split contents) as [[_ ->] | (_ & _ & ->)];
    [reflexivity |].
  rewrite stamps_app. cbn. now rewrite app_nil_r.
Qed.

Lemma transcriptLines_body (baseTime : Time) (effectiveDate : DateOnly)
    (contents : string) :
  let joined :=
    Js.join Js.NL (map (adjustedText baseTime effectiveDate) (transcriptLines contents)) in
  (if Js.endsWith contents Js.NL then joined +:+ Js.NL else joined) =
  Js.join Js.NL (map (adjustedText baseTime effectiveDate) (Js.split Js.LF contents)).
Proof.
  destruct (transcriptLines_split contents) as [[-> ->] | (-> & Hne & ->)];
    [reflexivity |].
  cbn zeta. rewrite map_app. cbn [map]. rewrite adjustedText_empty.
  rewrite join_snoc by (destruct (transcriptLines contents); [congruence | discriminate]).
  now rewrite append_nil_r.
Qed.

Lemma adjustTranscript_closed (contents : string) (baseTime : Time)
    (effectiveDate : DateOnly) :
  let lines := Js.split Js.LF contents in
  let stamps := adjustedTimestamps baseTime effectiveDate lines in
  adjustTranscript contents baseTime effectiveDate =
  match head stamps, last stamps with
  | Some first, Some final =>
      Ok (mkUpdate (Js.join Js.NL (map (adjustedText baseTime effectiveDate) lines))
            first final (hasDescent stamps))
  | _, _ => Err NoTimestampsError
  end.
Proof.
  cbn zeta. unfold adjustTranscript.
  destruct (adjust_loop baseTime effectiveDate (transcriptLines contents) Adjust.init)
    as (Hl & Hf & Hla & _ & Ho).
  cbn zeta in Hl, Hf, Hla, Ho. rewrite Hl, Hf, Hla, Ho.
  cbn [Adjust.init Adjust.adjustedLines Adjust.firstTimestamp Adjust.lastTimestamp
       Adjust.previousTimestamp Adjust.hasOutOfOrder orb app].
  change (option_list None ++ ?l) with l.
  rewrite transcriptLines_stamps.
  destruct (adjustedTimestamps baseTime effectiveDate (Js.split Js.LF contents))
    as [| first rest] eqn:E; [reflexivity |].
  cbn [head]. rewrite last_cons.
  rewrite (transcriptLines_body baseTime effectiveDate contents).
  destruct (last rest); reflexivity.
Qed.

Lemma stamps_nil (baseTime : Time) (effectiveDate : DateOnly) (lines : list string) :
  adjustedTimestamps baseTime effectiveDate lines = [] <->
  Forall (fun line => ~ carriesTimestamp line) lines.
Proof.
  induction lines as [| line lines IH].
  - split; [constructor | reflexivity].
  - rewrite stamps_cons, Forall_cons, <- IH, <- (adjustedStamp_None baseTime effectiveDate).
    destruct (adjustedStamp baseTime effectiveDate line); cbn; split;
      try (intros [? ?]); try discriminate; auto.
Qed.

(** ** Ordering of datetimes *)

Lemma compareDateTime_lt (a b : DateTime.t) :
  compareDateTime a b < 0 <-> dateTimeLt a b.
Proof.
  unfold compareDateTime, dateTimeLt, lexLt3.
  repeat match goal with
         | |- context [Z.eqb ?x ?y] => destruct (Z.eqb_spec x y); cbn [negb]
         end; lia.
Qed.

Lemma hasDescent_iff (l : list DateTime.t) :
  hasDescent l = true <->
  exists l1 a b l2, l = l1 ++ a :: b :: l2 /\ compareDateTime b a < 0.
Proof.
  induction l as [| a l IH].
  - split; [discriminate |]. intros (l1 & a & b & l2 & E & _).
    destruct l1; discriminate.
  - destruct l as [| b l].
    + split; [discriminate |]. intros (l1 & a' & b' & l2 & E & _).
      destruct l1 as [| ? [| ? ?]]; discriminate.
    + rewrite hasDescent_cons2, orb_true_iff, IH. split.
      * intros [H | (l1 & a' & b' & l2 & E & H)].
        -- exists [], a, b, l. split; [reflexivity | lia].
        -- exists (a :: l1), a', b', l2. rewrite E. auto.
      * intros (l1 & a' & b' & l2 & E & H). destruct l1 as [| x l1].
        -- injection E as <- <- <-. left. lia.
        -- injection E as <- E. right. exists l1, a', b', l2. auto.
Qed.

(** ** The transcript adjuster *)

(** C6.  [adjustTranscript] fails with [NoTimestamps] exactly when no
    line of the input (the text split on line feeds) has at least eight
    characters whose first eight parse as an in-range [hh:mm:ss]; when
    some line does, it returns an update whose [firstTimestamp] is the
    first and whose [lastTimestamp] is the last adjusted datetime in
    file order. *)
Theorem adjustTranscript_NoTimestamps (contents : string) (baseTime : Time)
    (effectiveDate : DateOnly) :
  let lines := Js.split Js.LF contents in
  let stamps := adjustedTimestamps baseTime effectiveDate lines in
  (adjustTranscript contents baseTime effectiveDate = Err NoTimestampsError <->
   Forall (fun line => ~ carriesTimestamp line) lines) /\
  (Exists carriesTimestamp lines ->
   exists r,
     adjustTranscript contents baseTime effectiveDate = Ok r /\
     head stamps = Some (firstTimestamp r) /\
     last stamps = Some (lastTimestamp r)).
Proof.
  cbn zeta. rewrite adjustTranscript_closed. cbn zeta.
  rewrite <- (stamps_nil baseTime effectiveDate).
  destruct (adjustedTimestamps baseTime effectiveDate (Js.split Js.LF contents))
    as [| first rest] eqn:E.
  - split; [split; intros _; reflexivity |].
    intros Hex. exfalso. apply stamps_nil in E.
    apply Exists_exists in Hex as (line & Hin & Hc).
    rewrite Forall_forall in E. exact (E line Hin Hc).
  - cbn [head]. rewrite last_cons.
    split; [split; intros H; destruct (last rest); discriminate H |].
    intros _. destruct (last rest) as [final |]; eexists; repeat split.
Qed.

Lemma adjustTranscript_NoTimestamps_witness :
  exists r,
    adjustTranscript ("00:00:01 Start" +:+ Js.NL +:+ "01:00:00 Later" +:+ Js.NL)
      (mkTime 23 30 0) (mkDate 2024 12 25) = Ok r /\
    Some (DateTime.mk 2024 12 25 23 30 1) = Some (firstTimestamp r) /\
    Some (DateTime.mk 2024 12 26 0 30 0) = Some (lastTimestamp r).
Proof.
  apply (proj2 (adjustTranscript_NoTimestamps
                  ("00:00:01 Start" +:+ Js.NL +:+ "01:00:00 Later" +:+ Js.NL)
                  (mkTime 23 30 0) (mkDate 2024 12 25))).
  apply Exists_cons_hd. split; [vm_compute; lia |].
  exists 0, 0, 1. split; [| lia].
  exists "0"%char, "0"%char, "0"%char, "0"%char, "0"%char, "1"%char.
  repeat split; reflexivity.
Defined.

Example adjustTranscript_no_timestamp_lines :
  adjustTranscript ("No timestamps here" +:+ Js.NL) (mkTime 18 1 12) (mkDate 2024 12 25)
  = Err NoTimestampsError.
Proof. reflexivity. Qed.

Example adjustTranscript_out_of_range_is_text :
  adjustTranscript ("24:00:00 Foo" +:+ Js.NL) (mkTime 18 1 12) (mkDate 2024 12 25)
  = Err NoTimestampsError.
Proof. reflexivity. Qed.

(** C7.  The returned [hasOutOfOrderTimestamps] is true exactly when
    some adjusted datetime is immediately followed, in file order, by a
    strictly smaller one in the order on
    (year, month, day, hours, minutes, seconds); equal or increasing
    neighbours never set it, and once the flag is set in the loop it
    stays set whatever lines follow. *)
Theorem adjustTranscript_out_of_order (contents : string) (baseTime : Time)
    (effectiveDate : DateOnly) :
  (forall r,
      adjustTranscript contents baseTime effectiveDate = Ok r ->
      (hasOutOfOrderTimestamps r = true <->
       exists l1 a b l2,
         adjustedTimestamps baseTime effectiveDate (Js.split Js.LF contents) =
           l1 ++ a :: b :: l2 /\
         dateTimeLt b a)) /\
  (forall st lines,
      Adjust.hasOutOfOrder st = true ->
      Adjust.hasOutOfOrder (fold_left (adjustLine baseTime effectiveDate) lines st)
      = true).
Proof.
  split.
  - intros r. rewrite adjustTranscript_closed. cbn zeta.
    destruct (head _) as [first |]; [| discriminate].
    destruct (last _) as [final |]; [| discriminate].
    intros [= <-]. cbn [hasOutOfOrderTimestamps]. rewrite hasDescent_iff.
    split; intros (l1 & a & b & l2 & E & H); exists l1, a, b, l2;
      (split; [exact E | now apply compareDateTime_lt]).
  - intros st lines Hst.
    destruct (adjust_loop baseTime effectiveDate lines st) as (_ & _ & _ & _ & Ho).
    cbn zeta in Ho. rewrite Ho, Hst. reflexivity.
Qed.

Lemma adjustTranscript_out_of_order_witness :
  exists r,
    adjustTranscript ("00:00:05 Later" +:+ Js.NL +:+ "00:00:02 Earlier" +:+ Js.NL)
      (mkTime 18 1 12) (mkDate 2024 12 25) = Ok r /\
    hasOutOfOrderTimestamps r = true /\
    exists l1 a b l2,
      adjustedTimestamps (mkTime 18 1 12) (mkDate 2024 12 25)
        (Js.split Js.LF ("00:00:05 Later" +:+ Js.NL +:+ "00:00:02 Earlier" +:+ Js.NL))
      = l1 ++ a :: b :: l2 /\ dateTimeLt b a.
Proof.
  eexists. split; [reflexivity |]. split; [reflexivity |].
  apply (proj1 (adjustTranscript_out_of_order
                  ("00:00:05 Later" +:+ Js.NL +:+ "00:00:02 Earlier" +:+ Js.NL)
                  (mkTime 18 1 12) (mkDate 2024 12 25)) _ eq_refl).
  reflexivity.
Defined.

Example adjustTranscript_in_order :
  exists r,
    adjustTranscript ("00:00:01 First" +:+ Js.NL +:+ "00:00:03 Second" +:+ Js.NL +:+
                      "00:00:05 Third" +:+ Js.NL)
      (mkTime 18 1 12) (mkDate 2024 12 25) = Ok r /\
    hasOutOfOrderTimestamps r = false.
Proof. eexists. split; reflexivity. Qed.

Example adjustTranscript_equal_neighbours :
  exists r,
    adjustTranscript ("00:00:01 a" +:+ Js.NL +:+ "00:00:01 b" +:+ Js.NL)
      (mkTime 18 1 12) (mkDate 2024 12 25) = Ok r /\
    hasOutOfOrderTimestamps r = false.
Proof. eexists. split; reflexivity. Qed.

(** C3 (as the code has it).  The body ends with a line feed exactly
    when the input does, and carries exactly as many trailing line feeds
    as the input: none when the input has none, one when the input ends
    in exactly one; the line feed restored after the join is never
    duplicated and none is dropped. *)
Theorem adjustTranscript_trailing_newlines (contents : string) (baseTime : Time)
    (effectiveDate : DateOnly) (r : TranscriptUpdate) :
  adjustTranscript contents baseTime effectiveDate = Ok r ->
  Js.endsWith (body r) Js.NL = Js.endsWith contents Js.NL /\
  Js.trailingNewlines (body r) = Js.trailingNewlines contents.
Proof.
  rewrite adjustTranscript_closed. cbn zeta.
  destruct (head _) as [first |]; [| discriminate].
  destruct (last _) as [final |]; [| discriminate].
  intros [= <-]. cbn [body].
  assert (Hrun : Js.trailingNewlines
                   (Js.join Js.NL (map (adjustedText baseTime effectiveDate)
                                     (Js.split Js.LF contents))) =
                 Js.trailingNewlines contents).
  { rewrite <- (join_split Js.LF contents) at 2. fold Js.NL.
    unfold Js.trailingNewlines. symmetry. apply newlineRun_join.
    pose proof (split_charFree Js.LF contents) as Hfree.
    induction Hfree as [| line lines Hline Hlines IH]; cbn [map]; constructor.
    - now apply adjustedText_alike.
    - exact IH. }
  split; [| exact Hrun].
  now rewrite !endsWith_trailingNewlines, Hrun.
Qed.

Lemma adjustTranscript_trailing_newlines_witness :
  Js.endsWith "18:01:13 Foo" Js.NL = Js.endsWith "00:00:01 Foo" Js.NL /\
  Js.trailingNewlines "18:01:13 Foo" = Js.trailingNewlines "00:00:01 Foo".
Proof.
  apply (adjustTranscript_trailing_newlines "00:00:01 Foo" (mkTime 18 1 12)
           (mkDate 2024 12 25) (mkUpdate "18:01:13 Foo" (DateTime.mk 2024 12 25 18 1 13)
                                  (DateTime.mk 2024 12 25 18 1 13) false)).
  reflexivity.
Defined.

(** C3, as stated, fails: an input ending in two line feeds yields a
    body that ends in two line feeds, not in exactly one. *)
Lemma adjustTranscript_two_trailing_newlines :
  let contents := "00:00:01 Foo" +:+ Js.NL +:+ Js.NL in
  exists r,
    adjustTranscript contents (mkTime 18 1 12) (mkDate 2024 12 25) = Ok r /\
    Js.endsWith contents Js.NL = true /\
    body r = "18:01:13 Foo" +:+ Js.NL +:+ Js.NL /\
    Js.endsWith (body r) (Js.NL +:+ Js.NL) = true /\
    Js.trailingNewlines (body r) <> 1%nat.
Proof.
  eexists. split; [reflexivity |]. repeat split. vm_compute. discriminate.
Qed.

(** ** The sort order of the merge *)

Lemma insertSorted_In {A} (cmp : A -> A -> Z) (x y : A) (l : list A) :
  In y (insertSorted cmp x l) <-> y = x \/ In y l.
Proof.
  induction l as [| z l IH]; cbn.
  - intuition.
  - destruct (cmp x z >? 0); cbn; rewrite ?IH; intuition.
Qed.

Lemma sortStable_In {A} (cmp : A -> A -> Z) (y : A) (l : list A) :
  In y (sortStable cmp l) <-> In y l.
Proof.
  induction l as [| x l IH]; cbn; [reflexivity |].
  rewrite insertSorted_In, IH. intuition.
Qed.

Lemma insertSorted_Permutation {A} (cmp : A -> A -> Z) (x : A) (l : list A) :
  Permutation (insertSorted cmp x l) (x :: l).
Proof.
  induction l as [| y l IH]; cbn; [reflexivity |].
  destruct (cmp x y >? 0); [| reflexivity].
  rewrite IH. apply perm_swap.
Qed.

Lemma sortStable_Permutation {A} (cmp : A -> A -> Z) (l : list A) :
  Permutation (sortStable cmp l) l.
Proof.
  induction l as [| x l IH]; cbn; [reflexivity |].
  rewrite insertSorted_Permutation. apply perm_skip, IH.
Qed.

(** An array already in order is left as it is: entries that compare
    equal keep their insertion order. *)
Lemma sortStable_already_sorted {A} (cmp : A -> A -> Z) (l : list A) :
  Sorted (fun a b => cmp a b <= 0) l -> sortStable cmp l = l.
Proof.
  induction l as [| x l IH]; intros Hs; cbn; [reflexivity |].
  apply Sorted_inv in Hs as [Hs Hhd]. rewrite (IH Hs).
  destruct l as [| y l]; [reflexivity |]. cbn.
  apply HdRel_inv in Hhd.
  destruct (Z.gtb_spec (cmp x y) 0); [lia | reflexivity].
Qed.

Section Ordered.

Context {A : Type} (cmp : A -> A -> Z).
Hypothesis cmp_flip : forall x y, cmp x y > 0 -> cmp y x <= 0.

Lemma insertSorted_Sorted (x : A) (l : list A) :
  Sorted (fun a b => cmp a b <= 0) l ->
  Sorted (fun a b => cmp a b <= 0) (insertSorted cmp x l).
Proof.
  induction l as [| y l IH]; intros Hs; cbn.
  - repeat constructor.
  - apply Sorted_inv in Hs as [Hs Hhd].
    destruct (Z.gtb_spec (cmp x y) 0) as [Hgt | Hle].
    + constructor; [now apply IH |].
      destruct l as [| z l]; cbn.
      * constructor. apply cmp_flip. lia.
      * destruct (Z.gtb_spec (cmp x z) 0).
        -- constructor. now apply HdRel_inv in Hhd.
        -- constructor. apply cmp_flip. lia.
    + constructor; [constructor; assumption |]. now constructor.
Qed.

Lemma sortStable_Sorted (l : list A) :
  Sorted (fun a b => cmp a b <= 0) (sortStable cmp l).
Proof.
  induction l as [| x l IH]; cbn; [constructor | now apply insertSorted_Sorted].
Qed.

End Ordered.

Lemma compareSortKeys_flip (a b : FileSortKey) :
  compareSortKeys a b > 0 -> compareSortKeys b a <= 0.
Proof.
  unfold compareSortKeys.
  destruct (date a) as [da |], (date b) as [db |];
    repeat match goal with
           | |- context [Z.eqb ?x ?y] => destruct (Z.eqb_spec x y); cbn [negb]
           end; lia.
Qed.

(** The descriptors the merge works on are a rearrangement of the
    collected ones in which no entry compares greater than its
    successor. *)
Lemma sorted_descriptors (descriptors : list Descriptor) :
  let sorted := sortStable (fun a b => compareSortKeys (key a) (key b)) descriptors in
  Permutation sorted descriptors /\
  Sorted (fun a b => compareSortKeys (key a) (key b) <= 0) sorted.
Proof.
  split; [apply sortStable_Permutation |].
  apply sortStable_Sorted. intros x y. apply compareSortKeys_flip.
Qed.

Section Ranked.

Context {A : Type} (cmp : A -> A -> Z) (rank : A -> nat).
Hypothesis cmp_lower : forall x y, (rank x < rank y)%nat -> cmp x y < 0.
Hypothesis cmp_higher : forall x y, (rank y < rank x)%nat -> cmp x y > 0.

Lemma insertSorted_ranked (x : A) (l : list A) :
  StronglySorted (fun a b => (rank a <= rank b)%nat) l ->
  StronglySorted (fun a b => (rank a <= rank b)%nat) (insertSorted cmp x l).
Proof.
  induction 1 as [| y l Hs IH Hy]; cbn.
  - repeat constructor.
  - destruct (Z.gtb_spec (cmp x y) 0) as [Hgt | Hle].
    + constructor; [exact IH |].
      apply List.Forall_forall. intros z Hz. apply insertSorted_In in Hz as [-> | Hz].
      * destruct (Nat.le_gt_cases (rank y) (rank x)) as [| Hlt]; [assumption |].
        apply cmp_lower in Hlt. lia.
      * rewrite List.Forall_forall in Hy. now apply Hy.
    + assert (Hxy : (rank x <= rank y)%nat).
      { destruct (Nat.le_gt_cases (rank x) (rank y)) as [| Hlt]; [assumption |].
        apply cmp_higher in Hlt. lia. }
      constructor; [constructor; assumption |].
      constructor; [assumption |].
      rewrite List.Forall_forall in Hy |- *. intros z Hz. specialize (Hy z Hz). lia.
Qed.

Lemma sortStable_ranked (l : list A) :
  StronglySorted (fun a b => (rank a <= rank b)%nat) (sortStable cmp l).
Proof.
  induction l as [| x l IH]; cbn; [constructor | now apply insertSorted_ranked].
Qed.

End Ranked.

Lemma StronglySorted_split {A} (R : A -> A -> Prop) (l1 l2 : list A) (a b : A) :
  StronglySorted R (l1 ++ a :: l2) -> In b l2 -> R a b.
Proof.
  induction l1 as [| x l1 IH]; cbn; intros Hs Hb.
  - apply StronglySorted_inv in Hs as [_ Hall].
    rewrite List.Forall_forall in Hall. now apply Hall.
  - apply StronglySorted_inv in Hs as [Hs _]. now apply IH.
Qed.

Lemma compareSortKeys_absent_dated (a b : FileSortKey) :
  (dateRank a < dateRank b)%nat -> compareSortKeys a b < 0.
Proof.
  unfold dateRank, compareSortKeys.
  destruct (date a), (date b); cbn; lia.
Qed.

Lemma compareSortKeys_dated_absent (a b : FileSortKey) :
  (dateRank b < dateRank a)%nat -> compareSortKeys a b > 0.
Proof.
  unfold dateRank, compareSortKeys.
  destruct (date a), (date b); cbn; lia.
Qed.

(** C1 (as the code has it).  A key without a date orders strictly
    before every key with a date, so the sorted descriptors never hold a
    dated entry ahead of a date-absent one; two dated keys are ordered
    by (year, month, day) and then by start time; two date-absent keys
    are ordered by start time only. *)
Theorem compareSortKeys_order :
  (forall d h m s h' m' s',
      compareSortKeys (mkKey None h m s) (mkKey (Some d) h' m' s') < 0 /\
      compareSortKeys (mkKey (Some d) h' m' s') (mkKey None h m s) > 0) /\
  (forall descriptors l1 x l2 y,
      sortStable (fun a b => compareSortKeys (key a) (key b)) descriptors =
        l1 ++ x :: l2 ->
      In y l2 -> date (key y) = None -> date (key x) = None) /\
  (forall da db h m s h' m' s',
      compareSortKeys (mkKey (Some da) h m s) (mkKey (Some db) h' m' s') < 0 <->
      lexLt3 (year da) (month da) (day da) (year db) (month db) (day db) \/
      (year da = year db /\ month da = month db /\ day da = day db /\
       lexLt3 h m s h' m' s')) /\
  (forall h m s h' m' s',
      compareSortKeys (mkKey None h m s) (mkKey None h' m' s') < 0 <->
      lexLt3 h m s h' m' s').
Proof.
  split; [| split; [| split]].
  - intros. cbn. lia.
  - intros descriptors l1 x l2 y E Hy Hnone.
    pose proof (sortStable_ranked
                  (fun a b => compareSortKeys (key a) (key b))
                  (fun a => dateRank (key a))
                  (fun a b => compareSortKeys_absent_dated (key a) (key b))
                  (fun a b => compareSortKeys_dated_absent (key a) (key b))
                  descriptors) as Hs.
    rewrite E in Hs. pose proof (StronglySorted_split _ _ _ _ _ Hs Hy) as Hle.
    cbn beta in Hle. unfold dateRank in Hle. rewrite Hnone in Hle.
    destruct (date (key x)); [lia | reflexivity].
  - intros. unfold compareSortKeys, lexLt3. cbn [date startHours startMinutes startSeconds].
    repeat match goal with
           | |- context [Z.eqb ?x ?y] => destruct (Z.eqb_spec x y); cbn [negb]
           end; lia.
  - intros. unfold compareSortKeys, lexLt3. cbn [date startHours startMinutes startSeconds].
    repeat match goal with
           | |- context [Z.eqb ?x ?y] => destruct (Z.eqb_spec x y); cbn [negb]
           end; lia.
Qed.

Lemma compareSortKeys_order_witness :
  date (key (mkDescriptor "x/061901-111901.txt" (mkKey None 6 19 1))) = None.
Proof.
  apply (proj1 (proj2 compareSortKeys_order)
           [mkDescriptor "2025/01/27/112256-162256.txt"
              (mkKey (Some (mkDate 2025 1 27)) 11 22 56);
            mkDescriptor "x/061901-111901.txt" (mkKey None 6 19 1);
            mkDescriptor "x/235959-235959.txt" (mkKey None 23 59 59)]
           []
           (mkDescriptor "x/061901-111901.txt" (mkKey None 6 19 1))
           [mkDescriptor "x/235959-235959.txt" (mkKey None 23 59 59);
            mkDescriptor "2025/01/27/112256-162256.txt"
              (mkKey (Some (mkDate 2025 1 27)) 11 22 56)]
           (mkDescriptor "x/235959-235959.txt" (mkKey None 23 59 59)));
    [reflexivity | cbn; auto | reflexivity].
Defined.

(** C1, as stated, fails: a key with a date compares greater than a key
    without one, and the sort places the date-absent file first. *)
Lemma compareSortKeys_dated_not_first :
  let dated := mkKey (Some (mkDate 2025 1 27)) 6 19 1 in
  let absent := mkKey None 11 22 56 in
  compareSortKeys dated absent = 1 /\
  ~ compareSortKeys dated absent < 0 /\
  map path (sortStable (fun a b => compareSortKeys (key a) (key b))
              [mkDescriptor "2025/01/27/061901-111901.txt" dated;
               mkDescriptor "x/112256-162256.txt" absent]) =
  ["x/112256-162256.txt"; "2025/01/27/061901-111901.txt"].
Proof. cbn. repeat split. lia. Qed.

(** ** Output path inference *)












Lemma toString_four_digits (y : Z) :
  1000 <= y <= 9999 -> Js.toString y = fourDigits y.
Proof.
  intros Hy.
  assert (Hall : forallb (fun n => String.eqb (Js.toString (1000 + Z.of_nat n))
                                     (fourDigits (1000 + Z.of_nat n)))
                   (seq 0 (Z.to_nat 9000)) = true) by (vm_compute; reflexivity).
  rewrite forallb_forall in Hall.
  specialize (Hall (Z.to_nat (y - 1000))).
  replace (1000 + Z.of_nat (Z.to_nat (y - 1000))) with y in Hall by lia.
  apply String.eqb_eq, Hall, in_seq. lia.
Qed.

Lemma padStart_twoDigits (n : Z) :
  0 <= n <= 99 -> Js.padStart 2 "0" (Js.toString n) = twoDigits n.
Proof.
  intros Hn. unfold twoDigits.
  rewrite <- (padStart_two_digits (n / 10) (n mod 10))
    by (Z.to_euclidean_division_equations; lia).
  do 2 f_equal. Z.to_euclidean_division_equations; lia.
Qed.

(** For a four-digit year and in-range month and day the output file
    name is the fixed-width [YYYY-MM-DD]. *)
Lemma formatDateDashed_digits (d : DateOnly) :
  1000 <= year d <= 9999 -> 1 <= month d <= 12 -> 1 <= day d <= 31 ->
  formatDateDashed d = dashedDate d.
Proof.
  intros Hy Hm Hd. unfold formatDateDashed, dashedDate.
  rewrite (toString_four_digits _ Hy).
  rewrite !padStart_twoDigits by lia. reflexivity.
Qed.

Lemma determineOutputPath_explicit (ordered : list string)
    (descriptors : list Descriptor) (request : MergeRequest) (o : string) :
  output request = Some o -> o <> "" ->
  determineOutputPath ordered descriptors request = Ok o.
Proof.
  unfold determineOutputPath. intros -> Hne. destruct o; [congruence | reflexivity].
Qed.

(** ** Recognised file names *)

Lemma split_single (c : ascii) (a : string) :
  charFree c a = true -> Js.split c a = [a].
Proof.
  induction a as [| x a IH]; cbn; [reflexivity |].
  intros H. apply andb_true_iff in H as [Hx Ha]. apply negb_true_iff in Hx.
  rewrite Hx, (IH Ha). reflexivity.
Qed.

Lemma split_app_sep (c : ascii) (a b : string) :
  charFree c a = true ->
  Js.split c (a +:+ String c b) = a :: Js.split c b.
Proof.
  induction a as [| x a IH]; cbn.
  - intros _. now rewrite Ascii.eqb_refl.
  - intros H. apply andb_true_iff in H as [Hx Ha]. apply negb_true_iff in Hx.
    rewrite Hx, (IH Ha). reflexivity.
Qed.

Lemma allDigits_charFree (c : ascii) (s : string) :
  Js.isDigit c = false -> Js.allDigits s = true -> charFree c s = true.
Proof.
  intros Hc. induction s as [| x s IH]; cbn; [reflexivity |].
  intros H. apply andb_true_iff in H as [Hx Hs]. rewrite (IH Hs), andb_true_r.
  destruct (Ascii.eqb_spec x c) as [-> |]; [congruence | reflexivity].
Qed.

Lemma digitsExactly_charFree (c : ascii) (n : nat) (s : string) :
  Js.isDigit c = false -> Js.digitsExactly n s = true -> charFree c s = true.
Proof.
  intros Hc H. apply andb_true_iff in H as [_ H]. now apply allDigits_charFree.
Qed.

Lemma looksLikeFlatFormat_shape (name : string) :
  looksLikeFlatFormat name = true <->
  exists startPart, flatShape name startPart.
Proof.
  unfold looksLikeFlatFormat, flatShape. split.
  - pose proof (join_split "_" name) as Hjoin.
    destruct (Js.split "_" name) as [| p0 [| p1 [| p2 [| ? ?]]]]; try discriminate.
    destruct (Js.digitsExactly 8 p0) eqn:E0;
      [| rewrite orb_true_r; discriminate].
    destruct (Js.digitsExactly 6 p1) eqn:E1;
      [| rewrite !orb_true_r; destruct (_ || _); discriminate].
    destruct (Js.digitsExactly 6 p2) eqn:E2;
      [| rewrite !orb_true_r; repeat destruct (_ || _); discriminate].
    intros _. exists p1, p0, p2. cbn in Hjoin. auto.
  - intros (st & d & e & -> & Hd & Hs & He). cbn [append].
    rewrite split_app_sep by (eapply digitsExactly_charFree; [reflexivity | eassumption]).
    rewrite split_app_sep by (eapply digitsExactly_charFree; [reflexivity | eassumption]).
    rewrite split_single by (eapply digitsExactly_charFree; [reflexivity | eassumption]).
    rewrite Hd, Hs, He.
    pose proof Hd as Hd'. pose proof Hs as Hs'. pose proof He as He'.
    apply andb_true_iff in Hd' as [-> _]. apply andb_true_iff in Hs' as [-> _].
    apply andb_true_iff in He' as [-> _]. reflexivity.
Qed.

Lemma flatShape_split (name startPart : string) :
  flatShape name startPart ->
  exists datePart endPart,
    Js.split "_" name = [datePart; startPart; endPart] /\
    Js.digitsExactly 8 datePart = true /\ Js.digitsExactly 6 startPart = true.
Proof.
  intros (d & e & -> & Hd & Hs & He). exists d, e. cbn [append].
  rewrite split_app_sep by (eapply digitsExactly_charFree; [reflexivity | eassumption]).
  rewrite split_app_sep by (eapply digitsExactly_charFree; [reflexivity | eassumption]).
  rewrite split_single by (eapply digitsExactly_charFree; [reflexivity | eassumption]).
  auto.
Qed.

Lemma looksLikeNestedFormat_shape (name : string) :
  looksLikeNestedFormat name = true <->
  exists startPart, nestedShape name startPart.
Proof.
  unfold looksLikeNestedFormat, nestedShape. split.
  - pose proof (join_split "-" name) as Hjoin.
    destruct (Js.split "-" name) as [| p0 [| p1 [| ? ?]]]; try discriminate.
    destruct (Js.digitsExactly 6 p0) eqn:E0;
      [| rewrite orb_true_r; discriminate].
    destruct (Js.digitsExactly 6 p1) eqn:E1;
      [| rewrite !orb_true_r; destruct (_ || _); discriminate].
    intros _. exists p0, p1. cbn in Hjoin. auto.
  - intros (st & e & -> & Hs & He). cbn [append].
    rewrite split_app_sep by (eapply digitsExactly_charFree; [reflexivity | eassumption]).
    rewrite split_single by (eapply digitsExactly_charFree; [reflexivity | eassumption]).
    rewrite Hs, He.
    pose proof Hs as Hs'. pose proof He as He'.
    apply andb_true_iff in Hs' as [-> _]. apply andb_true_iff in He' as [-> _].
    reflexivity.
Qed.

Lemma nestedShape_split (name startPart : string) :
  nestedShape name startPart ->
  exists endPart,
    Js.split "-" name = [startPart; endPart] /\ Js.digitsExactly 6 startPart = true.
Proof.
  intros (e & -> & Hs & He). exists e. cbn [append].
  rewrite split_app_sep by (eapply digitsExactly_charFree; [reflexivity | eassumption]).
  rewrite split_single by (eapply digitsExactly_charFree; [reflexivity | eassumption]).
  auto.
Qed.

Lemma parseTimeDigits_range (startPart : string) :
  Js.digitsExactly 6 startPart = true ->
  (startInRange startPart -> exists t, parseTimeDigits startPart = Some t) /\
  (~ startInRange startPart -> parseTimeDigits startPart = None).
Proof.
  intros Hd. unfold parseTimeDigits, startInRange. rewrite Hd.
  pose proof Hd as Hd'. apply andb_true_iff in Hd' as [-> _]. cbn [negb orb].
  destruct (Z.gtb_spec (Js.parseInt (Js.sliceTo 2 startPart)) 23);
    destruct (Z.gtb_spec (Js.parseInt (Js.sliceTo 2 (Js.sliceFrom 2 startPart))) 59);
    destruct (Z.gtb_spec (Js.parseInt (Js.sliceTo 2 (Js.sliceFrom 4 startPart))) 59);
    cbn [orb]; split; intros Hrange; try reflexivity;
    try (eexists; reflexivity); exfalso; lia.
Qed.

Lemma nestedShape_not_flat (name startPart : string) :
  nestedShape name startPart -> looksLikeFlatFormat name = false.
Proof.
  intros (e & -> & Hs & He). unfold looksLikeFlatFormat.
  rewrite split_single; [reflexivity |].
  rewrite !charFree_app.
  rewrite (digitsExactly_charFree "_" 6 startPart), (digitsExactly_charFree "_" 6 e);
    auto.
Qed.

Lemma startInRange_dec (startPart : string) :
  startInRange startPart \/ ~ startInRange startPart.
Proof. unfold startInRange. lia. Qed.

Lemma parseFlat_shape (filepath name startPart : string) :
  flatShape name startPart ->
  parseFlat filepath name =
  match parseTimeDigits startPart with
  | Some t =>
      Ok (mkKey (Some (mkDate (Js.parseInt (Js.sliceTo 4 (nth 0 (Js.split "_" name) "")))
                         (Js.parseInt (Js.sliceTo 2 (Js.sliceFrom 4 (nth 0 (Js.split "_" name) ""))))
                         (Js.parseInt (Js.sliceFrom 6 (nth 0 (Js.split "_" name) "")))))
            (hours t) (minutes t) (seconds t))
  | None => Err (UnrecognizedFilenameError filepath)
  end.
Proof.
  intros Hshape. destruct (flatShape_split _ _ Hshape) as (d & e & Hsplit & Hd & Hs).
  unfold parseFlat, DATE_COMPACT_REGEX_exec. rewrite Hsplit. cbn [nth].
  rewrite Hd. reflexivity.
Qed.

Lemma parseNested_shape (filepath name startPart : string) :
  nestedShape name startPart ->
  parseNested filepath name =
  match parseTimeDigits startPart with
  | Some t =>
      Ok (mkKey (extractDateFromPath filepath) (hours t) (minutes t) (seconds t))
  | None => Err (UnrecognizedFilenameError filepath)
  end.
Proof.
  intros Hshape. destruct (nestedShape_split _ _ Hshape) as (e & Hsplit & Hs).
  unfold parseNested. rewrite Hsplit. reflexivity.
Qed.

(** [getSortKey] succeeds exactly on recognised names and otherwise
    throws [UnrecognizedFilename] carrying the path it was given. *)
Lemma getSortKey_cases (filepath : string) :
  (recognizedName filepath /\ exists k, getSortKey filepath = Ok k) \/
  (~ recognizedName filepath /\
   getSortKey filepath = Err (UnrecognizedFilenameError filepath)).
Proof.
  unfold getSortKey, recognizedName. cbn zeta.
  set (name := removeExtension (Path.basename filepath)).
  destruct (looksLikeFlatFormat name) eqn:Eflat.
  - apply looksLikeFlatFormat_shape in Eflat as Hshape. destruct Hshape as [st Hshape].
    rewrite (parseFlat_shape filepath name st Hshape).
    destruct Hshape as (d & e & Hname & Hd & Hs & He).
    assert (Hshape : flatShape name st) by (exists d, e; auto).
    destruct (parseTimeDigits_range st Hs) as [Hin Hout].
    destruct (startInRange_dec st) as [Hr | Hr].
    + left. destruct (Hin Hr) as [t ->]. split; [| eauto].
      exists st. auto.
    + right. rewrite (Hout Hr). split; [| reflexivity].
      intros (st' & [Hf | Hn] & Hr').
      * destruct (flatShape_split _ _ Hshape) as (? & ? & E1 & _).
        destruct (flatShape_split _ _ Hf) as (? & ? & E2 & _).
        rewrite E1 in E2. injection E2 as _ <- _. contradiction.
      * apply nestedShape_not_flat in Hn. congruence.
  - destruct (looksLikeNestedFormat name) eqn:Enested.
    + apply looksLikeNestedFormat_shape in Enested as Hshape.
      destruct Hshape as [st Hshape].
      rewrite (parseNested_shape filepath name st Hshape).
      destruct (nestedShape_split _ _ Hshape) as (e & Hsplit & Hs).
      destruct (parseTimeDigits_range st Hs) as [Hin Hout].
      destruct (startInRange_dec st) as [Hr | Hr].
      * left. destruct (Hin Hr) as [t ->]. split; [| eauto]. exists st. auto.
      * right. rewrite (Hout Hr). split; [| reflexivity].
        intros (st' & [Hf | Hn] & Hr').
        -- assert (looksLikeFlatFormat name = true)
             by (apply looksLikeFlatFormat_shape; eauto).
           congruence.
        -- destruct (nestedShape_split _ _ Hn) as (? & E2 & _).
           rewrite Hsplit in E2. injection E2 as <- _. contradiction.
    + right. split; [| reflexivity].
      intros (st' & [Hf | Hn] & _).
      * assert (looksLikeFlatFormat name = true)
          by (apply looksLikeFlatFormat_shape; eauto).
        congruence.
      * assert (looksLikeNestedFormat name = true)
          by (apply looksLikeNestedFormat_shape; eauto).
        congruence.
Qed.

Lemma mapM_describe_cons (x : string) (l : list string) :
  mapM describe (x :: l) =
  match getSortKey x with
  | Ok k =>
      match mapM describe l with
      | Ok ds => Ok (mkDescriptor x k :: ds)
      | Err e => Err e
      end
  | Err e => Err e
  end.
Proof.
  cbn [mapM]. unfold describe. destruct (getSortKey x); [| reflexivity].
  cbn. destruct (mapM _ l); reflexivity.
Qed.

(** Key extraction over the collected paths stops at the first
    unrecognised one. *)
Lemma mapM_describe_first (collected : list string) :
  (exists p, In p collected /\ ~ recognizedName p) ->
  exists before q after,
    collected = before ++ q :: after /\
    Forall recognizedName before /\ ~ recognizedName q /\
    mapM describe collected = Err (UnrecognizedFilenameError q).
Proof.
  induction collected as [| x l IH]; intros (p & Hp & Hbad); [destruct Hp |].
  destruct (getSortKey_cases x) as [[Hrec [k Ek]] | [Hrec Ek]].
  - destruct Hp as [-> | Hp]; [contradiction |].
    destruct (IH (ex_intro _ p (conj Hp Hbad))) as (before & q & after & -> & Hb & Hq & E).
    exists (x :: before), q, after. repeat split; auto.
    rewrite mapM_describe_cons, Ek, E. reflexivity.
  - exists [], x, l. repeat split; auto.
    rewrite mapM_describe_cons, Ek. reflexivity.
Qed.

Lemma mapM_describe_Ok (collected : list string) (descriptors : list Descriptor) :
  mapM describe collected = Ok descriptors ->
  map path descriptors = collected /\ Forall recognizedName collected.
Proof.
  revert descriptors. induction collected as [| x l IH]; intros descriptors.
  - intros [= <-]. split; [reflexivity | constructor].
  - rewrite mapM_describe_cons.
    destruct (getSortKey_cases x) as [[Hrec [k Ek]] | [Hrec Ek]]; rewrite Ek;
      [| discriminate].
    destruct (mapM describe l) as [ds |]; [| discriminate].
    intros [= <-]. destruct (IH ds eq_refl) as [Hm Hf].
    cbn. rewrite Hm. split; [reflexivity | constructor; assumption].
Qed.

(** ** Files, links and locations *)

Lemma follow_File (fuel : nat) (m : gmap string Node) (location content : string) :
  m !! location = Some (File content) ->
  follow fuel m location = Some (location, content).
Proof. intros H. destruct fuel; cbn; now rewrite H. Qed.

Lemma follow_lookup (fuel : nat) (m : gmap string Node) (location l c : string) :
  follow fuel m location = Some (l, c) -> m !! l = Some (File c).
Proof.
  revert location. induction fuel as [| fuel IH]; intros location; cbn;
    destruct (m !! location) as [[content | target] |] eqn:E;
    try discriminate; try (intros [= <- <-]; exact E).
  apply IH.
Qed.

Lemma follow_start (fuel : nat) (m : gmap string Node) (location : string)
    (r : string * string) :
  follow fuel m location = Some r -> is_Some (m !! location).
Proof.
  destruct fuel; cbn; destruct (m !! location); try discriminate; eauto.
Qed.



(** What a path denotes after a replacement: the new file, or what it
    denoted before. *)
Lemma follow_insert (fuel : nat) (m : gmap string Node) (L c' location : string)
    (r : string * string) :
  follow fuel (<[L := File c']> m) location = Some r ->
  r = (L, c') \/ follow fuel m location = Some r.
Proof.
  revert location. induction fuel as [| fuel IH]; intros location; cbn;
    (destruct (decide (L = location)) as [<- | Hne];
     [rewrite lookup_insert_eq; intros [= <-]; now left |
      rewrite lookup_insert_ne by exact Hne]);
    destruct (m !! location) as [[content | target] |]; auto.
Qed.


(** ** The merge orchestration *)

Section MergeFacts.

Variable locate : string -> string.
Variable resolve : string -> string.
Variable glob : gmap string Node -> string -> option (list string).
Variable denied : gmap string Node -> Operation -> option string.

Lemma Fs_bind_run {A B} (m : Fs A) (f : A -> Fs B) (w : World) :
  (m ≫= f) w =
  match m w with
  | (Ok a, w') => f a w'
  | (Err e, w') => (Err e, w')
  end.
Proof. reflexivity. Qed.

Lemma Sys_bind_run {A B} (m : Sys A) (f : A -> Sys B) (w : World) :
  (m ≫= f) w =
  match m w with
  | (Ok a, w') => f a w'
  | (Err e, w') => (Err e, w')
  end.
Proof. reflexivity. Qed.

Lemma existsIn_true (m : gmap string Node) (p : string) :
  existsIn locate m p = true <-> exists l c, lookupFile locate m p = Some (l, c).
Proof.
  unfold existsIn. rewrite bool_decide_eq_true. split.
  - intros [[l c] H]. eauto.
  - intros (l & c & H). eauto.
Qed.

Lemma existsIn_false (m : gmap string Node) (p : string) :
  existsIn locate m p = false <-> lookupFile locate m p = None.
Proof.
  unfold existsIn. rewrite bool_decide_eq_false. split.
  - intros H. destruct (lookupFile locate m p) eqn:E; [| reflexivity].
    exfalso. apply H. eauto.
  - intros -> [x Hx]. discriminate.
Qed.

Lemma canonicalIn_found (m : gmap string Node) (p l c : string) :
  lookupFile locate m p = Some (l, c) -> canonicalIn locate resolve m p = l.
Proof. unfold canonicalIn. now intros ->. Qed.

Lemma contentOf_found (m : gmap string Node) (p l c : string) :
  lookupFile locate m p = Some (l, c) -> contentOf locate m p = c.
Proof. unfold contentOf. now intros ->. Qed.

(** The canonical form of an existing path is the location of a regular
    file. *)
Lemma canonicalIn_File (m : gmap string Node) (p : string) :
  existsIn locate m p = true ->
  m !! canonicalIn locate resolve m p = Some (File (contentOf locate m p)).
Proof.
  intros (l & c & H)%existsIn_true.
  rewrite (canonicalIn_found _ _ _ _ H), (contentOf_found _ _ _ _ H).
  exact (follow_lookup _ _ _ _ _ H).
Qed.

Lemma expandPatterns_world (pats collected : list string) (w : World) :
  snd (expandPatterns glob pats collected w) = w.
Proof.
  revert collected. induction pats as [| pattern rest IH]; intros collected; cbn.
  - reflexivity.
  - destruct (glob (store w) pattern) as [[| m ms] |]; cbn; auto.
Qed.

Lemma statSize_run (p : string) (w : World) :
  io (statSize locate denied p) w =
  match denied (store w) (Stat p) with
  | Some message => (Err (IOError message), w)
  | None =>
      match lookupFile locate (store w) p with
      | Some (_, content) => (Ok (Z.of_nat (String.length content)), w)
      | None => (Err (IOError (enoent p)), w)
      end
  end.
Proof.
  unfold io, statSize, attempt.
  destruct (denied (store w) (Stat p)); [reflexivity |].
  destruct (lookupFile locate (store w) p) as [[l c] |]; reflexivity.
Qed.

Lemma checkSizes_world (collected : list string) (w : World) :
  snd (checkSizes locate denied collected w) = w.
Proof.
  induction collected as [| p rest IH]; cbn [checkSizes]; [reflexivity |].
  rewrite Fs_bind_run, statSize_run.
  destruct (denied (store w) (Stat p)); [reflexivity |].
  destruct (lookupFile locate (store w) p) as [[l content] |]; [| reflexivity].
  destruct (_ >? MAX_FILE_SIZE); [reflexivity | exact IH].
Qed.

Lemma checkSizes_exists (collected : list string) (w : World) :
  fst (checkSizes locate denied collected w) = Ok tt ->
  forall p, In p collected -> existsIn locate (store w) p = true.
Proof.
  induction collected as [| q rest IH]; cbn [checkSizes]; [intros _ p [] |].
  rewrite Fs_bind_run, statSize_run.
  destruct (denied (store w) (Stat q)); [discriminate |].
  destruct (lookupFile locate (store w) q) as [[l content] |] eqn:E; [| discriminate].
  destruct (_ >? MAX_FILE_SIZE); [discriminate |].
  intros H p [<- | Hp]; [| now apply IH].
  apply existsIn_true. eauto.
Qed.

(** The phases of [executeMerge], one after the other. *)
Lemma executeMerge_run (request : MergeRequest) (w : World) :
  executeMerge locate resolve glob denied request w =
  match fst (expandPatterns glob (patterns request) [] w) with
  | Err e => (Err e, w)
  | Ok collected =>
      match fst (checkSizes locate denied collected w) with
      | Err e => (Err e, w)
      | Ok _ =>
          match mapM describe collected with
          | Err e => (Err e, w)
          | Ok unsorted =>
              let descriptors :=
                sortStable (fun a b => compareSortKeys (key a) (key b)) unsorted in
              let ordered := deduplicate descriptors in
              match determineOutputPath ordered descriptors request with
              | Err e => (Err e, w)
              | Ok outputPath =>
                  let sources :=
                    sourcesOf locate resolve (store w) ordered
                      (canonicalIn locate resolve (store w) outputPath) in
                  match writeMergedFile locate denied sources outputPath w with
                  | (Err message, w1) => (Err (IOError message), w1)
                  | (Ok _, w1) =>
                      if negb (noDelete request) then
                        match deleteSources locate resolve denied sources outputPath w1 with
                        | (Err message, w2) => (Err (IOError message), w2)
                        | (Ok _, w2) => (Ok (mkOutcome sources outputPath), w2)
                        end
                      else (Ok (mkOutcome sources outputPath), w1)
                  end
              end
          end
      end
  end.
Proof.
  unfold executeMerge. rewrite Fs_bind_run.
  pose proof (expandPatterns_world (patterns request) [] w) as Hw.
  destruct (expandPatterns glob (patterns request) [] w) as [[collected | e] w0];
    cbn [fst snd] in *; subst w0; [| reflexivity].
  rewrite Fs_bind_run.
  pose proof (checkSizes_world collected w) as Hw.
  destruct (checkSizes locate denied collected w) as [[[] | e] w0];
    cbn [fst snd] in *; subst w0; [| reflexivity].
  rewrite Fs_bind_run. unfold liftResult at 1.
  destruct (mapM describe collected) as [unsorted | e]; [| reflexivity].
  cbn zeta. rewrite Fs_bind_run. unfold liftResult at 1.
  destruct (determineOutputPath _ _ request) as [outputPath | e]; [| reflexivity].
  rewrite Fs_bind_run. rewrite Fs_bind_run.
  rewrite Fs_bind_run. unfold io at 1.
  destruct (writeMergedFile locate denied _ outputPath w) as [[[] | e] w1]; [| reflexivity].
  rewrite Fs_bind_run.
  destruct (noDelete request); cbn [negb]; [reflexivity |].
  unfold io.
  destruct (deleteSources locate resolve denied _ outputPath w1) as [[[] | e] w2];
    reflexivity.
Qed.

Lemma readFileSync_run (p : string) (w : World) :
  readFileSync locate denied p w =
  match denied (store w) (ReadFile p) with
  | Some message => (Err message, w)
  | None =>
      match lookupFile locate (store w) p with
      | Some (location, content) =>
          (Ok content, mkWorld (store w) (trace w ++ [Read location]))
      | None => (Err (enoent p), w)
      end
  end.
Proof. reflexivity. Qed.

(** Reading changes no file and logs one read per source, in order; on
    success every source existed and the text is [mergedContent]. *)
Lemma readSegments_run (sources : list string) (merged : string) (w : World) :
  let r := readSegments locate denied sources merged w in
  store (snd r) = store w /\
  (exists done_,
      trace (snd r) =
        trace w ++ map (fun f => Read (canonicalIn locate resolve (store w) f)) done_ /\
      (forall text, fst r = Ok text -> done_ = sources)) /\
  (forall text,
      fst r = Ok text ->
      text = mergedContent (map (contentOf locate (store w)) sources) merged /\
      forall f, In f sources -> existsIn locate (store w) f = true).
Proof.
  cbn zeta. revert merged w.
  induction sources as [| f rest IH]; intros merged w; cbn [readSegments].
  - cbn. split; [reflexivity |]. split.
    + exists []. cbn. rewrite app_nil_r. auto.
    + intros text [= <-]. split; [reflexivity | intros f []].
  - rewrite Sys_bind_run, readFileSync_run.
    destruct (denied (store w) (ReadFile f)) as [message |].
    { cbn. split; [reflexivity |]. split.
      - exists []. cbn. rewrite app_nil_r. split; [reflexivity | discriminate].
      - discriminate. }
    destruct (lookupFile locate (store w) f) as [[l content] |] eqn:E.
    + match goal with
      | |- context [readSegments locate denied rest ?m ?w1] =>
          destruct (IH m w1) as (Hs & (done_ & Ht & Hd) & Hok)
      end.
      cbn [store trace] in Hs, Ht, Hok.
      split; [exact Hs |]. split.
      * exists (f :: done_). rewrite Ht, <- app_assoc. cbn [map].
        rewrite (canonicalIn_found _ _ _ _ E). split; [reflexivity |].
        intros text Htext. now rewrite (Hd text Htext).
      * intros text Htext. destruct (Hok text Htext) as [-> Hex].
        split.
        -- cbn [map mergedContent]. rewrite (contentOf_found _ _ _ _ E).
           destruct rest; reflexivity.
        -- intros g [<- | Hg]; [| now apply Hex].
           apply existsIn_true. eauto.
    + cbn. split; [reflexivity |]. split.
      * exists []. cbn. rewrite app_nil_r. split; [reflexivity | discriminate].
      * discriminate.
Qed.

Lemma deleteLoop_step (f : string) (rest : list string) (oc : string) (w : World) :
  deleteLoop locate resolve denied (f :: rest) oc w =
  if String.eqb (canonicalIn locate resolve (store w) f) oc
  then deleteLoop locate resolve denied rest oc w
  else match denied (store w) (Remove f) with
       | Some message => (Err message, w)
       | None =>
           match store w !! locate f with
           | Some _ =>
               deleteLoop locate resolve denied rest oc
                 (mkWorld (delete (locate f) (store w))
                          (trace w ++ [Unlink (locate f)]))
           | None => (Err (enoent f), w)
           end
       end.
Proof.
  cbn [deleteLoop]. rewrite Sys_bind_run.
  change (canonical locate resolve f w)
    with (@Ok string string (canonicalIn locate resolve (store w) f), w).
  cbn beta iota.
  destruct (String.eqb _ oc); [reflexivity |].
  rewrite Sys_bind_run. unfold unlinkSync, attempt.
  destruct (denied (store w) (Remove f)); [reflexivity |].
  destruct (store w !! locate f); reflexivity.
Qed.

(** Deleting removes only what is at the location of a given path and
    logs exactly the removals; it never removes a regular file at
    [outputCanonical]. *)
Lemma deleteLoop_run (sources : list string) (outputCanonical : string) (w : World) :
  let r := deleteLoop locate resolve denied sources outputCanonical w in
  exists removed,
    trace (snd r) = trace w ++ map Unlink removed /\
    (forall k, In k removed -> exists f, In f sources /\ k = locate f) /\
    (forall k, ~ In k removed -> store (snd r) !! k = store w !! k) /\
    (forall k, In k removed -> store (snd r) !! k = None) /\
    ((exists c, store w !! outputCanonical = Some (File c)) ->
     ~ In outputCanonical removed).
Proof.
  cbn zeta. revert w.
  induction sources as [| f rest IH]; intros w.
  - exists []. cbn. rewrite app_nil_r. repeat split; tauto.
  - rewrite deleteLoop_step.
    destruct (String.eqb_spec (canonicalIn locate resolve (store w) f) outputCanonical)
      as [Heq | Hne].
    + destruct (IH w) as (removed & Ht & Hk & Hs & Hg & Ho).
      exists removed. repeat split; try assumption.
      intros k Hin. destruct (Hk k Hin) as (g & ? & ?).
      exists g. split; [now right | assumption].
    + destruct (denied (store w) (Remove f)).
      { exists []. cbn. rewrite app_nil_r. repeat split; tauto. }
      destruct (store w !! locate f) as [node |] eqn:E.
      * match goal with
        | |- context [deleteLoop locate resolve denied rest outputCanonical ?w1] =>
            destruct (IH w1) as (removed & Ht & Hk & Hs & Hg & Ho)
        end.
        cbn [store trace] in Ht, Hs, Ho.
        exists (locate f :: removed). split; [| split; [| split; [| split]]].
        -- rewrite Ht, <- app_assoc. reflexivity.
        -- intros k [<- | Hin]; [exists f; split; [now left | reflexivity] |].
           destruct (Hk k Hin) as (g & ? & ?).
           exists g. split; [now right | assumption].
        -- intros k Hnot. rewrite Hs by (intros H; apply Hnot; now right).
           apply lookup_delete_ne. intros Hk'. apply Hnot. now left.
        -- intros k Hin. destruct (in_dec string_dec k removed) as [Hr | Hr];
             [now apply Hg |].
           destruct Hin as [<- | Hin]; [| contradiction].
           rewrite Hs by exact Hr. apply lookup_delete_eq.
        -- intros [c Hc] [Heq | Hin].
           ++ apply Hne. unfold canonicalIn, lookupFile.
              rewrite Heq, (follow_File _ _ _ _ Hc). reflexivity.
           ++ apply Ho; [| exact Hin].
              exists c. rewrite lookup_delete_ne; [exact Hc |].
              intros Heq. apply Hne. unfold canonicalIn, lookupFile.
              rewrite Heq, (follow_File _ _ _ _ Hc). reflexivity.
      * exists []. cbn. rewrite app_nil_r. repeat split; tauto.
Qed.

(** C9 (as the code has it).  Once pattern expansion and the size guard
    have passed, a collected path whose bare name has neither numeric
    shape, or whose start time is out of range, makes [executeMerge]
    fail with [UnrecognizedFilename] naming the first such path in
    collection order, with the file system and the trace exactly as they
    were: nothing written, nothing deleted. *)
Theorem executeMerge_unrecognized (request : MergeRequest) (w : World)
    (collected : list string) :
  fst (expandPatterns glob (patterns request) [] w) = Ok collected ->
  fst (checkSizes locate denied collected w) = Ok tt ->
  (exists p, In p collected /\ ~ recognizedName p) ->
  exists before q after,
    collected = before ++ q :: after /\
    Forall recognizedName before /\ ~ recognizedName q /\
    executeMerge locate resolve glob denied request w =
      (Err (UnrecognizedFilenameError q), w).
Proof.
  intros Hexp Hsize Hbad.
  destruct (mapM_describe_first collected Hbad) as (before & q & after & E & Hb & Hq & Hm).
  exists before, q, after. repeat split; try assumption.
  rewrite executeMerge_run, Hexp, Hsize, Hm. reflexivity.
Qed.

Lemma sourcesOf_In (m : gmap string Node) (ordered : list string)
    (outputCanonical f : string) :
  In f (sourcesOf locate resolve m ordered outputCanonical) <->
  In f ordered /\ canonicalIn locate resolve m f <> outputCanonical.
Proof.
  unfold sourcesOf. rewrite filter_In, negb_true_iff, String.eqb_neq.
  reflexivity.
Qed.


(** Two existing paths at one location denote one file. *)
Lemma canonicalIn_locate (m : gmap string Node) (f g : string) :
  locate f = locate g ->
  existsIn locate m f = true ->
  canonicalIn locate resolve m f = canonicalIn locate resolve m g.
Proof.
  intros Heq (l & c & H)%existsIn_true.
  rewrite (canonicalIn_found _ _ _ _ H).
  unfold lookupFile in H. rewrite Heq in H.
  now rewrite (canonicalIn_found _ _ _ _ H).
Qed.

(** An existing path located at a regular file denotes that file. *)
Lemma canonicalIn_at_File (m : gmap string Node) (f c : string) :
  m !! locate f = Some (File c) -> canonicalIn locate resolve m f = locate f.
Proof.
  intros H. apply (canonicalIn_found _ _ _ c). now apply follow_File.
Qed.

Lemma writeMergedFile_run (files : list string) (outputPath : string) (w : World) :
  writeMergedFile locate denied files outputPath w =
  match readSegments locate denied files "" w with
  | (Err message, w1) => (Err message, w1)
  | (Ok merged, w1) =>
      let parentDir := Path.dirname outputPath in
      match
        (if negb (String.eqb parentDir "") && negb (String.eqb parentDir ".")
         then denied (store w1) (MakeDir parentDir) else None)
      with
      | Some message => (Err message, w1)
      | None =>
          match denied (store w1) (Replace outputPath merged) with
          | Some message => (Err message, w1)
          | None =>
              (Ok tt, mkWorld (<[locate outputPath := File merged]> (store w1))
                              (trace w1 ++ [Write (locate outputPath) merged]))
          end
      end
  end.
Proof.
  unfold writeMergedFile. rewrite Sys_bind_run.
  destruct (readSegments locate denied files "" w) as [[merged | message] w1];
    [| reflexivity].
  cbn zeta. rewrite Sys_bind_run.
  destruct (negb (String.eqb _ "") && negb (String.eqb _ ".")).
  - unfold mkdirSync, attempt at 1.
    destruct (denied (store w1) (MakeDir _)); [reflexivity |].
    cbn. unfold atomicWrite, attempt.
    destruct (denied (store w1) (Replace _ _)); reflexivity.
  - cbn. unfold atomicWrite, attempt.
    destruct (denied (store w1) (Replace _ _)); reflexivity.
Qed.

(** A successful [writeMergedFile]: every source existed and was read in
    order, and the merged text was put at the location of the output. *)
Lemma writeMergedFile_Ok (files : list string) (outputPath : string) (w w' : World) :
  writeMergedFile locate denied files outputPath w = (Ok tt, w') ->
  let merged := mergedContent (map (contentOf locate (store w)) files) "" in
  (forall f, In f files -> existsIn locate (store w) f = true) /\
  w' = mkWorld (<[locate outputPath := File merged]> (store w))
         (trace w ++ map (fun f => Read (canonicalIn locate resolve (store w) f)) files ++
          [Write (locate outputPath) merged]).
Proof.
  rewrite writeMergedFile_run.
  destruct (readSegments_run files "" w) as (Hstore & (done_ & Htrace & Hdone) & Hok).
  destruct (readSegments locate denied files "" w) as [[text | e] w1];
    cbn [fst snd] in *; [| discriminate].
  destruct (Hok text eq_refl) as [Htext Hex]. rewrite (Hdone text eq_refl) in Htrace.
  cbn zeta.
  match goal with
  | |- context [if ?b then denied ?m ?o else None] =>
      destruct (if b then denied m o else None); [discriminate |]
  end.
  destruct (denied (store w1) (Replace _ _)); [discriminate |].
  intros [= <-]. split; [exact Hex |].
  rewrite Hstore, Htrace, <- Htext, <- app_assoc. reflexivity.
Qed.

Lemma deleteSources_run (sources : list string) (outputPath : string) (w : World) :
  deleteSources locate resolve denied sources outputPath w =
  deleteLoop locate resolve denied sources
    (canonicalIn locate resolve (store w) outputPath) w.
Proof. reflexivity. Qed.

(** C2 (as the code has it).  When the explicit output path is
    canonically equal to one of the expanded input paths, that input is
    left out of the sources: it is never read and never deleted, no
    remaining source denotes the same file, and a regular file holding
    the concatenation of the remaining sources only is put at the
    location of the output path, in the place of what was there.  When
    the input file itself is at that location its content is thereby
    replaced; when something else is there (a symbolic link to the
    file), that is replaced and the file keeps its content. *)
Theorem executeMerge_output_among_inputs (request : MergeRequest) (w w' : World)
    (out : string) (collected : list string) (p : string) (outcome : MergeOutcome) :
  output request = Some out -> out <> "" ->
  fst (expandPatterns glob (patterns request) [] w) = Ok collected ->
  In p collected ->
  canonicalIn locate resolve (store w) p = canonicalIn locate resolve (store w) out ->
  executeMerge locate resolve glob denied request w = (Ok outcome, w') ->
  let merged :=
    mergedContent (map (contentOf locate (store w)) (files outcome)) "" in
  let file := canonicalIn locate resolve (store w) p in
  outputPath outcome = out /\
  ~ In p (files outcome) /\
  Forall (fun f => canonicalIn locate resolve (store w) f <> file) (files outcome) /\
  (exists removed,
      trace w' =
        trace w ++
        map (fun f => Read (canonicalIn locate resolve (store w) f)) (files outcome) ++
        [Write (locate out) merged] ++ map Unlink removed /\
      ~ In file removed /\ ~ In (locate p) removed /\ ~ In (locate out) removed) /\
  store w' !! locate out = Some (File merged) /\
  (locate out <> file ->
   store w' !! file = Some (File (contentOf locate (store w) p))).
Proof.
  intros Hout Hne Hexp Hp Hcanon. rewrite executeMerge_run, Hexp.
  destruct (fst (checkSizes locate denied collected w)) as [[] | e] eqn:Hsize;
    [| discriminate].
  pose proof (checkSizes_exists collected w Hsize p Hp) as Hpex.
  pose proof (canonicalIn_File _ _ Hpex) as Hfile.
  destruct (mapM describe collected) as [unsorted | e]; [| discriminate].
  cbn zeta. rewrite (determineOutputPath_explicit _ _ request out Hout Hne).
  rewrite <- Hcanon.
  set (file := canonicalIn locate resolve (store w) p) in *.
  set (ordered := deduplicate _).
  set (sources := sourcesOf locate resolve (store w) ordered file).
  destruct (writeMergedFile locate denied sources out w) as [[[] | e] w1] eqn:Ew;
    [| discriminate].
  apply writeMergedFile_Ok in Ew as [Hex Hw1]. cbn zeta in Hw1.
  set (merged := mergedContent (map (contentOf locate (store w)) sources) "") in *.
  assert (Hsrc : Forall (fun f => canonicalIn locate resolve (store w) f <> file) sources).
  { apply List.Forall_forall. intros f Hf. now apply sourcesOf_In in Hf as [_ Hf]. }
  assert (Hnotp : ~ In p sources).
  { intros Hin. now apply sourcesOf_In in Hin as [_ Hin]. }
  assert (Hout1 : store w1 !! locate out = Some (File merged))
    by (rewrite Hw1; apply lookup_insert_eq).
  assert (Hkeep : locate out <> file ->
                  store w1 !! file = Some (File (contentOf locate (store w) p))).
  { intros Hd. rewrite Hw1. cbn [store]. now rewrite lookup_insert_ne. }
  destruct (noDelete request); cbn [negb].
  - intros [= <- <-]. cbn [files outputPath].
    repeat split; try assumption.
    exists []. rewrite Hw1. cbn [map trace]. rewrite app_nil_r.
    repeat split; auto.
  - rewrite deleteSources_run, (canonicalIn_at_File _ _ _ Hout1).
    destruct (deleteLoop_run sources (locate out) w1)
      as (removed & Ht & Hk & Hs & _ & Ho).
    destruct (deleteLoop locate resolve denied sources (locate out) w1)
      as [[[] | e] w2]; cbn [fst snd] in *; [| discriminate].
    intros [= <- <-]. cbn [files outputPath].
    specialize (Ho (ex_intro _ merged Hout1)).
    assert (Hnf : ~ In file removed).
    { intros Hin. destruct (Hk _ Hin) as (f & Hf & Heq).
      rewrite List.Forall_forall in Hsrc. apply (Hsrc f Hf).
      pose proof Hfile as Hat. rewrite Heq in Hat.
      rewrite (canonicalIn_at_File _ _ _ Hat). now symmetry. }
    repeat split; try assumption.
    + exists removed. rewrite Ht, Hw1. cbn [trace]. rewrite <- !app_assoc.
      repeat split; try assumption.
      intros Hin. destruct (Hk _ Hin) as (f & Hf & Heq).
      rewrite List.Forall_forall in Hsrc. apply (Hsrc f Hf).
      symmetry. apply canonicalIn_locate; assumption.
    + now rewrite (Hs _ Ho).
    + intros Hd. rewrite (Hs _ Hnf). now apply Hkeep.
Qed.

End MergeFacts.

(** ** The merge on sample file systems *)

Lemma unrecognized_by_evaluation (filepath : string) (e : MergeError) :
  getSortKey filepath = Err e -> ~ recognizedName filepath.
Proof.
  intros E. destruct (getSortKey_cases filepath) as [[_ [k Hk]] | [H _]];
    [congruence | exact H].
Qed.

Lemma executeMerge_unrecognized_witness :
  exists before q after,
    [Sample.late; Sample.notes] = before ++ q :: after /\
    Forall recognizedName before /\ ~ recognizedName q /\
    runMerge "/w" Sample.lateAndNotes Sample.withNotes =
      (Err (UnrecognizedFilenameError q), mkWorld Sample.withNotes []).
Proof.
  apply (executeMerge_unrecognized (Path.resolve "/w") (Path.resolve "/w")
           (plainGlob "/w") permissive Sample.lateAndNotes (mkWorld Sample.withNotes [])
           [Sample.late; Sample.notes]).
  - vm_compute. reflexivity.
  - vm_compute. reflexivity.
  - exists Sample.notes. split; [right; left; reflexivity |].
    apply (unrecognized_by_evaluation Sample.notes
             (UnrecognizedFilenameError Sample.notes)).
    vm_compute. reflexivity.
Defined.

Example executeMerge_notes :
  runMerge "/w" Sample.lateAndNotes Sample.withNotes =
  (Err (UnrecognizedFilenameError Sample.notes), mkWorld Sample.withNotes []).
Proof. vm_compute. reflexivity. Qed.

(** C9, as stated, fails: a name whose end-time field is out of range
    ([99:66:99], which the six-digit time rule rejects) is accepted, and
    the merge writes its output and deletes the source. *)
Lemma executeMerge_accepts_bad_end_time :
  parseTimeDigits "996699" = None /\
  fst (runMerge "/w" Sample.onlyBadEnd Sample.withBadEnd) =
    Ok (mkOutcome [Sample.badEnd] "2025/01/27/2025-01-27.txt") /\
  trace (snd (runMerge "/w" Sample.onlyBadEnd Sample.withBadEnd)) =
    [Read "/w/2025/01/27/112256-996699.txt";
     Write "/w/2025/01/27/2025-01-27.txt" ("segment" +:+ Js.NL);
     Unlink "/w/2025/01/27/112256-996699.txt"].
Proof. vm_compute. repeat split. Qed.

Lemma executeMerge_output_among_inputs_witness :
  exists outcome w',
    runMerge "/w" Sample.intoLatest Sample.dayFilesLinked = (Ok outcome, w') /\
    outputPath outcome = Sample.latest /\
    ~ In Sample.late (files outcome) /\
    store w' !! "/w/latest.txt" = Some (File ("early segment" +:+ Js.NL)) /\
    store w' !! "/w/2025/01/27/112256-162256.txt" =
      Some (File ("late segment" +:+ Js.NL)).
Proof.
  exists (mkOutcome [Sample.early] Sample.latest),
         (snd (runMerge "/w" Sample.intoLatest Sample.dayFilesLinked)).
  assert (Hrun : runMerge "/w" Sample.intoLatest Sample.dayFilesLinked =
                 (Ok (mkOutcome [Sample.early] Sample.latest),
                  snd (runMerge "/w" Sample.intoLatest Sample.dayFilesLinked)))
    by (vm_compute; reflexivity).
  split; [exact Hrun |].
  destruct (executeMerge_output_among_inputs (Path.resolve "/w") (Path.resolve "/w")
              (plainGlob "/w") permissive Sample.intoLatest
              (mkWorld Sample.dayFilesLinked [])
              (snd (runMerge "/w" Sample.intoLatest Sample.dayFilesLinked))
              Sample.latest [Sample.early; Sample.late] Sample.late
              (mkOutcome [Sample.early] Sample.latest))
    as (H1 & H2 & _ & _ & H5 & H6).
  - reflexivity.
  - discriminate.
  - vm_compute. reflexivity.
  - right. left. reflexivity.
  - vm_compute. reflexivity.
  - exact Hrun.
  - split; [exact H1 |]. split; [exact H2 |]. split; [exact H5 |].
    apply H6. vm_compute. discriminate.
Defined.

(** Merging into the path of the later segment itself replaces its
    content. *)
Example executeMerge_into_input :
  exists w',
    runMerge "/w" Sample.intoLate Sample.dayFiles =
      (Ok (mkOutcome [Sample.early] Sample.late), w') /\
    store w' !! "/w/2025/01/27/112256-162256.txt" =
      Some (File ("early segment" +:+ Js.NL)).
Proof. eexists. split; vm_compute; reflexivity. Qed.

(** C2, as stated, fails in its last part: merging into the path of one
    of the inputs leaves the output holding the other segment only; the
    content the file held before occurs nowhere in it. *)
Lemma executeMerge_overwrites_input :
  let r := runMerge "/w" Sample.intoLate Sample.dayFiles in
  Sample.dayFiles !! "/w/2025/01/27/112256-162256.txt" =
    Some (File ("late segment" +:+ Js.NL)) /\
  fst r = Ok (mkOutcome [Sample.early] Sample.late) /\
  store (snd r) !! "/w/2025/01/27/112256-162256.txt" =
    Some (File ("early segment" +:+ Js.NL)) /\
  Js.occurrences ("late segment" +:+ Js.NL) ("early segment" +:+ Js.NL) = 0%nat /\
  Js.occurrences ("late segment" +:+ Js.NL) ("early segment" +:+ Js.NL) <> 1%nat.
Proof. vm_compute. repeat split. discriminate. Qed.

(** C10 on the code: a path listed twice with a different path of equal
    sort key in between survives deduplication, so the returned list
    repeats it; with deletion enabled the second removal of the same
    file fails after the output was written and both files removed. *)
Theorem executeMerge_repeats_path :
  fst (runMerge "/w" Sample.twinsKeep Sample.twins) =
    Ok (mkOutcome [Sample.twinA; Sample.twinB; Sample.twinA] "out.txt") /\
  ~ List.NoDup [Sample.twinA; Sample.twinB; Sample.twinA] /\
  fst (runMerge "/w" Sample.twinsDelete Sample.twins) =
    Err (IOError ("ENOENT " +:+ Sample.twinA)) /\
  trace (snd (runMerge "/w" Sample.twinsDelete Sample.twins)) =
    [Read "/w/d/20250127_112256_162256.txt";
     Read "/w/d/20250127_112256_170000.txt";
     Read "/w/d/20250127_112256_162256.txt";
     Write "/w/out.txt" ("a" +:+ Js.NL +:+ "b" +:+ Js.NL +:+ "a" +:+ Js.NL);
     Unlink "/w/d/20250127_112256_162256.txt";
     Unlink "/w/d/20250127_112256_170000.txt"].
Proof.
  split; [vm_compute; reflexivity |]. split.
  - intros H. apply List.NoDup_cons_iff in H as [H _]. apply H. right. left. reflexivity.
  - split; vm_compute; reflexivity.
Qed.

(** The worked examples of the specification. *)

Example adjustTranscript_speakers :
  adjustTranscript
    ("00:00:01 Speaker 1" +:+ Js.NL +:+ "Line" +:+ Js.NL +:+ "00:00:05 Speaker 2" +:+ Js.NL)
    (mkTime 18 1 12) (mkDate 2024 12 25) =
  Ok (mkUpdate
        ("18:01:13 Speaker 1" +:+ Js.NL +:+ "Line" +:+ Js.NL +:+ "18:01:17 Speaker 2" +:+ Js.NL)
        (DateTime.mk 2024 12 25 18 1 13) (DateTime.mk 2024 12 25 18 1 17) false).
Proof. reflexivity. Qed.

Example executeMerge_nested_day :
  let r := runMerge "/w" (mkRequest [Sample.late; Sample.early] None false)
             Sample.dayFiles in
  fst r = Ok (mkOutcome [Sample.early; Sample.late] "2025/01/27/2025-01-27.txt") /\
  map_to_list (store (snd r)) =
    [("/w/2025/01/27/2025-01-27.txt",
      File ("early segment" +:+ Js.NL +:+ "late segment" +:+ Js.NL))].
Proof. vm_compute. split; reflexivity. Qed.

Example looksLikeNestedFormat_samples :
  looksLikeNestedFormat "112256-162256" = true /\
  looksLikeNestedFormat "meeting-notes" = false /\
  looksLikeNestedFormat "2025-01-27" = false /\
  looksLikeNestedFormat "11225-162256" = false /\
  looksLikeNestedFormat "1122567-162256" = false /\
  looksLikeFlatFormat "20250127_112256_162256" = true /\
  looksLikeFlatFormat "20250127_112256" = false.
Proof. repeat split. Qed.

(** * Further properties of the code *)

(** ** Datetime comparison *)

Lemma compareDateTime_le (a b : DateTime.t) :
  compareDateTime a b <= 0 <-> ~ dateTimeLt b a.
Proof.
  unfold compareDateTime, dateTimeLt, lexLt3.
  repeat match goal with
         | |- context [Z.eqb ?x ?y] => destruct (Z.eqb_spec x y); cbn [negb]
         end; lia.
Qed.

Lemma dateTimeLt_trans (a b c : DateTime.t) :
  ~ dateTimeLt b a -> ~ dateTimeLt c b -> ~ dateTimeLt c a.
Proof. unfold dateTimeLt, lexLt3. lia. Qed.

Lemma compareDateTime_trans (a b c : DateTime.t) :
  compareDateTime a b <= 0 -> compareDateTime b c <= 0 -> compareDateTime a c <= 0.
Proof. rewrite !compareDateTime_le. apply dateTimeLt_trans. Qed.

(** X1.  [compareDateTime] is a comparator of a total order: it returns
    zero exactly on equal datetimes, swapping the arguments swaps the
    sign, and "not greater" is transitive. *)
Theorem compareDateTime_total_order (a b c : DateTime.t) :
  (compareDateTime a b = 0 <-> a = b) /\
  (compareDateTime a b < 0 <-> compareDateTime b a > 0) /\
  (compareDateTime a b <= 0 -> compareDateTime b c <= 0 ->
   compareDateTime a c <= 0).
Proof.
  split; [| split; [| apply compareDateTime_trans]].
  - destruct a, b. unfold compareDateTime. cbn.
    repeat match goal with
           | |- context [Z.eqb ?x ?y] => destruct (Z.eqb_spec x y); cbn [negb]
           end; split; intros H; try lia; try congruence;
      try (injection H; intros; lia).
    f_equal; lia.
  - unfold compareDateTime.
    repeat match goal with
           | |- context [Z.eqb ?x ?y] => destruct (Z.eqb_spec x y); cbn [negb]
           end; lia.
Qed.

Lemma compareDateTime_total_order_witness :
  compareDateTime (DateTime.mk 2024 12 25 10 0 0) (DateTime.mk 2024 12 26 10 0 0) <= 0.
Proof.
  apply (proj2 (proj2 (compareDateTime_total_order
                         (DateTime.mk 2024 12 25 10 0 0)
                         (DateTime.mk 2024 12 25 11 0 0)
                         (DateTime.mk 2024 12 26 10 0 0))));
    vm_compute; discriminate.
Defined.

(** ** Times, seconds and their textual form *)

Lemma digitChar_value (d : Z) :
  0 <= d <= 9 ->
  Js.isDigit (Js.digitChar d) = true /\ Js.digitValue (Js.digitChar d) = d.
Proof. intros H. enum_digit d; split; reflexivity. Qed.

Lemma twoDigits_shape (hh mm ss : Z) :
  0 <= hh <= 99 -> 0 <= mm <= 99 -> 0 <= ss <= 99 ->
  timeShape (twoDigits hh +:+ ":" +:+ twoDigits mm +:+ ":" +:+ twoDigits ss) hh mm ss.
Proof.
  intros Hh Hm Hs. unfold timeShape, twoDigits.
  assert (Hd : forall n, 0 <= n <= 99 -> 0 <= n / 10 <= 9 /\ 0 <= n mod 10 <= 9)
    by (intros n Hn; Z.to_euclidean_division_equations; lia).
  destruct (Hd hh Hh) as [H1 H2], (Hd mm Hm) as [H3 H4], (Hd ss Hs) as [H5 H6].
  destruct (digitChar_value _ H1) as [D1 V1], (digitChar_value _ H2) as [D2 V2],
    (digitChar_value _ H3) as [D3 V3], (digitChar_value _ H4) as [D4 V4],
    (digitChar_value _ H5) as [D5 V5], (digitChar_value _ H6) as [D6 V6].
  eexists _, _, _, _, _, _. split; [reflexivity |].
  rewrite V1, V2, V3, V4, V5, V6.
  repeat split; try assumption; Z.to_euclidean_division_equations; lia.
Qed.

Lemma formatTime_twoDigits (t : Time) :
  0 <= hours t <= 99 -> 0 <= minutes t <= 99 -> 0 <= seconds t <= 99 ->
  formatTime t =
  twoDigits (hours t) +:+ ":" +:+ twoDigits (minutes t) +:+ ":" +:+ twoDigits (seconds t).
Proof.
  intros Hh Hm Hs. unfold formatTime. now rewrite !padStart_twoDigits.
Qed.

Lemma parseTime_formatted (t : Time) :
  validTime t -> parseTime (formatTime t) = Some t.
Proof.
  intros (Hh & Hm & Hs). rewrite formatTime_twoDigits by lia.
  destruct t as [hh mm ss]. cbn [hours minutes seconds] in *.
  apply parseTime_of_shape; [apply twoDigits_shape |..]; lia.
Qed.

(** X2.  Formatting a valid time and parsing the text gives the time
    back: [parseTime(formatTime(t)) = t] for hours 0..23 and minutes and
    seconds 0..59. *)
Theorem formatTime_parseTime (t : Time) :
  validTime t -> parseTime (formatTime t) = Some t.
Proof. apply parseTime_formatted. Qed.

Lemma formatTime_parseTime_witness :
  parseTime (formatTime (mkTime 9 5 3)) = Some (mkTime 9 5 3).
Proof. apply formatTime_parseTime. unfold validTime. cbn. lia. Defined.

Lemma secondsToTime_inverse (t : Time) :
  validTime t -> secondsToTimeWithOverflow (timeToSeconds t) = (t, 0).
Proof.
  destruct t as [hh mm ss]. intros (Hh & Hm & Hs). cbn [hours minutes seconds] in *.
  unfold secondsToTimeWithOverflow, timeToSeconds. cbn [hours minutes seconds].
  f_equal; [f_equal |]; Z.to_euclidean_division_equations; lia.
Qed.

(** X3.  On valid times [secondsToTimeWithOverflow] inverts
    [timeToSeconds] with no day overflow, and any non-negative number of
    seconds splits into whole days plus a valid time of day. *)
Theorem secondsToTimeWithOverflow_timeToSeconds :
  (forall t, validTime t -> secondsToTimeWithOverflow (timeToSeconds t) = (t, 0)) /\
  (forall total,
      0 <= total ->
      let r := secondsToTimeWithOverflow total in
      validTime (fst r) /\ 0 <= snd r /\
      total = snd r * 86400 + timeToSeconds (fst r)).
Proof.
  split.
  - apply secondsToTime_inverse.
  - intros total Hnn. cbn zeta.
    destruct (secondsToTimeWithOverflow_spec total Hnn) as (Hd & Hv & _ & Ht).
    split; [exact Hv |]. split; [| exact Ht].
    rewrite Hd. Z.to_euclidean_division_equations; lia.
Qed.

Lemma secondsToTimeWithOverflow_timeToSeconds_witness :
  secondsToTimeWithOverflow (timeToSeconds (mkTime 18 1 12)) = (mkTime 18 1 12, 0).
Proof.
  apply (proj1 secondsToTimeWithOverflow_timeToSeconds).
  unfold validTime. cbn. lia.
Defined.

(** ** The adjusted text, line by line *)

Lemma split_join (c : ascii) (l : list string) :
  l <> [] -> Forall (fun part => charFree c part = true) l ->
  Js.split c (Js.join (String c "") l) = l.
Proof.
  induction l as [| a l IH]; [congruence |]. intros _ Hall.
  apply Forall_cons in Hall as [Ha Hl]. destruct l as [| b l].
  - cbn. now apply split_single.
  - rewrite join_cons by discriminate.
    change (a +:+ String c "" +:+ Js.join (String c "") (b :: l))
      with (a +:+ String c (Js.join (String c "") (b :: l))).
    rewrite split_app_sep by assumption. f_equal. now apply IH.
Qed.

Lemma sliceTo_sliceFrom (n : nat) (s : string) :
  Js.sliceTo n s +:+ Js.sliceFrom n s = s.
Proof.
  revert s. induction n as [| n IH]; intros [| x s]; cbn; try reflexivity.
  f_equal. apply IH.
Qed.

Lemma applyOffset_time (start relative : Time) (effectiveDate : DateOnly) :
  validTime start -> validTime relative ->
  validTime (timeOf (applyOffset start effectiveDate relative)).
Proof.
  intros Hs Hr. pose proof (timeToSeconds_range _ Hs). pose proof (timeToSeconds_range _ Hr).
  destruct (secondsToTimeWithOverflow_spec
              (timeToSeconds start + timeToSeconds relative)) as (_ & Hv & _);
    [lia |].
  unfold applyOffset.
  destruct (secondsToTimeWithOverflow _) as [[hh mm ss] days]. exact Hv.
Qed.

Lemma parseTimestampLine_formatted (t : Time) (rest : string) :
  validTime t -> parseTimestampLine (formatTime t +:+ rest) = Some (t, rest).
Proof.
  intros Hv. pose proof (parseTime_formatted t Hv) as Hparse.
  destruct Hv as (Hh & Hm & Hs). rewrite formatTime_twoDigits in * by lia.
  unfold parseTimestampLine, twoDigits in *. cbn in *. rewrite Hparse. reflexivity.
Qed.

Lemma adjustedText_parse (baseTime : Time) (effectiveDate : DateOnly) (line : string)
    (t : Time) (rest : string) :
  validTime baseTime -> parseTimestampLine line = Some (t, rest) ->
  parseTimestampLine (adjustedText baseTime effectiveDate line) =
  Some (timeOf (applyOffset baseTime effectiveDate t), rest).
Proof.
  intros Hb E. unfold adjustedText. rewrite E.
  apply parseTimestampLine_formatted, applyOffset_time; [assumption |].
  apply parseTimestampLine_Some in E as (_ & E & _).
  now destruct (parseTime_shape _ _ E).
Qed.

Lemma adjustTranscript_body_lines (contents : string) (baseTime : Time)
    (effectiveDate : DateOnly) (r : TranscriptUpdate) :
  adjustTranscript contents baseTime effectiveDate = Ok r ->
  body r = Js.join Js.NL (map (adjustedText baseTime effectiveDate)
                            (Js.split Js.LF contents)) /\
  Js.split Js.LF (body r) =
    map (adjustedText baseTime effectiveDate) (Js.split Js.LF contents).
Proof.
  rewrite adjustTranscript_closed. cbn zeta.
  destruct (head _) as [first |]; [| discriminate].
  destruct (last _) as [final |]; [| discriminate].
  intros [= <-]. cbn [body]. split; [reflexivity |].
  apply split_join.
  - pose proof (split_not_nil Js.LF contents).
    destruct (Js.split Js.LF contents); [congruence | discriminate].
  - pose proof (split_charFree Js.LF contents) as Hfree.
    induction Hfree as [| line lines Hline Hlines IH]; cbn [map]; constructor;
      [| exact IH].
    now destruct (adjustedText_alike baseTime effectiveDate line Hline) as (_ & H & _).
Qed.

(** X4.  The body has the lines of the input, one for one: a line
    without a leading timestamp is passed through unchanged, and a line
    with one still carries a timestamp, now the adjusted time of day,
    followed by the same remainder. *)
Theorem adjustTranscript_lines (contents : string) (baseTime : Time)
    (effectiveDate : DateOnly) (r : TranscriptUpdate) :
  validTime baseTime ->
  adjustTranscript contents baseTime effectiveDate = Ok r ->
  Forall2
    (fun line line' =>
       (parseTimestampLine line = None -> line' = line) /\
       (forall t rest,
           parseTimestampLine line = Some (t, rest) ->
           parseTimestampLine line' =
           Some (timeOf (applyOffset baseTime effectiveDate t), rest)))
    (Js.split Js.LF contents) (Js.split Js.LF (body r)).
Proof.
  intros Hb Hr. destruct (adjustTranscript_body_lines _ _ _ _ Hr) as [_ ->].
  induction (Js.split Js.LF contents) as [| line lines IH]; cbn [map]; constructor;
    [| exact IH].
  split.
  - intros E. unfold adjustedText. now rewrite E.
  - intros t rest E. now apply adjustedText_parse.
Qed.

Lemma adjustTranscript_lines_witness :
  Forall2
    (fun line line' =>
       (parseTimestampLine line = None -> line' = line) /\
       (forall t rest,
           parseTimestampLine line = Some (t, rest) ->
           parseTimestampLine line' =
           Some (timeOf (applyOffset (mkTime 18 1 12) (mkDate 2024 12 25) t), rest)))
    ["00:00:01 Speaker 1"; "Line"; ""]
    ["18:01:13 Speaker 1"; "Line"; ""].
Proof.
  apply (adjustTranscript_lines
           ("00:00:01 Speaker 1" +:+ Js.NL +:+ "Line" +:+ Js.NL)
           (mkTime 18 1 12) (mkDate 2024 12 25)
           (mkUpdate ("18:01:13 Speaker 1" +:+ Js.NL +:+ "Line" +:+ Js.NL)
              (DateTime.mk 2024 12 25 18 1 13) (DateTime.mk 2024 12 25 18 1 13) false)).
  - unfold validTime. cbn. lia.
  - reflexivity.
Defined.

Lemma adjustedText_midnight (effectiveDate : DateOnly) (line : string) :
  adjustedText (mkTime 0 0 0) effectiveDate line = line.
Proof.
  unfold adjustedText.
  destruct (parseTimestampLine line) as [[t rest] |] eqn:E; [| reflexivity].
  apply parseTimestampLine_Some in E as (_ & E & ->).
  destruct (parseTime_shape _ _ E) as [Hshape Hv].
  assert (Htime : timeOf (applyOffset (mkTime 0 0 0) effectiveDate t) = t).
  { unfold applyOffset. change (timeToSeconds (mkTime 0 0 0)) with 0.
    rewrite Z.add_0_l.
    rewrite (secondsToTime_inverse t Hv).
    now destruct t. }
  rewrite Htime. destruct t as [hh mm ss]. cbn [hours minutes seconds] in Hshape.
  rewrite (formatTime_of_shape _ _ _ _ Hshape). apply sliceTo_sliceFrom.
Qed.

(** X5.  Adjusting with base time 00:00:00 changes nothing: every
    timestamp is rewritten to itself and the body is the input text,
    character for character. *)
Theorem adjustTranscript_midnight_identity (contents : string)
    (effectiveDate : DateOnly) (r : TranscriptUpdate) :
  adjustTranscript contents (mkTime 0 0 0) effectiveDate = Ok r ->
  body r = contents.
Proof.
  intros Hr. destruct (adjustTranscript_body_lines _ _ _ _ Hr) as [-> _].
  rewrite <- (join_split Js.LF contents) at 2. fold Js.NL. f_equal.
  induction (Js.split Js.LF contents) as [| line lines IH]; cbn [map];
    [reflexivity |].
  now rewrite adjustedText_midnight, IH.
Qed.

Lemma adjustTranscript_midnight_identity_witness :
  exists r,
    adjustTranscript ("12:34:56 noon" +:+ Js.NL +:+ Js.NL +:+ "tail")
      (mkTime 0 0 0) (mkDate 2024 12 25) = Ok r /\
    body r = "12:34:56 noon" +:+ Js.NL +:+ Js.NL +:+ "tail".
Proof.
  eexists. split; [reflexivity |].
  apply (adjustTranscript_midnight_identity _ (mkDate 2024 12 25)). reflexivity.
Defined.

(** ** In-order transcripts *)

Lemma compareDateTime_flip (a b : DateTime.t) :
  (compareDateTime b a <? 0) = false -> compareDateTime a b <= 0.
Proof.
  intros H. apply Z.ltb_ge in H. apply compareDateTime_le.
  rewrite <- compareDateTime_lt. lia.
Qed.

Lemma hasDescent_false_sorted (l : list DateTime.t) :
  hasDescent l = false ->
  StronglySorted (fun a b => compareDateTime a b <= 0) l.
Proof.
  intros H. apply Sorted_StronglySorted.
  - intros a b c. apply compareDateTime_trans.
  - induction l as [| a l IH]; [constructor |].
    destruct l as [| b l]; [repeat constructor |].
    rewrite hasDescent_cons2 in H. apply orb_false_iff in H as [Hab Hl].
    constructor; [now apply IH |]. constructor. now apply compareDateTime_flip.
Qed.

Lemma compareDateTime_refl (a : DateTime.t) : compareDateTime a a = 0.
Proof. unfold compareDateTime. rewrite !Z.eqb_refl. cbn. lia. Qed.

Lemma last_In {A} (l : list A) (x : A) : last l = Some x -> In x l.
Proof.
  induction l as [| a l IH]; [discriminate |].
  rewrite last_cons. destruct (last l) as [y |].
  - intros [= <-]. right. now apply IH.
  - intros [= <-]. now left.
Qed.

(** X6.  When no out-of-order timestamp is reported, the adjusted
    datetimes are in non-decreasing order throughout the file, and in
    particular [firstTimestamp] is not later than [lastTimestamp]. *)
Theorem adjustTranscript_chronological (contents : string) (baseTime : Time)
    (effectiveDate : DateOnly) (r : TranscriptUpdate) :
  adjustTranscript contents baseTime effectiveDate = Ok r ->
  hasOutOfOrderTimestamps r = false ->
  StronglySorted (fun a b => compareDateTime a b <= 0)
    (adjustedTimestamps baseTime effectiveDate (Js.split Js.LF contents)) /\
  compareDateTime (firstTimestamp r) (lastTimestamp r) <= 0.
Proof.
  rewrite adjustTranscript_closed. cbn zeta.
  destruct (adjustedTimestamps baseTime effectiveDate (Js.split Js.LF contents))
    as [| first rest] eqn:E; [discriminate |].
  cbn [head]. destruct (last (first :: rest)) as [final |] eqn:El; [| discriminate].
  intros [= <-]. cbn [hasOutOfOrderTimestamps firstTimestamp lastTimestamp].
  intros Hflag. pose proof (hasDescent_false_sorted (first :: rest) Hflag) as Hs.
  split; [exact Hs |].
  apply last_In in El as [<- | Hin].
  - rewrite compareDateTime_refl. lia.
  - apply StronglySorted_inv in Hs as [_ Hall].
    rewrite List.Forall_forall in Hall. now apply Hall.
Qed.

Lemma adjustTranscript_chronological_witness :
  StronglySorted (fun a b => compareDateTime a b <= 0)
    [DateTime.mk 2024 12 25 23 30 1; DateTime.mk 2024 12 26 0 30 0] /\
  compareDateTime (DateTime.mk 2024 12 25 23 30 1) (DateTime.mk 2024 12 26 0 30 0) <= 0.
Proof.
  apply (adjustTranscript_chronological
           ("00:00:01 Start" +:+ Js.NL +:+ "01:00:00 Later" +:+ Js.NL)
           (mkTime 23 30 0) (mkDate 2024 12 25)
           (mkUpdate ("23:30:01 Start" +:+ Js.NL +:+ "00:30:00 Later" +:+ Js.NL)
              (DateTime.mk 2024 12 25 23 30 1) (DateTime.mk 2024 12 26 0 30 0) false));
    reflexivity.
Defined.

(** ** Day arithmetic of [addDays] *)

Lemma yoe_of_doe (yoe doy : Z) :
  0 <= yoe <= 399 -> 0 <= doy <= 365 ->
  (doy = 365 -> (yoe + 1) mod 4 = 0 /\ ((yoe + 1) mod 100 <> 0 \/ yoe = 399)) ->
  let doe := 365 * yoe + yoe / 4 - yoe / 100 + doy in
  0 <= doe <= 146096 /\
  (doe - doe / 1460 + doe / 36524 - doe / 146096) / 365 = yoe.
Proof.
  intros Hy Hd Hleap. cbn zeta. split; Z.to_euclidean_division_equations; lia.
Qed.

(** The civil date of a day number given by era, year of era and day of
    the year counted from 1 March. *)
Lemma civilFromDays_parts (era yoe doy : Z) :
  0 <= yoe <= 399 -> 0 <= doy <= 365 ->
  (doy = 365 -> (yoe + 1) mod 4 = 0 /\ ((yoe + 1) mod 100 <> 0 \/ yoe = 399)) ->
  JsDate.civilFromDays
    (era * 146097 + (yoe * 365 + yoe / 4 - yoe / 100 + doy) - 719468) =
  let mp := (5 * doy + 2) / 153 in
  let m := if mp <? 10 then mp + 3 else mp - 9 in
  (yoe + era * 400 + (if m <=? 2 then 1 else 0), m, doy - (153 * mp + 2) / 5 + 1).
Proof.
  intros Hy Hd Hleap. destruct (yoe_of_doe yoe doy Hy Hd Hleap) as [Hdoe Hyoe].
  cbn zeta in Hdoe, Hyoe. unfold JsDate.civilFromDays. cbn zeta.
  replace (yoe * 365) with (365 * yoe) by lia.
  set (doe := 365 * yoe + yoe / 4 - yoe / 100 + doy) in *.
  replace (era * 146097 + doe - 719468 + 719468) with (doe + era * 146097) by lia.
  rewrite Z.div_add by lia. rewrite (Z.div_small doe 146097) by lia.
  replace (doe + era * 146097 - (0 + era) * 146097) with doe by lia.
  rewrite Hyoe.
  replace (doe - (365 * yoe + yoe / 4 - yoe / 100)) with doy by (unfold doe; lia).
  reflexivity.
Qed.

Lemma daysInMonth_bounds (y m d : Z) :
  1 <= m <= 12 -> 1 <= d <= daysInMonth y m ->
  d <= 31 /\
  (m = 4 \/ m = 6 \/ m = 9 \/ m = 11 -> d <= 30) /\
  (m = 2 -> d <= 29) /\
  (m = 2 -> d = 29 -> y mod 4 = 0 /\ (y mod 100 <> 0 \/ y mod 400 = 0)).
Proof.
  intros Hm. unfold daysInMonth, isLeapYear.
  destruct (Z.eqb_spec m 2); [| destruct (Z.eqb_spec m 4); destruct (Z.eqb_spec m 6);
    destruct (Z.eqb_spec m 9); destruct (Z.eqb_spec m 11); cbn [orb]; lia].
  destruct (Z.eqb_spec (y mod 4) 0); destruct (Z.eqb_spec (y mod 100) 0);
    destruct (Z.eqb_spec (y mod 400) 0); cbn [andb orb negb]; lia.
Qed.

Lemma civil_of_days (y m d : Z) :
  1 <= m <= 12 -> 1 <= d <= daysInMonth y m ->
  JsDate.civilFromDays (JsDate.daysFromCivil y m d) = (y, m, d).
Proof.
  intros Hm Hd. destruct (daysInMonth_bounds y m d Hm Hd) as (H31 & H30 & H29 & Hleap).
  destruct Hd as [Hd1 _].
  assert (Hc : m = 1 \/ m = 2 \/ m = 3 \/ m = 4 \/ m = 5 \/ m = 6 \/ m = 7 \/ m = 8 \/
               m = 9 \/ m = 10 \/ m = 11 \/ m = 12) by lia.
  unfold JsDate.daysFromCivil. cbn zeta.
  destruct (Z.leb_spec m 2) as [Hle | Hgt]; destruct (Z.gtb_spec m 2) as [Hgt' | Hle'];
    try lia.
  - rewrite civilFromDays_parts.
    + cbn zeta.
      assert (Hmp : (5 * ((153 * (m + 9) + 2) / 5 + d - 1) + 2) / 153 = m + 9)
        by (Z.to_euclidean_division_equations; lia).
      rewrite Hmp. destruct (Z.ltb_spec (m + 9) 10); [lia |].
      destruct (Z.leb_spec (m + 9 - 9) 2); [| lia].
      f_equal; [f_equal |]; lia.
    + Z.to_euclidean_division_equations; lia.
    + Z.to_euclidean_division_equations; lia.
    + intros H365. assert (m = 2 /\ d = 29) as [-> ->]
        by (Z.to_euclidean_division_equations; lia).
      destruct (Hleap eq_refl eq_refl) as [H4 H100].
      Z.to_euclidean_division_equations; lia.
  - rewrite civilFromDays_parts.
    + cbn zeta.
      assert (Hmp : (5 * ((153 * (m - 3) + 2) / 5 + d - 1) + 2) / 153 = m - 3)
        by (Z.to_euclidean_division_equations; lia).
      rewrite Hmp. destruct (Z.ltb_spec (m - 3) 10); [| lia].
      destruct (Z.leb_spec (m - 3 + 3) 2); [lia |].
      f_equal; [f_equal |]; lia.
    + Z.to_euclidean_division_equations; lia.
    + Z.to_euclidean_division_equations; lia.
    + intros H365. exfalso. Z.to_euclidean_division_equations; lia.
Qed.

Lemma daysInMonth_value (y m : Z) :
  1 <= m <= 12 ->
  (m = 2 /\ y mod 4 = 0 /\ (y mod 100 <> 0 \/ y mod 400 = 0) /\ daysInMonth y m = 29) \/
  (m = 2 /\ (y mod 4 <> 0 \/ (y mod 100 = 0 /\ y mod 400 <> 0)) /\ daysInMonth y m = 28) \/
  ((m = 4 \/ m = 6 \/ m = 9 \/ m = 11) /\ daysInMonth y m = 30) \/
  ((m = 1 \/ m = 3 \/ m = 5 \/ m = 7 \/ m = 8 \/ m = 10 \/ m = 12) /\
   daysInMonth y m = 31).
Proof.
  intros Hm. unfold daysInMonth, isLeapYear.
  destruct (Z.eqb_spec m 2); [| destruct (Z.eqb_spec m 4); destruct (Z.eqb_spec m 6);
    destruct (Z.eqb_spec m 9); destruct (Z.eqb_spec m 11); cbn [orb]; lia].
  destruct (Z.eqb_spec (y mod 4) 0); destruct (Z.eqb_spec (y mod 100) 0);
    destruct (Z.eqb_spec (y mod 400) 0); cbn [andb orb negb]; lia.
Qed.

Lemma days_of_nextDay (y m d : Z) :
  1 <= m <= 12 -> 1 <= d <= daysInMonth y m ->
  JsDate.daysFromCivil (year (nextDay y m d)) (month (nextDay y m d))
    (day (nextDay y m d)) = JsDate.daysFromCivil y m d + 1.
Proof.
  intros Hm Hd. unfold nextDay.
  destruct (Z.ltb_spec d (daysInMonth y m)) as [Hlt | Hge]; cbn [year month day].
  { unfold JsDate.daysFromCivil. cbn zeta. lia. }
  assert (Hdim : d = daysInMonth y m) by lia. clear Hd Hge.
  pose proof (daysInMonth_value y m Hm) as Hv.
  destruct (Z.ltb_spec m 12) as [Hm12 | Hm12]; cbn [year month day];
    unfold JsDate.daysFromCivil; cbn zeta.
  - destruct (Z.leb_spec m 2); destruct (Z.gtb_spec m 2); try lia;
      destruct (Z.leb_spec (m + 1) 2); destruct (Z.gtb_spec (m + 1) 2); try lia;
      Z.to_euclidean_division_equations; lia.
  - assert (m = 12) by lia. subst m.
    change (12 <=? 2) with false. change (12 >? 2) with true.
    change (1 <=? 2) with true. change (1 >? 2) with false. cbn iota.
    replace (y + 1 - 1) with y by lia.
    Z.to_euclidean_division_equations; lia.
Qed.

(** Every Gregorian date is recovered from its day number, and the next
    calendar day has the next day number. *)
Lemma civil_day (y m d : Z) :
  1 <= m <= 12 -> 1 <= d <= daysInMonth y m ->
  JsDate.civilFromDays (JsDate.daysFromCivil y m d) = (y, m, d) /\
  JsDate.daysFromCivil (year (nextDay y m d)) (month (nextDay y m d))
    (day (nextDay y m d)) = JsDate.daysFromCivil y m d + 1.
Proof.
  intros Hm Hd. split; [now apply civil_of_days | now apply days_of_nextDay].
Qed.

Lemma nextDay_valid (y m d : Z) :
  1 <= m <= 12 -> 1 <= d <= daysInMonth y m -> validDate (nextDay y m d).
Proof.
  intros Hm Hd. unfold validDate, nextDay.
  destruct (Z.ltb_spec d (daysInMonth y m)); cbn [year month day]; [lia |].
  destruct (Z.ltb_spec m 12); cbn [year month day].
  - split; [lia |]. unfold daysInMonth.
    repeat match goal with
           | |- context [if ?b then _ else _] => destruct b
           end; lia.
  - split; [lia |]. unfold daysInMonth. cbn. lia.
Qed.

Lemma daysFromCivil_day (y m d : Z) :
  JsDate.daysFromCivil y m d = JsDate.daysFromCivil y m 1 + d - 1.
Proof. unfold JsDate.daysFromCivil. cbn zeta. lia. Qed.

Lemma MakeDay_month (y m d : Z) :
  1 <= m <= 12 -> JsDate.MakeDay y (m - 1) d = JsDate.daysFromCivil y m d.
Proof.
  intros Hm. unfold JsDate.MakeDay.
  replace ((m - 1) / 12) with 0 by (Z.to_euclidean_division_equations; lia).
  replace ((m - 1) mod 12 + 1) with m by (Z.to_euclidean_division_equations; lia).
  rewrite Z.add_0_r, (daysFromCivil_day y m d). lia.
Qed.

Lemma addDays_one (date : DateOnly) :
  1 <= month date <= 12 ->
  1 <= day date <= daysInMonth (centuryYear (year date)) (month date) ->
  addDays date 1 = nextDay (centuryYear (year date)) (month date) (day date).
Proof.
  destruct date as [y m d]. cbn [year month day]. intros Hm Hd.
  unfold addDays. cbn [year month day]. unfold JsDate.make. fold (centuryYear y).
  set (yr := centuryYear y) in *.
  rewrite (MakeDay_month yr m d Hm).
  destruct (civil_day yr m d Hm Hd) as [Hc Hn].
  unfold JsDate.setDate, JsDate.getDate, JsDate.getFullYear, JsDate.getMonth.
  rewrite Hc. cbn [fst snd].
  replace (m - 1 + 1) with m by lia.
  rewrite (MakeDay_month yr m (d + 1) Hm).
  replace (JsDate.daysFromCivil yr m (d + 1)) with (JsDate.daysFromCivil yr m d + 1)
    by (rewrite (daysFromCivil_day yr m (d + 1)), (daysFromCivil_day yr m d); lia).
  rewrite <- Hn.
  destruct (nextDay_valid yr m d Hm Hd) as [Hm' Hd'].
  destruct (nextDay yr m d) as [y' m' d']. cbn [year month day] in *.
  destruct (civil_day y' m' d' Hm' Hd') as [Hc' _]. rewrite Hc'. cbn [fst snd].
  f_equal. lia.
Qed.

(** X7.  For a Gregorian date, [addDays(date, 1)] is the next calendar
    day: the day after within the month, the first of the next month at
    a month's end (29 February existing in leap years only), and 1
    January of the next year after 31 December.  A year 0..99 is read
    as 1900..1999, as the [Date] constructor does. *)
Theorem addDays_next_day (date : DateOnly) :
  1 <= month date <= 12 ->
  1 <= day date <= daysInMonth (centuryYear (year date)) (month date) ->
  addDays date 1 = nextDay (centuryYear (year date)) (month date) (day date).
Proof. apply addDays_one. Qed.

Lemma addDays_next_day_witness :
  addDays (mkDate 2024 2 29) 1 = mkDate 2024 3 1 /\
  addDays (mkDate 2023 12 31) 1 = mkDate 2024 1 1 /\
  addDays (mkDate 1900 2 28) 1 = mkDate 1900 3 1.
Proof.
  split; [| split].
  - apply (addDays_next_day (mkDate 2024 2 29)); [cbn; lia |].
    change (1 <= 29 <= 29). lia.
  - apply (addDays_next_day (mkDate 2023 12 31)); [cbn; lia |].
    change (1 <= 31 <= 31). lia.
  - apply (addDays_next_day (mkDate 1900 2 28)); [cbn; lia |].
    change (1 <= 28 <= 28). lia.
Defined.

(** ** Ordering and deduplication of the collected paths *)

Lemma compareSortKeys_trans (a b c : FileSortKey) :
  compareSortKeys a b <= 0 -> compareSortKeys b c <= 0 -> compareSortKeys a c <= 0.
Proof.
  unfold compareSortKeys.
  destruct (date a) as [da |], (date b) as [db |], (date c) as [dc |];
    repeat match goal with
           | |- context [Z.eqb ?x ?y] => destruct (Z.eqb_spec x y); cbn [negb]
           end; lia.
Qed.

Lemma dedupeStep_In (ordered : list string) (d : Descriptor) (p : string) :
  In p (dedupeStep ordered d) <-> In p ordered \/ p = path d.
Proof.
  unfold dedupeStep. destruct (last ordered) as [prev |] eqn:E.
  - destruct (String.eqb_spec prev (path d)) as [Heq | Hne]; cbn [negb].
    + split; [auto |]. intros [H | ->]; [exact H |].
      rewrite <- Heq. now apply last_In.
    + rewrite in_app_iff. cbn. intuition congruence.
  - rewrite in_app_iff. cbn. intuition congruence.
Qed.

Lemma dedupe_from_In (ds : list Descriptor) (acc : list string) (p : string) :
  In p (fold_left dedupeStep ds acc) <-> In p acc \/ In p (map path ds).
Proof.
  revert acc. induction ds as [| d ds IH]; intros acc; cbn [fold_left map].
  - cbn. intuition.
  - rewrite IH, dedupeStep_In. cbn. intuition congruence.
Qed.

Lemma noRepeat_snoc (l : list string) (x : string) :
  noRepeat l -> last l <> Some x -> noRepeat (l ++ [x]).
Proof.
  induction l as [| a l IH]; [intros; exact I |].
  destruct l as [| b t].
  - cbn. intros _ H. split; [congruence | exact I].
  - intros [Hab Hn] Hlast. change ((a :: b :: t) ++ [x]) with (a :: b :: (t ++ [x])).
    split; [exact Hab |]. apply IH; [exact Hn |].
    now rewrite last_cons_cons in Hlast.
Qed.

Lemma dedupeStep_noRepeat (ordered : list string) (d : Descriptor) :
  noRepeat ordered -> noRepeat (dedupeStep ordered d).
Proof.
  intros Hn. unfold dedupeStep. destruct (last ordered) as [prev |] eqn:E.
  - destruct (String.eqb_spec prev (path d)) as [Heq | Hne]; cbn [negb];
      [exact Hn |].
    apply noRepeat_snoc; [exact Hn | congruence].
  - apply noRepeat_snoc; [exact Hn | congruence].
Qed.

Lemma dedupe_from_noRepeat (ds : list Descriptor) (acc : list string) :
  noRepeat acc -> noRepeat (fold_left dedupeStep ds acc).
Proof.
  revert acc. induction ds as [| d ds IH]; intros acc Hn; cbn [fold_left];
    [exact Hn |].
  apply IH, dedupeStep_noRepeat, Hn.
Qed.

Lemma dedupe_from_NoDup (ds : list Descriptor) (acc : list string) :
  List.NoDup (acc ++ map path ds) ->
  fold_left dedupeStep ds acc = acc ++ map path ds.
Proof.
  revert acc. induction ds as [| d ds IH]; intros acc Hnd; cbn [fold_left map].
  - now rewrite app_nil_r.
  - assert (Hstep : dedupeStep acc d = acc ++ [path d]).
    { unfold dedupeStep. destruct (last acc) as [prev |] eqn:E; [| reflexivity].
      destruct (String.eqb_spec prev (path d)) as [Heq | Hne]; [| reflexivity].
      exfalso. apply List.NoDup_remove_2 in Hnd. apply Hnd.
      apply in_or_app. left. rewrite <- Heq. now apply last_In. }
    rewrite Hstep, IH; rewrite <- app_assoc; [reflexivity | exact Hnd].
Qed.

(** X8.  Deduplication keeps every path and drops only immediate
    repeats: the result holds the same paths as the sorted descriptors,
    no path in it is directly followed by itself, and a list without
    repeated paths is returned as it is. *)
Theorem deduplicate_adjacent (descriptors : list Descriptor) :
  (forall p, In p (deduplicate descriptors) <-> In p (map path descriptors)) /\
  noRepeat (deduplicate descriptors) /\
  (List.NoDup (map path descriptors) ->
   deduplicate descriptors = map path descriptors).
Proof.
  unfold deduplicate. split; [| split].
  - intros p. rewrite dedupe_from_In. cbn. intuition.
  - apply dedupe_from_noRepeat. exact I.
  - intros Hnd. now rewrite dedupe_from_NoDup.
Qed.

Lemma deduplicate_adjacent_witness :
  deduplicate
    [mkDescriptor "a" (mkKey None 1 2 3); mkDescriptor "b" (mkKey None 1 2 3)] =
  ["a"; "b"].
Proof.
  apply (proj2 (proj2 (deduplicate_adjacent
           [mkDescriptor "a" (mkKey None 1 2 3); mkDescriptor "b" (mkKey None 1 2 3)]))).
  repeat constructor; cbn; intuition discriminate.
Defined.

Lemma StronglySorted_remove {A} (R : A -> A -> Prop) (l1 l2 : list A) (x : A) :
  StronglySorted R (l1 ++ x :: l2) -> StronglySorted R (l1 ++ l2).
Proof.
  induction l1 as [| a l1 IH]; cbn; intros H;
    apply StronglySorted_inv in H as [Hs Hall].
  - exact Hs.
  - constructor; [now apply IH |].
    apply List.Forall_forall. intros y Hy.
    rewrite List.Forall_forall in Hall. apply Hall.
    apply in_app_or in Hy. apply in_or_app. cbn. tauto.
Qed.

Lemma StronglySorted_filter {A} (R : A -> A -> Prop) (f : A -> bool) (l : list A) :
  StronglySorted R l -> StronglySorted R (List.filter f l).
Proof.
  induction 1 as [| a l Hs IH Hall]; cbn; [constructor |].
  destruct (f a); [| exact IH].
  constructor; [exact IH |].
  apply List.Forall_forall. intros y Hy. apply filter_In in Hy as [Hy _].
  rewrite List.Forall_forall in Hall. now apply Hall.
Qed.

Lemma StronglySorted_map_weaken {A B} (R : A -> A -> Prop) (R' : B -> B -> Prop)
    (f : A -> B) (l : list A) :
  (forall a b, In a l -> In b l -> R a b -> R' (f a) (f b)) ->
  StronglySorted R l -> StronglySorted R' (map f l).
Proof.
  intros Hw Hs. induction Hs as [| a l Hs IH Hall]; cbn; [constructor |].
  constructor.
  - apply IH. intros x y Hx Hy. apply Hw; now right.
  - apply List.Forall_forall. intros y Hy. apply in_map_iff in Hy as (b & <- & Hb).
    rewrite List.Forall_forall in Hall.
    apply Hw; [now left | now right | now apply Hall].
Qed.

Lemma dedupe_from_sorted (R : string -> string -> Prop) (ds : list Descriptor)
    (acc : list string) :
  StronglySorted R (acc ++ map path ds) ->
  StronglySorted R (fold_left dedupeStep ds acc).
Proof.
  revert acc. induction ds as [| d ds IH]; intros acc Hs; cbn [fold_left map] in *.
  - now rewrite app_nil_r in Hs.
  - apply IH. unfold dedupeStep.
    destruct (last acc) as [prev |]; [destruct (negb _) |];
      try (rewrite <- app_assoc; exact Hs).
    now apply StronglySorted_remove in Hs.
Qed.

Lemma mapM_describe_keys (collected : list string) (ds : list Descriptor) :
  mapM describe collected = Ok ds ->
  Forall (fun d => getSortKey (path d) = Ok (key d)) ds.
Proof.
  revert ds. induction collected as [| x l IH]; intros ds.
  - intros [= <-]. constructor.
  - rewrite mapM_describe_cons.
    destruct (getSortKey x) as [k |] eqn:Ek; [| discriminate].
    destruct (mapM describe l) as [ds' |]; [| discriminate].
    intros [= <-]. constructor; [exact Ek | now apply IH].
Qed.

(** The deduplicated paths are in key order: none sorts after a later
    one. *)
Lemma ordered_keyOrdered (collected : list string) (unsorted : list Descriptor) :
  mapM describe collected = Ok unsorted ->
  StronglySorted keyOrdered
    (deduplicate (sortStable (fun a b => compareSortKeys (key a) (key b)) unsorted)).
Proof.
  intros Hm. unfold deduplicate. apply dedupe_from_sorted. cbn [app].
  pose proof (mapM_describe_keys _ _ Hm) as Hk. rewrite List.Forall_forall in Hk.
  apply (StronglySorted_map_weaken (fun a b => compareSortKeys (key a) (key b) <= 0)).
  - intros a b Ha Hb Hab. exists (key a), (key b).
    apply sortStable_In in Ha, Hb. repeat split; auto.
  - apply Sorted.Sorted_StronglySorted.
    + intros x y z. apply compareSortKeys_trans.
    + apply sortStable_Sorted. intros x y. apply compareSortKeys_flip.
Qed.

Lemma ordered_In (collected : list string) (unsorted : list Descriptor) (p : string) :
  mapM describe collected = Ok unsorted ->
  In p (deduplicate (sortStable (fun a b => compareSortKeys (key a) (key b)) unsorted)) <->
  In p collected.
Proof.
  intros Hm. destruct (mapM_describe_Ok _ _ Hm) as [Hp _].
  unfold deduplicate. rewrite dedupe_from_In, <- Hp, !in_map_iff. cbn.
  split.
  - intros [[] | (d & <- & Hd)]. exists d. split; [reflexivity |].
    now apply sortStable_In in Hd.
  - intros (d & <- & Hd). right. exists d. split; [reflexivity |].
    now apply sortStable_In.
Qed.

(** ** The merged text *)

Lemma endsWith_app (a b : string) :
  b <> "" -> Js.endsWith (a +:+ b) Js.NL = Js.endsWith b Js.NL.
Proof.
  intros Hb. apply Bool.eq_iff_eq_true.
  pose proof (endsWith_newlineRun (a +:+ b) O) as Hab.
  pose proof (endsWith_newlineRun b (Js.newlineRun O a)) as Hb'.
  rewrite newlineRun_app in Hab.
  split; intros H.
  - assert (H1 : (0 < Js.newlineRun (Js.newlineRun 0 a) b)%nat)
      by (apply Hab; now right).
    apply Hb' in H1 as [[H1 _] | H1]; [contradiction | exact H1].
  - assert (H1 : (0 < Js.newlineRun (Js.newlineRun 0 a) b)%nat) by (apply Hb'; now right).
    apply Hab in H1 as [[_ H1] | H1]; [lia | exact H1].
Qed.

Lemma mergedContent_from (contents : list string) (merged : string) :
  Js.endsWith merged Js.NL = true ->
  mergedContent contents merged = merged +:+ segmentsText false contents.
Proof.
  revert merged. induction contents as [| c rest IH]; intros merged Hm.
  - cbn. now rewrite append_nil_r.
  - cbn [mergedContent segmentsText]. destruct rest as [| r rs]; [reflexivity |].
    unfold segmentText. cbn [negb andb].
    destruct (String.eqb_spec c "") as [-> | Hc].
    + rewrite append_nil_r, Hm, orb_true_r. cbn [negb]. now rewrite IH.
    + rewrite (endsWith_app merged c Hc), orb_false_r.
      destruct (Js.endsWith c Js.NL) eqn:Ec; cbn [negb].
      * rewrite IH by now rewrite endsWith_app. now rewrite append_assoc.
      * rewrite IH by now rewrite endsWith_app by discriminate.
        now rewrite !append_assoc.
Qed.

(** The concatenation in closed form. *)
Lemma mergedContent_segmentsText (contents : list string) :
  mergedContent contents "" = segmentsText true contents.
Proof.
  destruct contents as [| c rest]; [reflexivity |].
  cbn [mergedContent segmentsText]. destruct rest as [| r rs]; [reflexivity |].
  change ("" +:+ c) with c. unfold segmentText. cbn [negb andb].
  rewrite orb_false_r.
  destruct (Js.endsWith c Js.NL) eqn:Ec; cbn [negb]; rewrite mergedContent_from;
    try reflexivity; try exact Ec.
  destruct (String.eqb_spec c "") as [-> | Hc]; [reflexivity |].
  now rewrite endsWith_app by discriminate.
Qed.

(** ** Outcomes of the merge *)

Section MergeOutcomes.

Variable locate : string -> string.
Variable resolve : string -> string.
Variable glob : gmap string Node -> string -> option (list string).
Variable denied : gmap string Node -> Operation -> option string.



Lemma checkSizes_sizes (collected : list string) (w : World) :
  fst (checkSizes locate denied collected w) = Ok tt ->
  forall p, In p collected ->
    Z.of_nat (String.length (contentOf locate (store w) p)) <= MAX_FILE_SIZE.
Proof.
  induction collected as [| q rest IH]; cbn [checkSizes]; [intros _ p [] |].
  rewrite Fs_bind_run, statSize_run.
  destruct (denied (store w) (Stat q)); [discriminate |].
  destruct (lookupFile locate (store w) q) as [[l content] |] eqn:E; [| discriminate].
  destruct (Z.gtb_spec (Z.of_nat (String.length content)) MAX_FILE_SIZE);
    [discriminate |].
  intros Hok p [<- | Hp]; [| now apply IH].
  rewrite (contentOf_found _ _ _ _ _ E). lia.
Qed.

Lemma expandPatterns_app (before rest collected : list string) (w : World) :
  Forall (fun p => exists m ms, glob (store w) p = Some (m :: ms)) before ->
  exists found,
    expandPatterns glob (before ++ rest) collected w =
    expandPatterns glob rest (collected ++ found) w.
Proof.
  revert collected. induction before as [| p before IH]; intros collected Hall.
  - exists []. now rewrite app_nil_r.
  - apply List.Forall_cons_iff in Hall as [(m & ms & Hp) Hall].
    destruct (IH (collected ++ m :: ms) Hall) as [found Hf].
    exists ((m :: ms) ++ found). cbn [app expandPatterns]. rewrite Hp.
    rewrite Hf, <- app_assoc. reflexivity.
Qed.

(** What a successful merge did, phase by phase. *)
Lemma executeMerge_Ok (request : MergeRequest) (w w' : World) (outcome : MergeOutcome) :
  executeMerge locate resolve glob denied request w = (Ok outcome, w') ->
  exists collected unsorted,
    let descriptors :=
      sortStable (fun a b => compareSortKeys (key a) (key b)) unsorted in
    let ordered := deduplicate descriptors in
    let out := outputPath outcome in
    let merged :=
      mergedContent (map (contentOf locate (store w)) (files outcome)) "" in
    let written :=
      mkWorld (<[locate out := File merged]> (store w))
        (trace w ++
         map (fun f => Read (canonicalIn locate resolve (store w) f)) (files outcome) ++
         [Write (locate out) merged]) in
    fst (expandPatterns glob (patterns request) [] w) = Ok collected /\
    fst (checkSizes locate denied collected w) = Ok tt /\
    mapM describe collected = Ok unsorted /\
    determineOutputPath ordered descriptors request = Ok out /\
    files outcome =
      sourcesOf locate resolve (store w) ordered
        (canonicalIn locate resolve (store w) out) /\
    (forall f, In f (files outcome) -> existsIn locate (store w) f = true) /\
    (if noDelete request then w' = written
     else deleteLoop locate resolve denied (files outcome) (locate out) written =
          (Ok tt, w')).
Proof.
  rewrite executeMerge_run.
  destruct (fst (expandPatterns glob (patterns request) [] w))
    as [collected | e] eqn:Hexp; [| discriminate].
  destruct (fst (checkSizes locate denied collected w)) as [[] | e] eqn:Hsize;
    [| discriminate].
  destruct (mapM describe collected) as [unsorted | e] eqn:Hm; [| discriminate].
  cbn zeta.
  destruct (determineOutputPath _ _ request) as [out | e] eqn:Hout; [| discriminate].
  set (ordered := deduplicate _) in *.
  set (sources := sourcesOf locate resolve (store w) ordered _).
  destruct (writeMergedFile locate denied sources out w) as [[[] | e] w1] eqn:Ew;
    [| discriminate].
  apply (writeMergedFile_Ok locate resolve) in Ew as [Hex Hw1]. cbn zeta in Hw1.
  destruct (noDelete request); cbn [negb].
  - intros [= <- <-]. exists collected, unsorted. cbn zeta. cbn [files outputPath].
    repeat split; auto.
  - rewrite deleteSources_run.
    rewrite (canonicalIn_at_File locate resolve _ out
               (mergedContent (map (contentOf locate (store w)) sources) ""))
      by (rewrite Hw1; apply lookup_insert_eq).
    destruct (deleteLoop locate resolve denied sources (locate out) w1)
      as [[[] | e] w2] eqn:Hdel; [| discriminate].
    intros [= <- <-]. exists collected, unsorted. cbn zeta. cbn [files outputPath].
    rewrite <- Hw1. repeat split; auto.
Qed.

(** X9.  A merge that fails for any reason other than a file-system
    error has touched nothing: no file was read, written or removed
    (bad pattern, pattern without match, oversized file, unrecognised
    name, mixed dates and undetermined date are all detected before the
    first read). *)
Theorem executeMerge_failure_unchanged (request : MergeRequest) (w w' : World)
    (e : MergeError) :
  executeMerge locate resolve glob denied request w = (Err e, w') ->
  ~ isIOError e ->
  w' = w.
Proof.
  rewrite executeMerge_run.
  destruct (fst (expandPatterns glob (patterns request) [] w)) as [collected | e0];
    [| now intros [= _ <-]].
  destruct (fst (checkSizes locate denied collected w)) as [[] | e0];
    [| now intros [= _ <-]].
  destruct (mapM describe collected) as [unsorted | e0]; [| now intros [= _ <-]].
  cbn zeta.
  destruct (determineOutputPath _ _ request) as [out | e0]; [| now intros [= _ <-]].
  set (sources := sourcesOf locate resolve (store w) _ _).
  destruct (writeMergedFile locate denied sources out w) as [[[] | message] w1].
  - destruct (noDelete request); cbn [negb]; [discriminate |].
    destruct (deleteSources locate resolve denied sources out w1)
      as [[[] | message] w2]; [discriminate |].
    intros [= <- <-] Hio. exfalso. apply Hio. eexists. reflexivity.
  - intros [= <- <-] Hio. exfalso. apply Hio. eexists. reflexivity.
Qed.

(** X10.  The files a successful merge returns, and concatenates in
    that order, are in key order: no returned file sorts after one
    returned later. *)
Theorem executeMerge_files_sorted (request : MergeRequest) (w w' : World)
    (outcome : MergeOutcome) :
  executeMerge locate resolve glob denied request w = (Ok outcome, w') ->
  StronglySorted keyOrdered (files outcome).
Proof.
  intros Hrun.
  destruct (executeMerge_Ok request w w' outcome Hrun)
    as (collected & unsorted & _ & _ & Hm & _ & Hfiles & _).
  rewrite Hfiles. apply StronglySorted_filter. now apply (ordered_keyOrdered collected).
Qed.

(** X11.  On success every expanded path names an existing file of at
    most [MAX_FILE_SIZE] characters with a recognised name, and the
    returned files are exactly the expanded paths that do not denote
    the output file: no segment is dropped and none is invented. *)
Theorem executeMerge_files_complete (request : MergeRequest) (w w' : World)
    (outcome : MergeOutcome) (collected : list string) :
  fst (expandPatterns glob (patterns request) [] w) = Ok collected ->
  executeMerge locate resolve glob denied request w = (Ok outcome, w') ->
  (forall f, In f (files outcome) <->
             In f collected /\
             canonicalIn locate resolve (store w) f <>
             canonicalIn locate resolve (store w) (outputPath outcome)) /\
  Forall (fun p => existsIn locate (store w) p = true /\
                   Z.of_nat (String.length (contentOf locate (store w) p))
                     <= MAX_FILE_SIZE /\
                   recognizedName p) collected.
Proof.
  intros Hexp Hrun.
  destruct (executeMerge_Ok request w w' outcome Hrun)
    as (collected' & unsorted & Hexp' & Hsize & Hm & _ & Hfiles & _).
  rewrite Hexp in Hexp'. injection Hexp' as <-. split.
  - intros f. rewrite Hfiles, sourcesOf_In.
    rewrite (ordered_In collected unsorted f Hm). reflexivity.
  - destruct (mapM_describe_Ok _ _ Hm) as [_ Hrec].
    rewrite List.Forall_forall in Hrec. apply List.Forall_forall. intros p Hp.
    split; [now apply (checkSizes_exists locate denied collected w) |].
    split; [now apply (checkSizes_sizes collected w) | now apply Hrec].
Qed.



(** X14.  Patterns are expanded in order and the first one that is
    rejected or matches nothing aborts the merge, naming that pattern,
    whatever the remaining patterns match; nothing is read or written. *)
Theorem executeMerge_first_bad_pattern (request : MergeRequest) (w : World)
    (before : list string) (pattern : string) (after : list string) :
  patterns request = before ++ pattern :: after ->
  Forall (fun p => exists m ms, glob (store w) p = Some (m :: ms)) before ->
  (glob (store w) pattern = Some [] ->
   executeMerge locate resolve glob denied request w = (Err (NoMatchesError pattern), w)) /\
  (glob (store w) pattern = None ->
   executeMerge locate resolve glob denied request w =
     (Err (InvalidGlobPatternError pattern), w)).
Proof.
  intros Hp Hall.
  destruct (expandPatterns_app before (pattern :: after) [] w Hall) as [found Hf].
  split; intros Hg; rewrite executeMerge_run, Hp, Hf; cbn [expandPatterns];
    rewrite Hg; reflexivity.
Qed.

End MergeOutcomes.

Lemma executeMerge_failure_unchanged_witness :
  snd (runMerge "/w" Sample.lateAndNotes Sample.withNotes) =
  mkWorld Sample.withNotes [].
Proof.
  apply (executeMerge_failure_unchanged (Path.resolve "/w") (Path.resolve "/w")
           (plainGlob "/w") permissive Sample.lateAndNotes (mkWorld Sample.withNotes [])
           (snd (runMerge "/w" Sample.lateAndNotes Sample.withNotes))
           (UnrecognizedFilenameError Sample.notes)).
  - vm_compute. reflexivity.
  - intros [message H]. discriminate H.
Defined.

Lemma executeMerge_files_sorted_witness :
  StronglySorted keyOrdered [Sample.early; Sample.late].
Proof.
  apply (executeMerge_files_sorted (Path.resolve "/w") (Path.resolve "/w")
           (plainGlob "/w") permissive (mkRequest [Sample.late; Sample.early] None true)
           (mkWorld Sample.dayFiles [])
           (snd (runMerge "/w" (mkRequest [Sample.late; Sample.early] None true)
                   Sample.dayFiles))
           (mkOutcome [Sample.early; Sample.late] "2025/01/27/2025-01-27.txt")).
  vm_compute. reflexivity.
Defined.

Lemma executeMerge_files_complete_witness :
  In Sample.early (files (mkOutcome [Sample.early] Sample.late)) /\
  recognizedName Sample.late.
Proof.
  destruct (executeMerge_files_complete (Path.resolve "/w") (Path.resolve "/w")
              (plainGlob "/w") permissive Sample.intoLate (mkWorld Sample.dayFiles [])
              (snd (runMerge "/w" Sample.intoLate Sample.dayFiles))
              (mkOutcome [Sample.early] Sample.late) [Sample.early; Sample.late])
    as [Hin Hall].
  - vm_compute. reflexivity.
  - vm_compute. reflexivity.
  - split; [left; reflexivity |].
    apply List.Forall_cons_iff in Hall as [_ Hall].
    apply List.Forall_cons_iff in Hall as [(_ & _ & Hrec) _]. exact Hrec.
Defined.



Lemma executeMerge_first_bad_pattern_witness :
  runMerge "/w" (mkRequest [Sample.late; "missing.txt"; Sample.early] None false)
    Sample.dayFiles =
  (Err (NoMatchesError "missing.txt"), mkWorld Sample.dayFiles []).
Proof.
  apply (executeMerge_first_bad_pattern (Path.resolve "/w") (Path.resolve "/w")
           (plainGlob "/w") permissive
           (mkRequest [Sample.late; "missing.txt"; Sample.early] None false)
           (mkWorld Sample.dayFiles []) [Sample.late] "missing.txt" [Sample.early]).
  - reflexivity.
  - constructor; [| constructor]. exists Sample.late, []. vm_compute. reflexivity.
  - vm_compute. reflexivity.
Defined.

(** ** The out-of-order flag and the order of the input *)

Lemma date_before_nextDay (y m d : Z) :
  1 <= m <= 12 -> 1 <= d <= daysInMonth (centuryYear y) m ->
  lexLt3 y m d
    (year (nextDay (centuryYear y) m d)) (month (nextDay (centuryYear y) m d))
    (day (nextDay (centuryYear y) m d)).
Proof.
  intros Hm Hd.
  assert (Hy : y <= centuryYear y) by (unfold centuryYear; destruct (_ && _); lia).
  unfold nextDay, lexLt3.
  destruct (Z.ltb_spec d (daysInMonth (centuryYear y) m)); cbn [year month day];
    [lia |].
  destruct (Z.ltb_spec m 12); cbn [year month day]; lia.
Qed.

(** The adjusted datetime: the time of day of the total, on the base
    date or, past midnight, on the next calendar day. *)
Lemma applyOffset_parts (start relative : Time) (date : DateOnly) :
  validTime start -> validTime relative ->
  1 <= month date <= 12 ->
  1 <= day date <= daysInMonth (centuryYear (year date)) (month date) ->
  let total := timeToSeconds start + timeToSeconds relative in
  exists t,
    validTime t /\ timeToSeconds t = total mod 86400 /\
    applyOffset start date relative =
    createDateTime
      (if total <? 86400 then date
       else nextDay (centuryYear (year date)) (month date) (day date)) t.
Proof.
  intros Hs Hr Hm Hd. cbn zeta.
  pose proof (timeToSeconds_range _ Hs) as Rs.
  pose proof (timeToSeconds_range _ Hr) as Rr.
  destruct (secondsToTimeWithOverflow_spec (timeToSeconds start + timeToSeconds relative))
    as (Ho & Hv & Ht & _); [lia |].
  unfold applyOffset. cbn zeta.
  destruct (secondsToTimeWithOverflow (timeToSeconds start + timeToSeconds relative))
    as [t o]. cbn [fst snd] in *.
  exists t. split; [exact Hv |]. split; [exact Ht |].
  destruct (Z.ltb_spec (timeToSeconds start + timeToSeconds relative) 86400) as [Hlt | Hge].
  - replace o with 0 by (subst o; symmetry; apply Z.div_small; lia). reflexivity.
  - replace o with 1
      by (subst o; Z.to_euclidean_division_equations; lia).
    cbn [Z.gtb Z.compare]. now rewrite addDays_one.
Qed.

(** Adding the base time neither reorders two relative times nor makes
    them equal. *)
Lemma applyOffset_compare (start r1 r2 : Time) (date : DateOnly) :
  validTime start -> validTime r1 -> validTime r2 ->
  1 <= month date <= 12 ->
  1 <= day date <= daysInMonth (centuryYear (year date)) (month date) ->
  (compareDateTime (applyOffset start date r2) (applyOffset start date r1) <? 0) =
  (timeToSeconds r2 <? timeToSeconds r1).
Proof.
  intros Hs H1 H2 Hm Hd.
  destruct (applyOffset_parts start r1 date Hs H1 Hm Hd) as (t1 & V1 & T1 & ->).
  destruct (applyOffset_parts start r2 date Hs H2 Hm Hd) as (t2 & V2 & T2 & ->).
  pose proof (timeToSeconds_range _ Hs) as Rs.
  pose proof (timeToSeconds_range _ H1) as R1.
  pose proof (timeToSeconds_range _ H2) as R2.
  pose proof (date_before_nextDay (year date) (month date) (day date) Hm Hd) as Hnext.
  apply Bool.eq_iff_eq_true. rewrite !Z.ltb_lt, compareDateTime_lt.
  destruct (nextDay _ _ _) as [y' m' d']. cbn [year month day] in Hnext.
  unfold dateTimeLt, lexLt3 in *.
  destruct (Z.ltb_spec (timeToSeconds start + timeToSeconds r1) 86400) as [L1 | L1];
    destruct (Z.ltb_spec (timeToSeconds start + timeToSeconds r2) 86400) as [L2 | L2];
    cbn [createDateTime DateTime.year DateTime.month DateTime.day DateTime.hours
         DateTime.minutes DateTime.seconds year month day].
  all: first [ rewrite Z.mod_small in T1 by lia
             | replace ((timeToSeconds start + timeToSeconds r1) mod 86400)
                 with (timeToSeconds start + timeToSeconds r1 - 86400) in T1
                 by (Z.to_euclidean_division_equations; lia) ].
  all: first [ rewrite Z.mod_small in T2 by lia
             | replace ((timeToSeconds start + timeToSeconds r2) mod 86400)
                 with (timeToSeconds start + timeToSeconds r2 - 86400) in T2
                 by (Z.to_euclidean_division_equations; lia) ].
  all: unfold validTime in V1, V2; unfold timeToSeconds at 1 in T1;
    unfold timeToSeconds at 1 in T2; lia.
Qed.

Lemma stamps_relative (baseTime : Time) (effectiveDate : DateOnly)
    (lines : list string) :
  adjustedTimestamps baseTime effectiveDate lines =
  map (applyOffset baseTime effectiveDate) (relativeTimes lines).
Proof.
  induction lines as [| line lines IH]; [reflexivity |].
  rewrite stamps_cons, IH. unfold relativeTimes, adjustedStamp.
  cbn [omap list_omap].
  destruct (parseTimestampLine line) as [[time rest] |]; reflexivity.
Qed.

Lemma relativeTimes_valid (lines : list string) :
  Forall validTime (relativeTimes lines).
Proof.
  unfold relativeTimes. induction lines as [| line lines IH]; [constructor |].
  cbn [omap list_omap]. destruct (parseTimestampLine line) as [[time rest] |] eqn:E; cbn.
  - constructor; [| exact IH].
    apply parseTimestampLine_Some in E as (_ & E & _).
    now apply parseTime_shape in E.
  - exact IH.
Qed.

Lemma hasDescent_relative (start : Time) (date : DateOnly) (l : list Time) :
  validTime start -> 1 <= month date <= 12 ->
  1 <= day date <= daysInMonth (centuryYear (year date)) (month date) ->
  Forall validTime l ->
  hasDescent (map (applyOffset start date) l) = timeDescent l.
Proof.
  intros Hs Hm Hd. induction 1 as [| a l Ha Hl IH]; [reflexivity |].
  destruct Hl as [| b l Hb Hl]; [reflexivity |].
  change (hasDescent (map (applyOffset start date) (a :: b :: l)))
    with ((compareDateTime (applyOffset start date b) (applyOffset start date a) <? 0)
          || hasDescent (map (applyOffset start date) (b :: l))).
  rewrite IH, (applyOffset_compare start a b date) by assumption. reflexivity.
Qed.

(** X16.  For a valid base time and a calendar date, the out-of-order
    flag speaks about the input itself: it is set exactly when some
    timestamp of the input is smaller than the timestamp before it.
    Adding the base time never hides or creates an inversion, also when
    the adjusted times pass midnight. *)
Theorem adjustTranscript_flag_input_order (contents : string) (baseTime : Time)
    (effectiveDate : DateOnly) (r : TranscriptUpdate) :
  validTime baseTime ->
  1 <= month effectiveDate <= 12 ->
  1 <= day effectiveDate <=
    daysInMonth (centuryYear (year effectiveDate)) (month effectiveDate) ->
  adjustTranscript contents baseTime effectiveDate = Ok r ->
  hasOutOfOrderTimestamps r = timeDescent (relativeTimes (Js.split Js.LF contents)).
Proof.
  intros Hs Hm Hd. rewrite adjustTranscript_closed. cbn zeta.
  destruct (head _) as [first |]; [| discriminate].
  destruct (last _) as [final |]; [| discriminate].
  intros [= <-]. cbn [hasOutOfOrderTimestamps].
  rewrite stamps_relative. apply hasDescent_relative; try assumption.
  apply relativeTimes_valid.
Qed.

Lemma adjustTranscript_flag_input_order_witness :
  timeDescent
    (relativeTimes
       (Js.split Js.LF ("00:00:01 Start" +:+ Js.NL +:+ "01:00:00 Later" +:+ Js.NL))) =
  false.
Proof.
  symmetry.
  apply (adjustTranscript_flag_input_order
           ("00:00:01 Start" +:+ Js.NL +:+ "01:00:00 Later" +:+ Js.NL)
           (mkTime 23 30 0) (mkDate 2024 12 25)
           (mkUpdate ("23:30:01 Start" +:+ Js.NL +:+ "00:30:00 Later" +:+ Js.NL)
              (DateTime.mk 2024 12 25 23 30 1) (DateTime.mk 2024 12 26 0 30 0) false)).
  - unfold validTime. cbn. lia.
  - cbn. lia.
  - change (1 <= 25 <= 31). lia.
  - reflexivity.
Defined.

(** ** Runs of two and four digits *)

Lemma digitsExactly_two (s : string) :
  Js.digitsExactly 2 s = true ->
  exists a b, s = String a (String b "") /\ Js.isDigit a = true /\ Js.isDigit b = true.
Proof.
  unfold Js.digitsExactly. destruct s as [| a [| b [| c s]]]; cbn; try discriminate.
  intros H. apply andb_true_iff in H as [Ha H]. apply andb_true_iff in H as [Hb _].
  exists a, b. auto.
Qed.

Lemma digitsExactly_four (s : string) :
  Js.digitsExactly 4 s = true ->
  exists a b c d,
    s = String a (String b (String c (String d ""))) /\
    Js.isDigit a = true /\ Js.isDigit b = true /\
    Js.isDigit c = true /\ Js.isDigit d = true.
Proof.
  unfold Js.digitsExactly.
  destruct s as [| a [| b [| c [| d [| e s]]]]]; cbn; try discriminate.
  intros H. apply andb_true_iff in H as [Ha H]. apply andb_true_iff in H as [Hb H].
  apply andb_true_iff in H as [Hc H]. apply andb_true_iff in H as [Hd _].
  exists a, b, c, d. auto.
Qed.

Lemma parseInt_twoDigits (n : Z) :
  0 <= n <= 99 ->
  Js.digitsExactly 2 (twoDigits n) = true /\ Js.parseInt (twoDigits n) = n.
Proof.
  intros Hn. unfold twoDigits.
  assert (H1 : 0 <= n / 10 <= 9) by (Z.to_euclidean_division_equations; lia).
  assert (H2 : 0 <= n mod 10 <= 9) by (Z.to_euclidean_division_equations; lia).
  destruct (digitChar_value _ H1) as [D1 V1], (digitChar_value _ H2) as [D2 V2].
  split.
  - unfold Js.digitsExactly. cbn. now rewrite D1, D2.
  - rewrite parseInt_two_digits, V1, V2 by assumption.
    Z.to_euclidean_division_equations; lia.
Qed.

Lemma parseInt_four_digits (a b c d : ascii) :
  Js.isDigit a = true -> Js.isDigit b = true ->
  Js.isDigit c = true -> Js.isDigit d = true ->
  Js.parseInt (String a (String b (String c (String d "")))) =
  1000 * Js.digitValue a + 100 * Js.digitValue b + 10 * Js.digitValue c +
  Js.digitValue d.
Proof.
  intros Ha Hb Hc Hd. unfold Js.parseInt. simpl. rewrite Ha, Hb, Hc, Hd. lia.
Qed.

Lemma parseInt_fourDigits (n : Z) :
  0 <= n <= 9999 ->
  Js.digitsExactly 4 (fourDigits n) = true /\ Js.parseInt (fourDigits n) = n.
Proof.
  intros Hn. unfold fourDigits.
  assert (H1 : 0 <= n / 1000 <= 9) by (Z.to_euclidean_division_equations; lia).
  assert (H2 : 0 <= n / 100 mod 10 <= 9) by (Z.to_euclidean_division_equations; lia).
  assert (H3 : 0 <= n / 10 mod 10 <= 9) by (Z.to_euclidean_division_equations; lia).
  assert (H4 : 0 <= n mod 10 <= 9) by (Z.to_euclidean_division_equations; lia).
  destruct (digitChar_value _ H1) as [D1 V1], (digitChar_value _ H2) as [D2 V2],
    (digitChar_value _ H3) as [D3 V3], (digitChar_value _ H4) as [D4 V4].
  split.
  - unfold Js.digitsExactly. cbn. now rewrite D1, D2, D3, D4.
  - rewrite parseInt_four_digits, V1, V2, V3, V4 by assumption.
    Z.to_euclidean_division_equations; lia.
Qed.

Lemma twoDigits_parseInt (s : string) :
  Js.digitsExactly 2 s = true ->
  twoDigits (Js.parseInt s) = s /\ 0 <= Js.parseInt s <= 99.
Proof.
  intros H. destruct (digitsExactly_two s H) as (a & b & -> & Ha & Hb).
  destruct (isDigit_value a Ha) as [Ra Ea], (isDigit_value b Hb) as [Rb Eb].
  rewrite parseInt_two_digits by assumption. split; [| lia].
  unfold twoDigits.
  replace ((10 * Js.digitValue a + Js.digitValue b) / 10) with (Js.digitValue a)
    by (Z.to_euclidean_division_equations; lia).
  replace ((10 * Js.digitValue a + Js.digitValue b) mod 10) with (Js.digitValue b)
    by (Z.to_euclidean_division_equations; lia).
  now rewrite Ea, Eb.
Qed.

Lemma fourDigits_parseInt (s : string) :
  Js.digitsExactly 4 s = true ->
  fourDigits (Js.parseInt s) = s /\ 0 <= Js.parseInt s <= 9999.
Proof.
  intros H. destruct (digitsExactly_four s H) as (a & b & c & d & -> & Ha & Hb & Hc & Hd).
  destruct (isDigit_value a Ha) as [Ra Ea], (isDigit_value b Hb) as [Rb Eb],
    (isDigit_value c Hc) as [Rc Ec], (isDigit_value d Hd) as [Rd Ed].
  rewrite parseInt_four_digits by assumption. split; [| lia].
  unfold fourDigits.
  set (n := 1000 * Js.digitValue a + 100 * Js.digitValue b + 10 * Js.digitValue c +
            Js.digitValue d).
  replace (n / 1000) with (Js.digitValue a)
    by (unfold n; Z.to_euclidean_division_equations; lia).
  replace (n / 100 mod 10) with (Js.digitValue b)
    by (unfold n; Z.to_euclidean_division_equations; lia).
  replace (n / 10 mod 10) with (Js.digitValue c)
    by (unfold n; Z.to_euclidean_division_equations; lia).
  replace (n mod 10) with (Js.digitValue d)
    by (unfold n; Z.to_euclidean_division_equations; lia).
  now rewrite Ea, Eb, Ec, Ed.
Qed.

(** ** The date argument of the command line *)

Lemma split_dashedDate (y m d : string) :
  Js.digitsExactly 4 y = true -> Js.digitsExactly 2 m = true ->
  Js.digitsExactly 2 d = true ->
  Js.split "-" (y +:+ "-" +:+ m +:+ "-" +:+ d) = [y; m; d].
Proof.
  intros Hy Hm Hd. cbn [append].
  rewrite split_app_sep by (eapply digitsExactly_charFree; [reflexivity | eassumption]).
  rewrite split_app_sep by (eapply digitsExactly_charFree; [reflexivity | eassumption]).
  rewrite split_single by (eapply digitsExactly_charFree; [reflexivity | eassumption]).
  reflexivity.
Qed.

(** X17.  The [--date] parser accepts exactly the strings [YYYY-MM-DD]
    of four, two and two decimal digits with month 1..12 and day 1..31,
    whatever the month's length, and returns the numbers they spell; in
    particular it reads back every date that [formatDateDashed] prints
    with a four-digit year. *)
Theorem parseDateArg_accepts (value : string) (date : DateOnly) :
  (parseDateArg value = Ok date <->
   value = dashedDate date /\ 0 <= year date <= 9999 /\
   1 <= month date <= 12 /\ 1 <= day date <= 31) /\
  (1000 <= year date <= 9999 -> 1 <= month date <= 12 -> 1 <= day date <= 31 ->
   parseDateArg (formatDateDashed date) = Ok date).
Proof.
  assert (Hback : forall dt : DateOnly,
             0 <= year dt <= 9999 -> 1 <= month dt <= 12 -> 1 <= day dt <= 31 ->
             parseDateArg (dashedDate dt) = Ok dt).
  { intros [y m d]. cbn [year month day]. intros Hy Hm Hd.
    destruct (parseInt_fourDigits y Hy) as [Dy Py].
    destruct (parseInt_twoDigits m) as [Dm Pm]; [lia |].
    destruct (parseInt_twoDigits d) as [Dd Pd]; [lia |].
    unfold parseDateArg, DATE_REGEX_exec, DATE_DASHED_exec, dashedDate.
    cbn [year month day]. rewrite split_dashedDate by assumption.
    rewrite Dy, Dm, Dd. cbn [andb]. cbn zeta. rewrite Py, Pm, Pd.
    destruct (Z.ltb_spec m 1); [lia |]. destruct (Z.gtb_spec m 12); [lia |].
    destruct (Z.ltb_spec d 1); [lia |]. destruct (Z.gtb_spec d 31); [lia |].
    reflexivity. }
  split; [split |].
  - unfold parseDateArg, DATE_REGEX_exec, DATE_DASHED_exec.
    pose proof (join_split "-" value) as Hjoin.
    destruct (Js.split "-" value) as [| y [| m [| d [| ? ?]]]]; try discriminate.
    destruct (Js.digitsExactly 4 y) eqn:Dy; [| discriminate].
    destruct (Js.digitsExactly 2 m) eqn:Dm; [| discriminate].
    destruct (Js.digitsExactly 2 d) eqn:Dd; [| discriminate].
    cbn [andb]. cbn zeta.
    destruct (fourDigits_parseInt y Dy) as [Fy Ry].
    destruct (twoDigits_parseInt m Dm) as [Fm Rm].
    destruct (twoDigits_parseInt d Dd) as [Fd Rd].
    destruct (Z.ltb_spec (Js.parseInt m) 1); [discriminate |].
    destruct (Z.gtb_spec (Js.parseInt m) 12); [discriminate |].
    destruct (Z.ltb_spec (Js.parseInt d) 1); [discriminate |].
    destruct (Z.gtb_spec (Js.parseInt d) 31); [discriminate |].
    cbn [orb]. intros [= <-]. unfold dashedDate. cbn [year month day].
    rewrite Fy, Fm, Fd. repeat split; try lia. now rewrite <- Hjoin.
  - intros (-> & Hy & Hm & Hd). now apply Hback.
  - intros Hy Hm Hd. rewrite formatDateDashed_digits by lia. apply Hback; lia.
Qed.

Lemma parseDateArg_accepts_witness :
  parseDateArg "2025-02-31" = Ok (mkDate 2025 2 31) /\
  parseDateArg (formatDateDashed (mkDate 2024 12 25)) = Ok (mkDate 2024 12 25).
Proof.
  split.
  - apply (proj1 (parseDateArg_accepts "2025-02-31" (mkDate 2025 2 31))).
    cbn [year month day]. split; [reflexivity | lia].
  - apply (proj2 (parseDateArg_accepts "" (mkDate 2024 12 25))); cbn; lia.
Defined.

(** ** Paths built from plain segments *)

Lemma split_app (c : ascii) (a b : string) :
  Js.split c (a +:+ String c b) = Js.split c a ++ Js.split c b.
Proof.
  induction a as [| x a IH]; cbn [append Js.split].
  - now rewrite Ascii.eqb_refl.
  - rewrite IH. destruct (Ascii.eqb x c); [reflexivity |].
    pose proof (split_not_nil c a) as Hnn.
    destruct (Js.split c a) as [| h t]; [congruence | reflexivity].
Qed.

Lemma join_app (sep : string) (l1 l2 : list string) :
  l1 <> [] -> l2 <> [] ->
  Js.join sep (l1 ++ l2) = Js.join sep l1 +:+ sep +:+ Js.join sep l2.
Proof.
  induction l1 as [| a l1 IH]; [congruence |]. intros _ H2.
  destruct l1 as [| b l1].
  - cbn [app]. now rewrite join_cons.
  - change ((a :: b :: l1) ++ l2) with (a :: (b :: l1) ++ l2).
    rewrite join_cons by discriminate. rewrite IH by (discriminate || assumption).
    rewrite (join_cons sep a (b :: l1)) by discriminate.
    now rewrite !append_assoc.
Qed.

Lemma normalizeStep_plain (allowAboveRoot : bool) (res : list string) (s : string) :
  plainSegment s -> Path.normalizeStep allowAboveRoot res s = res ++ [s].
Proof.
  intros (H0 & H1 & H2 & _). unfold Path.normalizeStep.
  destruct (String.eqb_spec s ""); [contradiction |].
  destruct (String.eqb_spec s "."); [contradiction |].
  destruct (String.eqb_spec s ".."); [contradiction |]. reflexivity.
Qed.

Lemma fold_normalizeStep_plain (allowAboveRoot : bool) (segs res : list string) :
  Forall plainSegment segs ->
  fold_left (Path.normalizeStep allowAboveRoot) segs res = res ++ segs.
Proof.
  intros Hall. revert res. induction Hall as [| s segs Hs Hall IH]; intros res.
  - now rewrite app_nil_r.
  - cbn [fold_left]. rewrite normalizeStep_plain by assumption.
    rewrite IH, <- app_assoc. reflexivity.
Qed.

Lemma endsWith_sep_charFree (f : string) :
  charFree Path.sep f = true -> Js.endsWith f "/" = false.
Proof.
  induction f as [| x f IH]; [reflexivity |]. cbn [charFree]. intros H.
  apply andb_true_iff in H as [Hx Hf]. apply negb_true_iff in Hx.
  cbn [Js.endsWith]. rewrite (IH Hf).
  destruct (String.eqb_spec (String x f) "/") as [E | _]; [| reflexivity].
  injection E as -> _. discriminate Hx.
Qed.

Lemma endsWith_sep_app (a f : string) :
  f <> "" -> charFree Path.sep f = true -> Js.endsWith (a +:+ f) "/" = false.
Proof.
  intros Hne Hf. induction a as [| x a IH]; [now apply endsWith_sep_charFree |].
  cbn [append Js.endsWith]. rewrite IH.
  destruct (String.eqb_spec (String x (a +:+ f)) "/") as [E | _]; [| reflexivity].
  injection E as _ E. destruct a; cbn in E; congruence.
Qed.

Lemma normalize_kept (p : string) :
  p <> "" ->
  Path.normalizeString (negb (Path.isAbsolute p)) p <> "" ->
  Js.endsWith p "/" = false ->
  Path.normalize p =
  (if Path.isAbsolute p then "/" else "") +:+
  Path.normalizeString (negb (Path.isAbsolute p)) p.
Proof.
  intros Hp Hq He. unfold Path.normalize. destruct p as [| c p]; [congruence |].
  cbn zeta. rewrite He.
  destruct (Path.normalizeString _ _) as [| y q]; [congruence |].
  destruct (Path.isAbsolute _); reflexivity.
Qed.

Lemma join_snoc_form (l : list string) (f : string) :
  exists pre, Js.join "/" (l ++ [f]) = pre +:+ f /\ (pre = "" \/ exists pre', pre = pre' +:+ "/").
Proof.
  destruct l as [| a l].
  - exists "". split; [reflexivity | now left].
  - exists (Js.join "/" (a :: l) +:+ "/"). split.
    + rewrite join_snoc by discriminate. now rewrite append_assoc.
    + right. eauto.
Qed.

Lemma plainSegment_charFree (segs : list string) :
  Forall plainSegment segs -> Forall (fun s => charFree Path.sep s = true) segs.
Proof. apply List.Forall_impl. now intros s (_ & _ & _ & H). Qed.

Lemma filter_plain (segs : list string) :
  Forall plainSegment segs ->
  List.filter (fun p => negb (String.eqb p "")) segs = segs.
Proof.
  induction 1 as [| s segs (Hs & _) _ IH]; [reflexivity |]. cbn [List.filter].
  destruct (String.eqb_spec s ""); [contradiction |]. cbn [negb]. now rewrite IH.
Qed.

(** Joining a directory and plain segments keeps the segments: the
    result is the segments joined by separators, after a prefix that is
    empty or ends with a separator. *)
Lemma pathJoin_plain (a : string) (segs : list string) (f : string) :
  Forall plainSegment segs -> plainSegment f ->
  exists P,
    (P = "" \/ exists P', P = P' +:+ "/") /\
    pathJoin (a :: segs ++ [f]) = P +:+ Js.join "/" (segs ++ [f]).
Proof.
  intros Hsegs Hf.
  assert (Hall : Forall plainSegment (segs ++ [f]))
    by (apply Forall_app; split; [assumption | now constructor]).
  assert (Hnn : segs ++ [f] <> []) by (destruct segs; discriminate).
  destruct (join_snoc_form segs f) as (pre & HS & _).
  destruct Hf as (Hf0 & _ & _ & Hfc).
  assert (HSne : Js.join "/" (segs ++ [f]) <> "").
  { rewrite HS. destruct pre; [assumption | discriminate]. }
  set (S := Js.join "/" (segs ++ [f])) in *.
  assert (Hsplit : Js.split "/" S = segs ++ [f])
    by (apply split_join; [assumption | now apply plainSegment_charFree]).
  (* the joined argument, its pieces and the stack before the segments *)
  assert (Hform : exists J L0,
             pathJoin (a :: segs ++ [f]) = Path.normalize J /\
             J <> "" /\ Js.endsWith J "/" = false /\
             Js.split "/" J = L0 ++ segs ++ [f]).
  { assert (Hparts : forall l : list string, l <> [] ->
               match l with
               | [] => "."
               | x :: t => Path.normalize (Js.join "/" (x :: t))
               end = Path.normalize (Js.join "/" l))
      by (intros [| x l] H; [congruence | reflexivity]).
    unfold pathJoin. cbn [List.filter]. rewrite filter_plain by assumption.
    destruct (String.eqb_spec a "") as [-> | Ha]; cbn [negb].
    - exists S, []. rewrite Hparts by assumption. fold S.
      repeat split; try assumption. rewrite HS. now apply endsWith_sep_app.
    - exists (a +:+ "/" +:+ S), (Js.split "/" a).
      rewrite join_cons by assumption. fold S. repeat split.
      + destruct a; [congruence | discriminate].
      + rewrite HS, <- !append_assoc. now apply endsWith_sep_app.
      + cbn [append]. now rewrite split_app, Hsplit. }
  destruct Hform as (J & L0 & -> & HJ & HJe & HJs).
  set (res0 := fold_left (Path.normalizeStep (negb (Path.isAbsolute J))) L0 []).
  assert (Hq : Path.normalizeString (negb (Path.isAbsolute J)) J =
               (if decide (res0 = []) then "" else Js.join "/" res0 +:+ "/") +:+ S).
  { unfold Path.normalizeString, Path.sep. rewrite HJs, fold_left_app.
    fold res0. rewrite fold_normalizeStep_plain by assumption.
    destruct (decide (res0 = [])) as [-> | Hr]; [reflexivity |].
    rewrite join_app by assumption. fold S. now rewrite append_assoc. }
  rewrite normalize_kept; try assumption.
  - rewrite Hq, <- append_assoc.
    eexists. split; [| reflexivity].
    destruct (decide (res0 = [])); destruct (Path.isAbsolute J); cbn [append].
    + right. exists "". reflexivity.
    + now left.
    + right. exists (String "/" (Js.join "/" res0)). reflexivity.
    + right. eauto.
  - rewrite Hq. destruct (decide (res0 = [])); cbn [append].
    + assumption.
    + destruct (Js.join "/" res0); discriminate.
Qed.

Lemma list_ascii_app (a b : string) :
  list_ascii_of_string (a +:+ b) = list_ascii_of_string a ++ list_ascii_of_string b.
Proof. induction a as [| x a IH]; cbn; [reflexivity | now rewrite IH]. Qed.

Lemma charFree_not_sep (s : string) :
  charFree Path.sep s = true ->
  Forall (fun x => Path.isSep x = false) (list_ascii_of_string s).
Proof.
  induction s as [| x s IH]; cbn; [constructor |]. intros H.
  apply andb_true_iff in H as [Hx Hs]. apply negb_true_iff in Hx.
  constructor; [exact Hx | now apply IH].
Qed.

Lemma dropWhile_kept {A} (f : A -> bool) (l r : list A) :
  l <> [] -> Forall (fun x => f x = false) l -> Path.dropWhile f (l ++ r) = l ++ r.
Proof.
  intros Hne Hall. destruct Hall as [| x l Hx _]; [congruence |].
  cbn. now rewrite Hx.
Qed.

Lemma dropWhile_until {A} (f : A -> bool) (l : list A) (y : A) (t : list A) :
  Forall (fun x => f x = true) l -> f y = false ->
  Path.dropWhile f (l ++ y :: t) = y :: t.
Proof.
  intros Hall Hy. induction Hall as [| x l Hx _ IH]; cbn.
  - now rewrite Hy.
  - now rewrite Hx.
Qed.

Lemma takeWhile_until {A} (f : A -> bool) (l r : list A) :
  Forall (fun x => f x = true) l ->
  (r = [] \/ exists y t, r = y :: t /\ f y = false) ->
  Path.takeWhile f (l ++ r) = l.
Proof.
  intros Hall Hr. induction Hall as [| x l Hx _ IH]; cbn.
  - destruct Hr as [-> | (y & t & -> & Hy)]; [reflexivity |]. cbn. now rewrite Hy.
  - now rewrite Hx, IH.
Qed.

Lemma rev_segment (f : string) :
  f <> "" -> charFree Path.sep f = true ->
  rev (list_ascii_of_string f) <> [] /\
  Forall (fun x => Path.isSep x = false) (rev (list_ascii_of_string f)) /\
  Forall (fun x => negb (Path.isSep x) = true) (rev (list_ascii_of_string f)).
Proof.
  intros Hne Hf. pose proof (charFree_not_sep f Hf) as Hall. split; [| split].
  - destruct f as [| x f]; [congruence |]. cbn. destruct (rev _); discriminate.
  - now apply List.Forall_rev.
  - apply List.Forall_rev. eapply List.Forall_impl; [| exact Hall].
    cbn. now intros x ->.
Qed.

(** The last segment of a path is its base name. *)
Lemma basename_segment (pre f : string) :
  f <> "" -> charFree Path.sep f = true ->
  (pre = "" \/ exists pre', pre = pre' +:+ "/") ->
  Path.basename (pre +:+ f) = f.
Proof.
  intros Hne Hf Hpre. destruct (rev_segment f Hne Hf) as (Hr & Hsep & Hnot).
  unfold Path.basename. rewrite list_ascii_app, rev_app_distr.
  rewrite dropWhile_kept by assumption.
  rewrite takeWhile_until.
  - rewrite rev_involutive. apply string_of_list_ascii_of_string.
  - exact Hnot.
  - destruct Hpre as [-> | (pre' & ->)]; [now left |]. right.
    rewrite list_ascii_app, rev_app_distr. cbn. eauto.
Qed.

(** The directory of a path whose last segment follows a segment. *)
Lemma dirname_segment (X0 d f : string) :
  d <> "" -> charFree Path.sep d = true ->
  f <> "" -> charFree Path.sep f = true ->
  Path.dirname ((X0 +:+ d) +:+ "/" +:+ f) = X0 +:+ d.
Proof.
  intros Hd Hdc Hne Hf. destruct (rev_segment f Hne Hf) as (Hr & Hsep & Hnot).
  destruct (X0 +:+ d) as [| c0 X'] eqn:EX.
  { destruct X0; cbn in EX; congruence. }
  cbn [append]. unfold Path.dirname.
  change (String "/" f) with ("/" +:+ f).
  rewrite list_ascii_app, rev_app_distr. cbn [list_ascii_of_string append rev].
  rewrite <- app_assoc. cbn [app].
  rewrite dropWhile_kept by assumption.
  rewrite dropWhile_until by (assumption || reflexivity).
  destruct (rev (list_ascii_of_string X')) as [| y t] eqn:Er.
  - assert (HX' : X' = "").
    { destruct X' as [| z X']; [reflexivity |]. cbn in Er.
      apply app_eq_nil in Er as [_ Er]. discriminate. }
    subst X'. assert (Hc0 : Path.isSep c0 = false).
    { destruct X0 as [| z X0]; cbn in EX.
      - subst d. cbn in Hdc. apply andb_true_iff in Hdc as [Hx _].
        now apply negb_true_iff in Hx.
      - injection EX as _ EX. destruct X0; cbn in EX; congruence. }
    now rewrite Hc0.
  - rewrite <- Er, rev_involutive, string_of_list_ascii_of_string. reflexivity.
Qed.

(** ** The file names the update command produces *)

Lemma digitsExactly_app (n k : nat) (a b : string) :
  Js.digitsExactly n a = true -> Js.digitsExactly k b = true ->
  Js.digitsExactly (n + k) (a +:+ b) = true.
Proof.
  unfold Js.digitsExactly. revert n. induction a as [| x a IH]; intros n Ha Hb.
  - apply andb_true_iff in Ha as [Hn _]. apply Nat.eqb_eq in Hn. now subst n.
  - destruct n as [| n]; [discriminate |]. cbn in Ha |- *.
    apply andb_true_iff in Ha as [Hn Ha]. apply andb_true_iff in Ha as [Hx Ha].
    rewrite Hx. cbn [andb]. apply (IH n); [| assumption]. now rewrite Hn, Ha.
Qed.

Lemma sixDigits (h m s : Z) :
  0 <= h <= 99 -> 0 <= m <= 99 -> 0 <= s <= 99 ->
  Js.digitsExactly 6 (twoDigits h +:+ twoDigits m +:+ twoDigits s) = true.
Proof.
  intros Hh Hm Hs.
  destruct (parseInt_twoDigits h Hh) as [Dh _], (parseInt_twoDigits m Hm) as [Dm _],
    (parseInt_twoDigits s Hs) as [Ds _].
  apply (digitsExactly_app 2 4); [assumption |]. now apply (digitsExactly_app 2 2).
Qed.

Lemma parseTimeDigits_twoDigits (t : Time) :
  validTime t ->
  parseTimeDigits (twoDigits (hours t) +:+ twoDigits (minutes t) +:+
                   twoDigits (seconds t)) = Some t.
Proof.
  destruct t as [h m s]. unfold validTime. cbn [hours minutes seconds].
  intros (Hh & Hm & Hs). unfold parseTimeDigits.
  pose proof (sixDigits h m s ltac:(lia) ltac:(lia) ltac:(lia)) as H6.
  rewrite H6. apply andb_true_iff in H6 as [-> _]. cbn [negb orb]. cbn zeta.
  change (Js.sliceTo 2 (twoDigits h +:+ twoDigits m +:+ twoDigits s)) with (twoDigits h).
  change (Js.sliceTo 2 (Js.sliceFrom 2 (twoDigits h +:+ twoDigits m +:+ twoDigits s)))
    with (twoDigits m).
  change (Js.sliceTo 2 (Js.sliceFrom 4 (twoDigits h +:+ twoDigits m +:+ twoDigits s)))
    with (twoDigits s).
  destruct (parseInt_twoDigits h) as [_ ->]; [lia |].
  destruct (parseInt_twoDigits m) as [_ ->]; [lia |].
  destruct (parseInt_twoDigits s) as [_ ->]; [lia |].
  destruct (Z.gtb_spec h 23); [lia |]. destruct (Z.gtb_spec m 59); [lia |].
  destruct (Z.gtb_spec s 59); [lia |]. reflexivity.
Qed.

Lemma formatTimeCompact_digits (dt : DateTime.t) :
  validTime (timeOf dt) ->
  Update.formatTimeCompact dt =
  twoDigits (DateTime.hours dt) +:+ twoDigits (DateTime.minutes dt) +:+
  twoDigits (DateTime.seconds dt).
Proof.
  unfold validTime, timeOf. cbn [hours minutes seconds]. intros (Hh & Hm & Hs).
  unfold Update.formatTimeCompact. now rewrite !padStart_twoDigits by lia.
Qed.

Lemma formatDateCompact_digits (d : DateOnly) :
  1000 <= year d <= 9999 -> 1 <= month d <= 12 -> 1 <= day d <= 31 ->
  formatDateCompact d =
  fourDigits (year d) +:+ twoDigits (month d) +:+ twoDigits (day d).
Proof.
  intros Hy Hm Hd. unfold formatDateCompact.
  rewrite (toString_four_digits _ Hy). now rewrite !padStart_twoDigits by lia.
Qed.

Lemma removeExtension_txt (stem : string) :
  charFree "." stem = true -> removeExtension (stem +:+ ".txt") = stem.
Proof.
  induction stem as [| c stem IH]; [reflexivity |]. cbn [charFree]. intros H.
  apply andb_true_iff in H as [Hc Hs]. apply negb_true_iff in Hc.
  cbn [append removeExtension]. rewrite Hc. cbn [andb]. now rewrite IH.
Qed.

Lemma digits_charFree (c : ascii) (n : nat) (s : string) :
  Js.isDigit c = false -> Js.digitsExactly n s = true -> charFree c s = true.
Proof. apply digitsExactly_charFree. Qed.

Lemma digits_plain (n : nat) (a rest : string) :
  Js.digitsExactly (S n) a = true -> charFree Path.sep rest = true ->
  plainSegment (a +:+ rest).
Proof.
  intros Ha Hrest.
  assert (Hc : charFree Path.sep (a +:+ rest) = true)
    by (rewrite charFree_app, Hrest, (digits_charFree Path.sep _ a eq_refl Ha);
        reflexivity).
  destruct a as [| x a]; [discriminate |].
  apply andb_true_iff in Ha as [_ Ha]. cbn in Ha. apply andb_true_iff in Ha as [Hx _].
  repeat split; try exact Hc; cbn [append]; intros [= -> _]; discriminate.
Qed.

Lemma getSortKey_flat_name (p datePart endPart : string) (y m d : Z) (t : Time) :
  0 <= y <= 9999 -> 0 <= m <= 99 -> 0 <= d <= 99 -> validTime t ->
  datePart = fourDigits y +:+ twoDigits m +:+ twoDigits d ->
  Js.digitsExactly 6 endPart = true ->
  Path.basename p =
    (datePart +:+ "_" +:+
     (twoDigits (hours t) +:+ twoDigits (minutes t) +:+ twoDigits (seconds t)) +:+
     "_" +:+ endPart) +:+ ".txt" ->
  getSortKey p = Ok (mkKey (Some (mkDate y m d)) (hours t) (minutes t) (seconds t)).
Proof.
  intros Hy Hm Hd Ht HD HE Hbase.
  set (T := twoDigits (hours t) +:+ twoDigits (minutes t) +:+ twoDigits (seconds t)) in *.
  assert (HT : Js.digitsExactly 6 T = true)
    by (unfold validTime in Ht; apply sixDigits; lia).
  destruct (parseInt_fourDigits y Hy) as [Dy Py].
  destruct (parseInt_twoDigits m Hm) as [Dm Pm], (parseInt_twoDigits d Hd) as [Dd Pd].
  assert (HD8 : Js.digitsExactly 8 datePart = true).
  { subst datePart. apply (digitsExactly_app 4 4); [assumption |].
    now apply (digitsExactly_app 2 2). }
  assert (Hsplit : Js.split "_" (datePart +:+ "_" +:+ T +:+ "_" +:+ endPart) =
                   [datePart; T; endPart]).
  { cbn [append].
    rewrite split_app_sep by (eapply digits_charFree; [reflexivity | eassumption]).
    rewrite split_app_sep by (eapply digits_charFree; [reflexivity | eassumption]).
    rewrite split_single by (eapply digits_charFree; [reflexivity | eassumption]).
    reflexivity. }
  unfold getSortKey. cbn zeta. rewrite Hbase, removeExtension_txt.
  2: { rewrite !charFree_app, (digits_charFree "." _ datePart eq_refl HD8),
         (digits_charFree "." _ T eq_refl HT), (digits_charFree "." _ endPart eq_refl HE).
       reflexivity. }
  assert (Hflat : looksLikeFlatFormat (datePart +:+ "_" +:+ T +:+ "_" +:+ endPart) = true).
  { apply looksLikeFlatFormat_shape. exists T, datePart, endPart. auto. }
  rewrite Hflat. unfold parseFlat. rewrite Hsplit. cbn [nth]. cbn zeta.
  unfold DATE_COMPACT_REGEX_exec. rewrite HD8. subst datePart.
  change (Js.sliceTo 4 (fourDigits y +:+ twoDigits m +:+ twoDigits d))
    with (fourDigits y).
  change (Js.sliceTo 2 (Js.sliceFrom 4 (fourDigits y +:+ twoDigits m +:+ twoDigits d)))
    with (twoDigits m).
  change (Js.sliceFrom 6 (fourDigits y +:+ twoDigits m +:+ twoDigits d))
    with (twoDigits d).
  rewrite Py, Pm, Pd. unfold T. now rewrite parseTimeDigits_twoDigits.
Qed.

Lemma getSortKey_nested_name (p endPart : string) (t : Time) :
  validTime t -> Js.digitsExactly 6 endPart = true ->
  Path.basename p =
    ((twoDigits (hours t) +:+ twoDigits (minutes t) +:+ twoDigits (seconds t)) +:+
     "-" +:+ endPart) +:+ ".txt" ->
  getSortKey p =
  Ok (mkKey (extractDateFromPath p) (hours t) (minutes t) (seconds t)).
Proof.
  intros Ht HE Hbase.
  set (T := twoDigits (hours t) +:+ twoDigits (minutes t) +:+ twoDigits (seconds t)) in *.
  assert (HT : Js.digitsExactly 6 T = true)
    by (unfold validTime in Ht; apply sixDigits; lia).
  assert (Hshape : nestedShape (T +:+ "-" +:+ endPart) T) by (exists endPart; auto).
  unfold getSortKey. cbn zeta. rewrite Hbase, removeExtension_txt.
  2: { rewrite !charFree_app, (digits_charFree "." _ T eq_refl HT),
         (digits_charFree "." _ endPart eq_refl HE). reflexivity. }
  rewrite (nestedShape_not_flat _ _ Hshape).
  rewrite (proj2 (looksLikeNestedFormat_shape _) (ex_intro _ T Hshape)).
  rewrite (parseNested_shape p _ T Hshape). unfold T.
  now rewrite parseTimeDigits_twoDigits.
Qed.

Lemma extractDateFromPath_nested (P name : string) (y m d : Z) :
  (P = "" \/ exists P', P = P' +:+ "/") ->
  name <> "" -> charFree Path.sep name = true ->
  0 <= y <= 9999 -> 1 <= m <= 12 -> 1 <= d <= 31 ->
  extractDateFromPath
    (P +:+ fourDigits y +:+ "/" +:+ twoDigits m +:+ "/" +:+ twoDigits d +:+ "/" +:+ name) =
  Some (mkDate y m d).
Proof.
  intros HP Hn Hnc Hy Hm Hd.
  destruct (parseInt_fourDigits y Hy) as [Dy Py].
  destruct (parseInt_twoDigits m) as [Dm Pm]; [lia |].
  destruct (parseInt_twoDigits d) as [Dd Pd]; [lia |].
  set (Y := fourDigits y) in *. set (M := twoDigits m) in *. set (D := twoDigits d) in *.
  assert (HD0 : D <> "") by discriminate.
  assert (HDc : charFree Path.sep D = true)
    by (eapply digits_charFree; [reflexivity | eassumption]).
  replace (P +:+ Y +:+ "/" +:+ M +:+ "/" +:+ D +:+ "/" +:+ name)
    with (((P +:+ Y +:+ "/" +:+ M +:+ "/") +:+ D) +:+ "/" +:+ name)
    by (now rewrite !append_assoc).
  unfold extractDateFromPath. cbn zeta.
  rewrite dirname_segment by assumption.
  rewrite basename_segment; try assumption.
  2: { right. exists (P +:+ Y +:+ "/" +:+ M). now rewrite !append_assoc. }
  unfold DATE_DASHED_exec.
  rewrite (split_single "-" D) by (eapply digits_charFree; [reflexivity | eassumption]).
  assert (Hsplit : exists L, Js.split Path.sep ((P +:+ Y +:+ "/" +:+ M +:+ "/") +:+ D) =
                             L ++ [Y; M; D]).
  { assert (H3 : Js.split "/" (Y +:+ "/" +:+ M +:+ "/" +:+ D) = [Y; M; D]).
    { cbn [append].
      rewrite split_app_sep by (eapply digits_charFree; [reflexivity | eassumption]).
      rewrite split_app_sep by (eapply digits_charFree; [reflexivity | eassumption]).
      now rewrite split_single. }
    unfold Path.sep. rewrite !append_assoc.
    destruct HP as [-> | (P' & ->)].
    - exists []. exact H3.
    - exists (Js.split "/" P'). rewrite !append_assoc. cbn [append].
      rewrite split_app. f_equal. exact H3. }
  destruct Hsplit as [L ->]. rewrite rev_app_distr. cbn [rev app].
  rewrite Dy, Dm, Dd. cbn [andb]. cbn zeta. rewrite Py, Pm, Pd.
  destruct (Z.geb_spec m 1); [| lia]. destruct (Z.leb_spec m 12); [| lia].
  destruct (Z.geb_spec d 1); [| lia]. destruct (Z.leb_spec d 31); [| lia].
  reflexivity.
Qed.

Lemma resolveOutputPath_getSortKey_aux (cwd : string) (request : Update.Request)
    (first last : DateTime.t) :
  validTime (timeOf first) -> validTime (timeOf last) ->
  1000 <= DateTime.year last <= 9999 ->
  1 <= DateTime.month last <= 12 -> 1 <= DateTime.day last <= 31 ->
  getSortKey (Update.resolveOutputPath cwd request first last) =
  Ok (mkKey (Some (mkDate (DateTime.year last) (DateTime.month last) (DateTime.day last)))
        (DateTime.hours first) (DateTime.minutes first) (DateTime.seconds first)).
Proof.
  intros Hf Hl Hy Hm Hd. unfold Update.resolveOutputPath. cbn zeta.
  cbn [year month day].
  rewrite (formatTimeCompact_digits first Hf), (formatTimeCompact_digits last Hl).
  set (T := twoDigits (DateTime.hours first) +:+ twoDigits (DateTime.minutes first) +:+
            twoDigits (DateTime.seconds first)).
  set (E := twoDigits (DateTime.hours last) +:+ twoDigits (DateTime.minutes last) +:+
            twoDigits (DateTime.seconds last)).
  assert (HT : Js.digitsExactly 6 T = true)
    by (unfold validTime, timeOf in Hf; cbn in Hf; apply sixDigits; lia).
  assert (HE : Js.digitsExactly 6 E = true)
    by (unfold validTime, timeOf in Hl; cbn in Hl; apply sixDigits; lia).
  destruct (parseInt_fourDigits (DateTime.year last)) as [Dy _]; [lia |].
  destruct (parseInt_twoDigits (DateTime.month last)) as [Dm _]; [lia |].
  destruct (parseInt_twoDigits (DateTime.day last)) as [Dd _]; [lia |].
  destruct (Update.flattenOutput request).
  - rewrite formatDateCompact_digits by (cbn [year month day]; lia).
    cbn [year month day].
    set (D8 := fourDigits (DateTime.year last) +:+ twoDigits (DateTime.month last) +:+
               twoDigits (DateTime.day last)).
    assert (HD8 : Js.digitsExactly 8 D8 = true).
    { apply (digitsExactly_app 4 4); [assumption |]. now apply (digitsExactly_app 2 2). }
    set (name := D8 +:+ "_" +:+ T +:+ "_" +:+ E +:+ ".txt").
    assert (Hplain : plainSegment name).
    { apply (digits_plain 7); [exact HD8 |].
      rewrite !charFree_app, (digits_charFree Path.sep _ T eq_refl HT),
        (digits_charFree Path.sep _ E eq_refl HE). reflexivity. }
    destruct (pathJoin_plain cwd [] name (List.Forall_nil _) Hplain) as (P & HP & Hjoin).
    cbn [app] in Hjoin. change (Js.join "/" [name]) with name in Hjoin.
    apply (getSortKey_flat_name _ D8 E _ _ _ (timeOf first)); try assumption;
      try reflexivity; try lia.
    rewrite Hjoin, basename_segment; try apply Hplain; try assumption.
    unfold name. now rewrite !append_assoc.
  - rewrite (toString_four_digits _ Hy), !padStart_twoDigits by lia.
    set (Y := fourDigits (DateTime.year last)) in *.
    set (M := twoDigits (DateTime.month last)) in *.
    set (D := twoDigits (DateTime.day last)) in *.
    set (name := T +:+ "-" +:+ E +:+ ".txt").
    set (dir := if String.eqb (Update.outputDir request) "" then "."
                else Update.outputDir request).
    assert (Hplain : plainSegment name).
    { apply (digits_plain 5); [exact HT |].
      rewrite !charFree_app, (digits_charFree Path.sep _ E eq_refl HE). reflexivity. }
    assert (Hsegs : Forall plainSegment [Y; M; D]).
    { assert (Hp : forall n s, Js.digitsExactly (S n) s = true -> plainSegment s).
      { intros n s Hs. rewrite <- (append_nil_r s). now apply (digits_plain n). }
      repeat apply List.Forall_cons; eauto. }
    destruct (pathJoin_plain dir [Y; M; D] name Hsegs Hplain) as (P & HP & Hjoin).
    change ([Y; M; D] ++ [name]) with [Y; M; D; name] in Hjoin.
    change (Js.join "/" [Y; M; D; name])
      with (Y +:+ "/" +:+ M +:+ "/" +:+ D +:+ "/" +:+ name) in Hjoin.
    destruct Hplain as (Hn0 & _ & _ & Hnc).
    rewrite (getSortKey_nested_name _ E (timeOf first)); try assumption.
    + rewrite Hjoin. unfold Y, M, D.
      rewrite extractDateFromPath_nested by (assumption || lia). reflexivity.
    + rewrite Hjoin.
      replace (P +:+ Y +:+ "/" +:+ M +:+ "/" +:+ D +:+ "/" +:+ name)
        with ((P +:+ Y +:+ "/" +:+ M +:+ "/" +:+ D +:+ "/") +:+ name)
        by (now rewrite !append_assoc).
      rewrite basename_segment; try assumption.
      * unfold name. now rewrite !append_assoc.
      * right. exists (P +:+ Y +:+ "/" +:+ M +:+ "/" +:+ D). now rewrite !append_assoc.
Qed.

(** X18.  A file written by the update command is recognised by the
    merge: whatever the working directory and the output directory, the
    sort key of the resolved output path is the date of the last
    adjusted timestamp together with the time of day of the first one,
    in flat and in nested mode alike. *)
Theorem resolveOutputPath_getSortKey (cwd : string) (request : Update.Request)
    (first last : DateTime.t) :
  validTime (timeOf first) -> validTime (timeOf last) ->
  1000 <= DateTime.year last <= 9999 ->
  1 <= DateTime.month last <= 12 -> 1 <= DateTime.day last <= 31 ->
  getSortKey (Update.resolveOutputPath cwd request first last) =
  Ok (mkKey (Some (mkDate (DateTime.year last) (DateTime.month last) (DateTime.day last)))
        (DateTime.hours first) (DateTime.minutes first) (DateTime.seconds first)).
Proof. apply resolveOutputPath_getSortKey_aux. Qed.

Lemma resolveOutputPath_getSortKey_witness :
  getSortKey
    (Update.resolveOutputPath "/w" (Update.mkRequest "in.txt" "out" false (mkTime 23 30 0)
                                      (mkDate 2024 12 25))
       (DateTime.mk 2024 12 25 23 30 1) (DateTime.mk 2024 12 26 0 30 0)) =
  Ok (mkKey (Some (mkDate 2024 12 26)) 23 30 1).
Proof.
  apply (resolveOutputPath_getSortKey "/w"
           (Update.mkRequest "in.txt" "out" false (mkTime 23 30 0) (mkDate 2024 12 25))
           (DateTime.mk 2024 12 25 23 30 1) (DateTime.mk 2024 12 26 0 30 0));
    unfold validTime; cbn; lia.
Defined.

(** ** The output path, against the nested path rule *)




Lemma dayDirectory_spelled (dir : string) (d : DateOnly) :
  dayDirectory dir d -> spelled d.
Proof. unfold dayDirectory, spelled. intros [[H _] | H]; [exact H | lia]. Qed.

(** The code's reading of a path's directory is the nested path rule. *)
Lemma extractDateFromPath_dayDirectory (p : string) (d : DateOnly) :
  extractDateFromPath p = Some d <-> dayDirectory (Path.dirname p) d.
Proof.
  unfold extractDateFromPath. cbn zeta. set (dir := Path.dirname p). split.
  - unfold DATE_DASHED_exec.
    pose proof (join_split "-" (Path.basename dir)) as Hjoin.
    assert (Hnested :
              match rev (Js.split Path.sep dir) with
              | dayPart :: monthPart :: yearPart :: _ =>
                  if Js.digitsExactly 4 yearPart && Js.digitsExactly 2 monthPart &&
                     Js.digitsExactly 2 dayPart
                  then
                    if (Js.parseInt monthPart >=? 1) && (Js.parseInt monthPart <=? 12) &&
                       (Js.parseInt dayPart >=? 1) && (Js.parseInt dayPart <=? 31)
                    then Some (mkDate (Js.parseInt yearPart) (Js.parseInt monthPart)
                                 (Js.parseInt dayPart))
                    else None
                  else None
              | _ => None
              end = Some d -> dayDirectory dir d).
    { destruct (rev (Js.split Path.sep dir)) as [| dp [| mp [| yp rest]]] eqn:Er;
        try discriminate.
      destruct (Js.digitsExactly 4 yp) eqn:Dy; [| discriminate].
      destruct (Js.digitsExactly 2 mp) eqn:Dm; [| discriminate].
      destruct (Js.digitsExactly 2 dp) eqn:Dd; [| discriminate].
      cbn [andb].
      destruct (fourDigits_parseInt yp Dy) as [Fy Ry].
      destruct (twoDigits_parseInt mp Dm) as [Fm Rm].
      destruct (twoDigits_parseInt dp Dd) as [Fd Rd].
      destruct (Z.geb_spec (Js.parseInt mp) 1); [| discriminate].
      destruct (Z.leb_spec (Js.parseInt mp) 12); [| discriminate].
      destruct (Z.geb_spec (Js.parseInt dp) 1); [| discriminate].
      destruct (Z.leb_spec (Js.parseInt dp) 31); [| discriminate].
      cbn [andb]. intros [= <-]. right. cbn [year month day].
      repeat split; try lia. exists (rev rest).
      rewrite Fy, Fm, Fd, <- (rev_involutive (Js.split Path.sep dir)), Er.
      cbn [rev]. now rewrite <- !app_assoc. }
    destruct (Js.split "-" (Path.basename dir)) as [| y [| m [| dd [| ? ?]]]];
      try exact Hnested.
    destruct (Js.digitsExactly 4 y) eqn:Dy; [| exact Hnested].
    destruct (Js.digitsExactly 2 m) eqn:Dm; [| exact Hnested].
    destruct (Js.digitsExactly 2 dd) eqn:Dd; [| exact Hnested].
    cbn [andb].
    destruct (fourDigits_parseInt y Dy) as [Fy Ry].
    destruct (twoDigits_parseInt m Dm) as [Fm Rm].
    destruct (twoDigits_parseInt dd Dd) as [Fd Rd].
    intros [= <-]. left. unfold spelled, dashedDate. cbn [year month day].
    rewrite Fy, Fm, Fd. repeat split; try lia. now rewrite <- Hjoin.
  - intros [[(Hy & Hm & Hd) Hname] | (Hy & Hm & Hd & above & Hsplit)].
    + destruct (parseInt_fourDigits _ Hy) as [Dy Py].
      destruct (parseInt_twoDigits _ Hm) as [Dm Pm].
      destruct (parseInt_twoDigits _ Hd) as [Dd Pd].
      rewrite Hname. unfold DATE_DASHED_exec, dashedDate.
      rewrite split_dashedDate by assumption.
      rewrite Dy, Dm, Dd. cbn [andb]. rewrite Py, Pm, Pd. now destruct d.
    + destruct (parseInt_fourDigits _ Hy) as [Dy Py].
      destruct (parseInt_twoDigits (month d)) as [Dm Pm]; [lia |].
      destruct (parseInt_twoDigits (day d)) as [Dd Pd]; [lia |].
      set (Y := fourDigits (year d)) in *. set (M := twoDigits (month d)) in *.
      set (D := twoDigits (day d)) in *.
      assert (HDc : charFree Path.sep D = true)
        by (eapply digits_charFree; [reflexivity | eassumption]).
      assert (Hbase : Path.basename dir = D).
      { pose proof (join_split Path.sep dir) as Hjoin. rewrite Hsplit in Hjoin.
        change (above ++ [Y; M; D]) with (above ++ [Y; M] ++ [D]) in Hjoin.
        rewrite app_assoc, join_app in Hjoin;
          [| destruct above; discriminate | discriminate].
        rewrite <- Hjoin. change (Js.join (String Path.sep "") [D]) with D.
        rewrite <- append_assoc.
        apply basename_segment; [discriminate | exact HDc |].
        right. eexists. reflexivity. }
      rewrite Hbase. unfold DATE_DASHED_exec.
      rewrite (split_single "-" D)
        by (eapply digits_charFree; [reflexivity | eassumption]).
      rewrite Hsplit, rev_app_distr. cbn [rev app].
      rewrite Dy, Dm, Dd. cbn [andb]. rewrite Py, Pm, Pd.
      destruct (Z.geb_spec (month d) 1); [| lia].
      destruct (Z.leb_spec (month d) 12); [| lia].
      destruct (Z.geb_spec (day d) 1); [| lia].
      destruct (Z.leb_spec (day d) 31); [| lia].
      cbn [andb]. now destruct d.
Qed.



(** Every date a sort key carries is one that digits spell. *)
Lemma getSortKey_spelled (filepath : string) (k : FileSortKey) (d : DateOnly) :
  getSortKey filepath = Ok k -> date k = Some d -> spelled d.
Proof.
  unfold getSortKey. cbn zeta.
  destruct (looksLikeFlatFormat _).
  - unfold parseFlat. cbn zeta. unfold DATE_COMPACT_REGEX_exec.
    destruct (Js.digitsExactly 8 _) eqn:D8; [| discriminate].
    destruct (parseTimeDigits _); [| discriminate].
    intros [= <-]. cbn [date]. intros [= <-].
    match type of D8 with Js.digitsExactly 8 ?s = true => set (s0 := s) in * end.
    unfold Js.digitsExactly in D8.
    destruct s0 as [| c1 [| c2 [| c3 [| c4 [| c5 [| c6 [| c7 [| c8 [| c9 s0]]]]]]]]];
      try discriminate D8.
    cbn in D8. repeat (apply andb_true_iff in D8 as [? D8]).
    assert (Dy : Js.digitsExactly 4 (String c1 (String c2 (String c3 (String c4 ""))))
                 = true)
      by (unfold Js.digitsExactly; cbn;
          repeat match goal with
                 | Hc : Js.isDigit ?c = true |- context [Js.isDigit ?c] => rewrite Hc
                 end; reflexivity).
    assert (Dm : Js.digitsExactly 2 (String c5 (String c6 "")) = true)
      by (unfold Js.digitsExactly; cbn;
          repeat match goal with
                 | Hc : Js.isDigit ?c = true |- context [Js.isDigit ?c] => rewrite Hc
                 end; reflexivity).
    assert (Dd : Js.digitsExactly 2 (String c7 (String c8 "")) = true)
      by (unfold Js.digitsExactly; cbn;
          repeat match goal with
                 | Hc : Js.isDigit ?c = true |- context [Js.isDigit ?c] => rewrite Hc
                 end; reflexivity).
    destruct (fourDigits_parseInt _ Dy) as [_ Ry].
    destruct (twoDigits_parseInt _ Dm) as [_ Rm].
    destruct (twoDigits_parseInt _ Dd) as [_ Rd].
    unfold spelled. cbn [year month day Js.sliceTo Js.sliceFrom]. auto.
  - destruct (looksLikeNestedFormat _); [| discriminate].
    unfold parseNested. destruct (parseTimeDigits _); [| discriminate].
    cbn zeta. intros [= <-]. cbn [date]. intros Hd.
    apply extractDateFromPath_dayDirectory in Hd.
    exact (dayDirectory_spelled _ _ Hd).
Qed.




(** ** The update command *)




Section UpdateFacts.

Variable locate : string -> string.
Variable resolve : string -> string.
Variable denied : gmap string Node -> Operation -> option string.
Variable cwd : string.

(** The steps of [executeUpdate], one after the other. *)
Lemma executeUpdate_run (request : Update.Request) (w : World) :
  Update.executeUpdate locate denied cwd request w =
  let input := Update.inputFile request in
  match denied (store w) (Stat input) with
  | Some message => (Err (Update.FileIOError message), w)
  | None =>
      match lookupFile locate (store w) input with
      | None => (Err (Update.FileIOError (enoent input)), w)
      | Some (l, contents) =>
          let size := Z.of_nat (String.length contents) in
          if size >? MAX_FILE_SIZE
          then (Err (Update.FileTooLargeError size MAX_FILE_SIZE), w)
          else
            match denied (store w) (ReadFile input) with
            | Some message => (Err (Update.FileIOError message), w)
            | None =>
                let w1 := mkWorld (store w) (trace w ++ [Read l]) in
                match adjustTranscript contents (Update.startTime request)
                        (Update.date request) with
                | Err e => (Err (Update.Transcript e), w1)
                | Ok r =>
                    let out :=
                      Update.resolveOutputPath cwd request (firstTimestamp r)
                        (lastTimestamp r) in
                    match denied (store w) (MakeDir (Path.dirname out)) with
                    | Some message => (Err (Update.FileIOError message), w1)
                    | None =>
                        match denied (store w) (Replace out (body r)) with
                        | Some message => (Err (Update.FileIOError message), w1)
                        | None =>
                            (Ok (Update.mkOutcome out (hasOutOfOrderTimestamps r)),
                             mkWorld (<[locate out := File (body r)]> (store w))
                               (trace w ++ [Read l; Write (locate out) (body r)]))
                        end
                    end
                end
            end
      end
  end.
Proof.
  unfold Update.executeUpdate, Update.io, statSize, readFileSync, mkdirSync,
    atomicWrite, attempt.
  cbv zeta.
  destruct (denied (store w) (Stat _)); [reflexivity |].
  destruct (lookupFile locate (store w) _) as [[l contents] |] eqn:E; [| reflexivity].
  cbv beta iota.
  destruct (_ >? MAX_FILE_SIZE); [reflexivity |].
  destruct (denied (store w) (ReadFile _)); [reflexivity |].
  rewrite E. cbv beta iota.
  destruct (adjustTranscript contents _ _) as [[b first final flag] | e];
    [| reflexivity].
  cbn [store trace firstTimestamp lastTimestamp body hasOutOfOrderTimestamps].
  destruct (denied (store w) (MakeDir _)); [reflexivity |].
  cbn [mret Sys_ret store trace]. cbv beta iota.
  destruct (denied (store w) (Replace _ _)); [reflexivity |].
  cbn [store trace]. rewrite <- app_assoc. reflexivity.
Qed.



End UpdateFacts.



(** ** Adjusting an adjusted transcript *)

Lemma clockSum_spec (a b : Time) :
  validTime a -> validTime b ->
  validTime (clockSum a b) /\
  timeToSeconds (clockSum a b) = (timeToSeconds a + timeToSeconds b) mod 86400.
Proof.
  intros Ha Hb. pose proof (timeToSeconds_range _ Ha). pose proof (timeToSeconds_range _ Hb).
  unfold clockSum, validTime. cbn zeta. cbn [hours minutes seconds].
  set (s := (timeToSeconds a + timeToSeconds b) mod 86400).
  assert (Hs : 0 <= s < 86400) by (apply Z.mod_pos_bound; lia).
  unfold timeToSeconds at 1. cbn [hours minutes seconds].
  split; Z.to_euclidean_division_equations; lia.
Qed.

Lemma timeOf_applyOffset (a b : Time) (d : DateOnly) :
  validTime a -> validTime b -> timeOf (applyOffset a d b) = clockSum a b.
Proof.
  intros Ha Hb. pose proof (timeToSeconds_range _ Ha). pose proof (timeToSeconds_range _ Hb).
  unfold applyOffset, secondsToTimeWithOverflow, clockSum, timeOf, createDateTime.
  cbn zeta. cbn [DateTime.hours DateTime.minutes DateTime.seconds].
  set (total := timeToSeconds a + timeToSeconds b).
  assert (Ht : 0 <= total) by (unfold total; lia).
  rewrite !Z.rem_mod_nonneg by (try apply Z.mod_pos_bound; lia).
  reflexivity.
Qed.

Lemma clockSum_assoc (a b t : Time) :
  validTime a -> validTime b -> validTime t ->
  clockSum b (clockSum a t) = clockSum (clockSum a b) t.
Proof.
  intros Ha Hb Ht.
  destruct (clockSum_spec a t Ha Ht) as [_ E1], (clockSum_spec a b Ha Hb) as [_ E2].
  unfold clockSum at 1 3. cbn zeta. rewrite E1, E2.
  replace ((timeToSeconds b + (timeToSeconds a + timeToSeconds t) mod 86400) mod 86400)
    with (((timeToSeconds a + timeToSeconds b) mod 86400 + timeToSeconds t) mod 86400);
    [reflexivity |].
  rewrite Z.add_mod_idemp_l, Z.add_mod_idemp_r by lia. f_equal. lia.
Qed.

Lemma adjustedText_twice (b1 b2 : Time) (d1 d2 d : DateOnly) (line : string) :
  validTime b1 -> validTime b2 ->
  adjustedText b2 d2 (adjustedText b1 d1 line) = adjustedText (clockSum b1 b2) d line.
Proof.
  intros H1 H2. destruct (parseTimestampLine line) as [[t rest] |] eqn:E.
  - pose proof (adjustedText_parse b1 d1 line t rest H1 E) as E'.
    assert (Ht : validTime t).
    { apply parseTimestampLine_Some in E as (_ & E & _).
      now destruct (parseTime_shape _ _ E). }
    destruct (clockSum_spec b1 b2 H1 H2) as [H12 _].
    destruct (clockSum_spec b1 t H1 Ht) as [H1t _].
    unfold adjustedText at 1. rewrite E'. unfold adjustedText. rewrite E.
    rewrite !timeOf_applyOffset by (assumption || now rewrite timeOf_applyOffset).
    now rewrite clockSum_assoc.
  - unfold adjustedText. rewrite E. now rewrite E.
Qed.

Lemma carriesTimestamp_adjusted (baseTime : Time) (effectiveDate : DateOnly)
    (line : string) :
  validTime baseTime -> carriesTimestamp line ->
  carriesTimestamp (adjustedText baseTime effectiveDate line).
Proof.
  intros Hb. rewrite !carriesTimestamp_parse.
  destruct (parseTimestampLine line) as [[t rest] |] eqn:E; [| congruence].
  intros _. now rewrite (adjustedText_parse _ _ _ _ _ Hb E).
Qed.

Lemma adjustTranscript_succeeds (contents : string) (baseTime : Time)
    (effectiveDate : DateOnly) :
  ~ Forall (fun line => ~ carriesTimestamp line) (Js.split Js.LF contents) ->
  exists r,
    adjustTranscript contents baseTime effectiveDate = Ok r /\
    body r = Js.join Js.NL (map (adjustedText baseTime effectiveDate)
                              (Js.split Js.LF contents)).
Proof.
  intros Hsome. rewrite adjustTranscript_closed. cbn zeta.
  destruct (adjustedTimestamps baseTime effectiveDate (Js.split Js.LF contents))
    as [| a l] eqn:E.
  - exfalso. now apply Hsome, (stamps_nil baseTime effectiveDate).
  - cbn [head]. rewrite last_cons.
    destruct (last l); eexists; split; reflexivity.
Qed.

(** X21.  Adjusting an adjusted transcript adds the offsets: the body
    obtained by adjusting with [b1] and then with [b2] is the body
    obtained by adjusting once with the clock sum of [b1] and [b2],
    whatever the dates; the second adjustment never fails when the
    first succeeded. *)
Theorem adjustTranscript_twice (contents : string) (b1 b2 : Time)
    (d1 d2 d : DateOnly) (r1 : TranscriptUpdate) :
  validTime b1 -> validTime b2 ->
  adjustTranscript contents b1 d1 = Ok r1 ->
  exists r2 r,
    adjustTranscript (body r1) b2 d2 = Ok r2 /\
    adjustTranscript contents (clockSum b1 b2) d = Ok r /\
    body r2 = body r.
Proof.
  intros H1 H2 Hr1.
  destruct (adjustTranscript_body_lines _ _ _ _ Hr1) as [_ Hlines].
  assert (Hsome : ~ Forall (fun line => ~ carriesTimestamp line)
                      (Js.split Js.LF contents)).
  { intros Hnone. apply (stamps_nil b1 d1) in Hnone.
    rewrite adjustTranscript_closed in Hr1. cbn zeta in Hr1.
    rewrite Hnone in Hr1. discriminate Hr1. }
  assert (Hsome' : ~ Forall (fun line => ~ carriesTimestamp line)
                       (Js.split Js.LF (body r1))).
  { intros Hnone. apply Hsome. rewrite Hlines in Hnone.
    apply List.Forall_forall. intros line Hin Hc.
    rewrite List.Forall_forall in Hnone.
    apply (Hnone (adjustedText b1 d1 line)); [now apply in_map |].
    now apply carriesTimestamp_adjusted. }
  destruct (adjustTranscript_succeeds (body r1) b2 d2 Hsome') as (r2 & Hr2 & Hb2).
  destruct (adjustTranscript_succeeds contents (clockSum b1 b2) d Hsome) as (r & Hr & Hb).
  exists r2, r. split; [exact Hr2 |]. split; [exact Hr |].
  rewrite Hb2, Hb, Hlines, map_map. f_equal.
  apply map_ext. intros line. now apply adjustedText_twice.
Qed.

Lemma adjustTranscript_twice_witness :
  exists r2 r,
    adjustTranscript ("23:30:01 Start" +:+ Js.NL +:+ "00:30:00 Later" +:+ Js.NL)
      (mkTime 1 0 0) (mkDate 2024 12 26) = Ok r2 /\
    adjustTranscript ("00:00:01 Start" +:+ Js.NL +:+ "01:00:00 Later" +:+ Js.NL)
      (clockSum (mkTime 23 30 0) (mkTime 1 0 0)) (mkDate 2024 12 27) = Ok r /\
    body r2 = body r.
Proof.
  apply (adjustTranscript_twice
           ("00:00:01 Start" +:+ Js.NL +:+ "01:00:00 Later" +:+ Js.NL)
           (mkTime 23 30 0) (mkTime 1 0 0) (mkDate 2024 12 25) (mkDate 2024 12 26)
           (mkDate 2024 12 27)
           (mkUpdate ("23:30:01 Start" +:+ Js.NL +:+ "00:30:00 Later" +:+ Js.NL)
              (DateTime.mk 2024 12 25 23 30 1) (DateTime.mk 2024 12 26 0 30 0) false)).
  - unfold validTime. cbn. lia.
  - unfold validTime. cbn. lia.
  - reflexivity.
Defined.

(** ** The comparator of the merge *)

(** X22.  [compareSortKeys] is a comparator of a total order on sort
    keys: it returns zero exactly on equal keys, swapping the arguments
    swaps the sign, and "not greater" is transitive; so the order in
    which the sort leaves the descriptors does not depend on the sorting
    algorithm, except among files with one and the same key. *)
Theorem compareSortKeys_total_order (a b c : FileSortKey) :
  (compareSortKeys a b = 0 <-> a = b) /\
  (compareSortKeys a b < 0 <-> compareSortKeys b a > 0) /\
  (compareSortKeys a b <= 0 -> compareSortKeys b c <= 0 ->
   compareSortKeys a c <= 0).
Proof.
  split; [| split; [| apply compareSortKeys_trans]].
  - destruct a as [[[ya ma da] |] ha mia sa], b as [[[yb mb db] |] hb mib sb];
      unfold compareSortKeys; cbn;
      repeat match goal with
             | |- context [Z.eqb ?x ?y] => destruct (Z.eqb_spec x y); cbn [negb]
             end; split; intros H; try lia; try congruence;
      try (injection H; intros; lia); repeat f_equal; lia.
  - unfold compareSortKeys.
    destruct (date a) as [da |], (date b) as [db |];
      repeat match goal with
             | |- context [Z.eqb ?x ?y] => destruct (Z.eqb_spec x y); cbn [negb]
             end; lia.
Qed.

Lemma compareSortKeys_total_order_witness :
  compareSortKeys (mkKey None 9 0 0) (mkKey (Some (mkDate 2025 1 27)) 6 19 1) <= 0.
Proof.
  apply (proj2 (proj2 (compareSortKeys_total_order
                         (mkKey None 9 0 0) (mkKey None 10 0 0)
                         (mkKey (Some (mkDate 2025 1 27)) 6 19 1)))); cbn; lia.
Defined.

(** ** The file [writeMergedFile] writes *)

Section MergedFile.

Variable locate : string -> string.
Variable denied : gmap string Node -> Operation -> option string.

Lemma readSegments_total (files : list string) (merged : string) (w : World) :
  Forall (fun f => existsIn locate (store w) f = true) files ->
  (forall operation, denied (store w) operation = None) ->
  exists text w1, readSegments locate denied files merged w = (Ok text, w1).
Proof.
  revert merged w. induction files as [| f rest IH]; intros merged w Hall Hfree.
  - cbn. eauto.
  - apply List.Forall_cons_iff in Hall as [Hf Hrest].
    cbn [readSegments]. rewrite Sys_bind_run, readFileSync_run, Hfree.
    apply existsIn_true in Hf as (l & content & Hc).
    rewrite Hc. apply IH; assumption.
Qed.

(** The write in closed form. *)
Lemma writeMergedFile_total (files : list string) (outputPath : string)
    (w : World) :
  Forall (fun f => existsIn locate (store w) f = true) files ->
  (forall operation, denied (store w) operation = None) ->
  exists w',
    writeMergedFile locate denied files outputPath w = (Ok tt, w') /\
    store w' =
      <[locate outputPath :=
          File (segmentsText true (map (contentOf locate (store w)) files))]> (store w).
Proof.
  intros Hall Hfree. rewrite writeMergedFile_run.
  destruct (readSegments_total files "" w Hall Hfree) as (text & w1 & Hread).
  destruct (readSegments_run locate id denied files "" w) as (Hstore & _ & Hok).
  rewrite Hread in *. cbn [fst snd] in *.
  destruct (Hok text eq_refl) as [-> _]. cbn zeta.
  rewrite Hstore, !Hfree. destruct (_ && _); (eexists; split; [reflexivity |]);
    cbn [store]; now rewrite mergedContent_segmentsText.
Qed.


End MergedFile.


(** ** The adjusted datetime on the calendar *)

(** C5.  For valid base and relative times, [applyOffset] adds the two
    second counts; [daysOverflow] is the floor of the total over 86400,
    which is zero or one, and the remainder gives the hours, minutes and
    seconds of the result; its date is [addDays(baseDate, daysOverflow)]
    when [daysOverflow] is positive and the base date unchanged
    otherwise.  For a base date on the calendar, the date after an
    overflow is the next calendar day. *)
Theorem applyOffset_overflow (start : Time) (effectiveDate : DateOnly) (relative : Time) :
  validTime start -> validTime relative ->
  let totalSeconds := timeToSeconds start + timeToSeconds relative in
  let daysOverflow := totalSeconds / 86400 in
  let remainder := totalSeconds - daysOverflow * 86400 in
  let adjustedDate :=
    if daysOverflow >? 0 then addDays effectiveDate daysOverflow else effectiveDate in
  0 <= daysOverflow <= 1 /\
  0 <= remainder < 86400 /\
  applyOffset start effectiveDate relative =
    DateTime.mk (year adjustedDate) (month adjustedDate) (day adjustedDate)
      (remainder / 3600) (remainder mod 3600 / 60) (remainder mod 60) /\
  0 <= remainder / 3600 <= 23 /\
  0 <= remainder mod 3600 / 60 <= 59 /\
  0 <= remainder mod 60 <= 59 /\
  (daysOverflow = 0 -> adjustedDate = effectiveDate) /\
  (daysOverflow = 1 ->
   1 <= month effectiveDate <= 12 ->
   1 <= day effectiveDate <=
     daysInMonth (centuryYear (year effectiveDate)) (month effectiveDate) ->
   adjustedDate =
     nextDay (centuryYear (year effectiveDate)) (month effectiveDate)
       (day effectiveDate)).
Proof.
  intros Hs Hr totalSeconds daysOverflow remainder adjustedDate.
  pose proof (timeToSeconds_range _ Hs). pose proof (timeToSeconds_range _ Hr).
  assert (Hnn : 0 <= totalSeconds <= 172798) by (unfold totalSeconds; lia).
  assert (Hrem : remainder = totalSeconds mod 86400)
    by (unfold remainder, daysOverflow; Z.to_euclidean_division_equations; lia).
  assert (Hd : 0 <= daysOverflow <= 1)
    by (unfold daysOverflow; Z.to_euclidean_division_equations; lia).
  assert (Hr' : 0 <= remainder < 86400) by (rewrite Hrem; apply Z.mod_pos_bound; lia).
  split; [exact Hd |]. split; [exact Hr' |]. split; [| split; [| split; [| split; [| split]]]].
  - unfold applyOffset, secondsToTimeWithOverflow, createDateTime. cbn zeta.
    fold totalSeconds. cbn [fst snd hours minutes seconds].
    rewrite (Z.rem_mod_nonneg totalSeconds 86400) by lia. rewrite <- Hrem.
    rewrite (Z.rem_mod_nonneg remainder 3600), (Z.rem_mod_nonneg remainder 60) by lia.
    reflexivity.
  - Z.to_euclidean_division_equations; lia.
  - Z.to_euclidean_division_equations; lia.
  - Z.to_euclidean_division_equations; lia.
  - unfold adjustedDate. now intros ->.
  - unfold adjustedDate. intros -> Hm Hday. cbn [Z.gtb Z.compare].
    now apply addDays_one.
Qed.

Lemma applyOffset_overflow_witness :
  applyOffset (mkTime 23 30 0) (mkDate 2024 12 25) (mkTime 1 0 0) =
    DateTime.mk 2024 12 26 0 30 0 /\
  addDays (mkDate 2024 12 25) 1 = mkDate 2024 12 26.
Proof.
  destruct (applyOffset_overflow (mkTime 23 30 0) (mkDate 2024 12 25) (mkTime 1 0 0))
    as (_ & _ & E & _ & _ & _ & _ & Hnext).
  - unfold validTime. simpl. lia.
  - unfold validTime. simpl. lia.
  - split; [exact E |]. apply Hnext.
    + reflexivity.
    + simpl. lia.
    + change (1 <= 25 <= 31). lia.
Defined.

(** X23.  For valid times and a calendar date, the adjusted datetime
    is the clock sum of base and relative time, on the effective date
    when the two add up to less than 24 hours and on the next calendar
    day otherwise: an adjusted transcript never reaches further than
    the day after its effective date. *)
Theorem applyOffset_calendar (start relative : Time) (effectiveDate : DateOnly) :
  validTime start -> validTime relative ->
  1 <= month effectiveDate <= 12 ->
  1 <= day effectiveDate <=
    daysInMonth (centuryYear (year effectiveDate)) (month effectiveDate) ->
  applyOffset start effectiveDate relative =
  createDateTime
    (if timeToSeconds start + timeToSeconds relative <? 86400 then effectiveDate
     else nextDay (centuryYear (year effectiveDate)) (month effectiveDate)
            (day effectiveDate))
    (clockSum start relative).
Proof.
  intros Hs Hr Hm Hd.
  destruct (applyOffset_parts start relative effectiveDate Hs Hr Hm Hd)
    as (t & _ & _ & E).
  pose proof (timeOf_applyOffset start relative effectiveDate Hs Hr) as Ht.
  rewrite E in Ht |- *. destruct t. cbn in Ht. now rewrite <- Ht.
Qed.

Lemma applyOffset_calendar_witness :
  applyOffset (mkTime 23 30 0) (mkDate 2024 2 29) (mkTime 1 0 0) =
  DateTime.mk 2024 3 1 0 30 0.
Proof.
  apply (applyOffset_calendar (mkTime 23 30 0) (mkTime 1 0 0) (mkDate 2024 2 29)).
  - unfold validTime. cbn. lia.
  - unfold validTime. cbn. lia.
  - cbn. lia.
  - change (1 <= 29 <= 29). lia.
Defined.

(** ** When the merge and the update succeed *)

Lemma mapM_describe_total (collected : list string) :
  Forall recognizedName collected -> exists ds, mapM describe collected = Ok ds.
Proof.
  induction 1 as [| p l Hp _ [ds IH]]; [now exists [] |].
  rewrite mapM_describe_cons.
  destruct (getSortKey_cases p) as [[_ [k ->]] | [Hn _]]; [| contradiction].
  rewrite IH. eauto.
Qed.

Lemma NoDup_map_filter {A B} (f : A -> B) (p : A -> bool) (l : list A) :
  List.NoDup (map f l) -> List.NoDup (map f (List.filter p l)).
Proof.
  induction l as [| a l IH]; cbn; [auto |]. intros H.
  apply List.NoDup_cons_iff in H as [Ha Hl]. destruct (p a); cbn; [| now apply IH].
  apply List.NoDup_cons; [| now apply IH].
  intros Hin. apply Ha. apply in_map_iff in Hin as (x & <- & Hx).
  apply in_map. now apply filter_In in Hx.
Qed.

Section MergeSucceeds.

Variable locate : string -> string.
Variable resolve : string -> string.
Variable glob : gmap string Node -> string -> option (list string).
Variable denied : gmap string Node -> Operation -> option string.

Lemma checkSizes_total (collected : list string) (w : World) :
  (forall operation, denied (store w) operation = None) ->
  Forall (fun p => existsIn locate (store w) p = true /\
                   Z.of_nat (String.length (contentOf locate (store w) p))
                     <= MAX_FILE_SIZE) collected ->
  fst (checkSizes locate denied collected w) = Ok tt.
Proof.
  intros Hfree. induction 1 as [| p l [Hex Hsize] _ IH]; [reflexivity |].
  cbn [checkSizes]. rewrite Fs_bind_run, statSize_run, Hfree.
  apply existsIn_true in Hex as (loc & content & Hc).
  rewrite (contentOf_found _ _ _ _ _ Hc) in Hsize. rewrite Hc.
  destruct (Z.gtb_spec (Z.of_nat (String.length content)) MAX_FILE_SIZE); [lia |].
  exact IH.
Qed.

Lemma deleteLoop_total (files : list string) (oc : string) (w : World) :
  (forall m operation, denied m operation = None) ->
  List.NoDup (map locate files) ->
  Forall (fun f => is_Some (store w !! locate f)) files ->
  exists w', deleteLoop locate resolve denied files oc w = (Ok tt, w').
Proof.
  intros Hfree. revert w.
  induction files as [| f rest IH]; intros w Hnd Hall; [cbn; eauto |].
  cbn [map] in Hnd. apply List.NoDup_cons_iff in Hnd as [Hf Hnd].
  apply List.Forall_cons_iff in Hall as [[node Hc] Hall].
  rewrite deleteLoop_step, Hfree, Hc.
  destruct (String.eqb _ oc); [now apply IH |].
  apply IH; [exact Hnd |]. cbn [store].
  rewrite List.Forall_forall in Hall. apply List.Forall_forall. intros g Hg.
  rewrite lookup_delete_ne; [now apply Hall |].
  intros Heq. apply Hf. rewrite Heq. now apply in_map.
Qed.

(** X24.  A merge with an explicit output succeeds whenever every
    pattern matched, every matched path names an existing file of at
    most [MAX_FILE_SIZE] characters with a recognised name, the
    operating system refuses no operation, and either the sources are
    kept or no two matched paths have the same location. *)
Theorem executeMerge_succeeds (request : MergeRequest) (w : World)
    (collected : list string) (out : string) :
  output request = Some out -> out <> "" ->
  fst (expandPatterns glob (patterns request) [] w) = Ok collected ->
  Forall (fun p => existsIn locate (store w) p = true /\
                   Z.of_nat (String.length (contentOf locate (store w) p))
                     <= MAX_FILE_SIZE /\
                   recognizedName p) collected ->
  (forall m operation, denied m operation = None) ->
  noDelete request = true \/ List.NoDup (map locate collected) ->
  exists outcome w',
    executeMerge locate resolve glob denied request w = (Ok outcome, w') /\
    outputPath outcome = out.
Proof.
  intros Hout Hne Hexp Hall Hfree Hdel.
  rewrite executeMerge_run, Hexp.
  rewrite checkSizes_total;
    [| intros operation; apply Hfree
     | eapply List.Forall_impl; [| exact Hall]; cbn; tauto].
  destruct (mapM_describe_total collected) as [unsorted Hm];
    [eapply List.Forall_impl; [| exact Hall]; cbn; tauto |].
  rewrite Hm. cbn zeta.
  rewrite (determineOutputPath_explicit _ _ request out Hout Hne).
  set (sorted := sortStable (fun a b => compareSortKeys (key a) (key b)) unsorted).
  set (sources := sourcesOf locate resolve (store w) (deduplicate sorted)
                    (canonicalIn locate resolve (store w) out)).
  assert (Hsrc : forall f, In f sources -> existsIn locate (store w) f = true).
  { intros f Hf. rewrite List.Forall_forall in Hall. apply Hall.
    apply sourcesOf_In in Hf as [Hf _].
    now apply (ordered_In collected unsorted f Hm). }
  destruct (writeMergedFile_total locate denied sources out w) as (w1 & Hw & Hstore).
  { apply List.Forall_forall. intros f Hf. now apply Hsrc. }
  { apply Hfree. }
  rewrite Hw. destruct Hdel as [Hkeep | Hnd].
  - rewrite Hkeep. cbn [negb]. eauto.
  - destruct (noDelete request); cbn [negb]; [eauto |].
    rewrite deleteSources_run.
    destruct (deleteLoop_total sources
                (canonicalIn locate resolve (store w1) out) w1 Hfree) as [w2 Hw2].
    + unfold sources, sourcesOf. apply NoDup_map_filter.
      assert (Hperm : Permutation (map path sorted) collected).
      { destruct (mapM_describe_Ok _ _ Hm) as [<- _].
        apply Permutation_map, sortStable_Permutation. }
      assert (Hnd' : List.NoDup (map path sorted)).
      { eapply Permutation_NoDup; [symmetry; exact Hperm |].
        clear -Hnd. induction collected as [| a l IH]; [constructor |].
        cbn in Hnd. apply List.NoDup_cons_iff in Hnd as [Ha Hl].
        constructor; [| now apply IH]. intros Hin. apply Ha. now apply in_map. }
      unfold deduplicate. rewrite dedupe_from_NoDup by exact Hnd'. cbn [app].
      eapply Permutation_NoDup; [| exact Hnd].
      symmetry. now apply Permutation_map.
    + apply List.Forall_forall. intros f Hf.
      apply Hsrc, existsIn_true in Hf as (l & c & Hl).
      apply follow_start in Hl. rewrite Hstore.
      destruct (decide (locate out = locate f)) as [-> | Hd].
      * rewrite lookup_insert_eq. eauto.
      * now rewrite lookup_insert_ne.
    + rewrite Hw2. eauto.
Qed.

End MergeSucceeds.

Lemma executeMerge_succeeds_witness :
  exists outcome w',
    runMerge "/w" (mkRequest [Sample.late; Sample.early] (Some "day.txt") false)
      Sample.dayFiles = (Ok outcome, w') /\
    outputPath outcome = "day.txt".
Proof.
  apply (executeMerge_succeeds (Path.resolve "/w") (Path.resolve "/w") (plainGlob "/w") permissive
           (mkRequest [Sample.late; Sample.early] (Some "day.txt") false)
           (mkWorld Sample.dayFiles []) [Sample.late; Sample.early] "day.txt").
  - reflexivity.
  - discriminate.
  - vm_compute. reflexivity.
  - repeat apply List.Forall_cons; try apply List.Forall_nil;
      (split; [vm_compute; reflexivity |]);
      (split; [vm_compute; discriminate |]).
    + destruct (getSortKey_cases Sample.late) as [[H _] | [_ H]];
        [exact H | vm_compute in H; discriminate H].
    + destruct (getSortKey_cases Sample.early) as [[H _] | [_ H]];
        [exact H | vm_compute in H; discriminate H].
  - reflexivity.
  - right. repeat constructor; cbn; intuition discriminate.
Defined.

(** Without that proviso the merge may fail after its reads: an output
    path that names a directory is refused, nothing is written and no
    source is removed. *)
Example executeMerge_output_is_directory :
  executeMerge (Path.resolve "/w") (Path.resolve "/w") (plainGlob "/w")
    Sample.dayIsDirectory Sample.intoDay (mkWorld Sample.dayFiles []) =
  (Err (IOError "EISDIR day"),
   mkWorld Sample.dayFiles
     [Read "/w/2025/01/27/061901-111901.txt";
      Read "/w/2025/01/27/112256-162256.txt"]).
Proof. vm_compute. reflexivity. Qed.

Lemma carriesTimestamp_Exists (lines : list string) :
  ~ Forall (fun line => ~ carriesTimestamp line) lines <->
  Exists carriesTimestamp lines.
Proof.
  split.
  - induction lines as [| line lines IH]; intros H; [exfalso; apply H; constructor |].
    destruct (parseTimestampLine line) as [[t rest] |] eqn:E.
    + left. apply carriesTimestamp_parse. congruence.
    + right. apply IH. intros Hall. apply H. constructor; [| exact Hall].
      rewrite carriesTimestamp_parse. tauto.
  - intros Hex Hall. apply List.Exists_exists in Hex as (line & Hin & Hc).
    rewrite List.Forall_forall in Hall. exact (Hall line Hin Hc).
Qed.

Section UpdateSucceeds.

Variable locate : string -> string.
Variable denied : gmap string Node -> Operation -> option string.
Variable cwd : string.

(** X25.  As long as the operating system refuses no operation, the
    update succeeds exactly when the input path denotes a file that is
    at most [MAX_FILE_SIZE] characters long and has a line that carries
    a timestamp. *)
Theorem executeUpdate_succeeds (request : Update.Request) (w : World) :
  (forall operation, denied (store w) operation = None) ->
  (exists outcome w',
      Update.executeUpdate locate denied cwd request w = (Ok outcome, w')) <->
  existsIn locate (store w) (Update.inputFile request) = true /\
  Z.of_nat (String.length (contentOf locate (store w) (Update.inputFile request)))
    <= MAX_FILE_SIZE /\
  Exists carriesTimestamp
    (Js.split Js.LF (contentOf locate (store w) (Update.inputFile request))).
Proof.
  intros Hfree. rewrite executeUpdate_run. cbn zeta. rewrite Hfree.
  destruct (lookupFile locate (store w) (Update.inputFile request))
    as [[l contents] |] eqn:E.
  - rewrite (contentOf_found _ _ _ _ _ E).
    assert (Hex : existsIn locate (store w) (Update.inputFile request) = true)
      by (apply existsIn_true; eauto).
    destruct (Z.gtb_spec (Z.of_nat (String.length contents)) MAX_FILE_SIZE) as [Hgt | Hle].
    + split; [intros (? & ? & [=]) |]. intros (_ & Hc & _). lia.
    + rewrite Hfree. split.
      * intros (outcome & w' & Hrun).
        split; [exact Hex |]. split; [exact Hle |].
        apply carriesTimestamp_Exists. intros Hnone.
        apply (stamps_nil (Update.startTime request) (Update.date request)) in Hnone.
        rewrite adjustTranscript_closed in Hrun. cbn zeta in Hrun.
        rewrite Hnone in Hrun. discriminate Hrun.
      * intros (_ & _ & Hsome). apply carriesTimestamp_Exists in Hsome.
        destruct (adjustTranscript_succeeds contents (Update.startTime request)
                    (Update.date request) Hsome) as ([b first final flag] & -> & _).
        rewrite !Hfree. eauto.
  - split; [intros (? & ? & [=]) |]. intros (Hex & _).
    apply existsIn_false in E. congruence.
Qed.

End UpdateSucceeds.

Lemma executeUpdate_succeeds_witness :
  exists outcome w', UpdateSample.run UpdateSample.request = (Ok outcome, w').
Proof.
  apply (executeUpdate_succeeds (Path.resolve "/w") permissive "/w"
           UpdateSample.request (mkWorld UpdateSample.files [])).
  - reflexivity.
  - split; [vm_compute; reflexivity |]. split; [vm_compute; discriminate |].
    left. apply carriesTimestamp_parse. vm_compute. discriminate.
Defined.

(** ** What a merge can touch *)

Section MergeConfined.

Variable locate : string -> string.
Variable resolve : string -> string.
Variable glob : gmap string Node -> string -> option (list string).
Variable denied : gmap string Node -> Operation -> option string.



End MergeConfined.

